(** * The code relationship graph engine of [code-graph/src/index.js]

    A shallow embedding of the [CodeGraph] class (graph store, traversal,
    search, serialisation), of the resolver [buildCodeGraph] and of the cache
    operations [loadGraph] / [deleteGraph], followed by the properties of the
    design document that can be settled on it.

    Conventions of the embedding.
    - A JavaScript [Map] keeps its keys in insertion order and the code
      iterates over maps, so a map is an association list in insertion order
      ([JSMap]); a [Set] of strings is a duplicate-free list in insertion
      order ([JSSet]); a [Set] of freshly allocated objects never merges two
      members, so it is a plain list in insertion order.
    - Mutation of the store is explicit state passing.
    - Library functions of the platform ([path.dirname], [path.join],
      [toLowerCase], the MD5 digest, [JSON.parse], [JSON.stringify]) are
      Section variables; the clock readings are arguments.
    - [fs] is a small model of the cache directory, in which a file can be
      missing, unreadable or irremovable. *)

From Stdlib Require Import List String Ascii Bool Arith ZArith Lia Permutation Sorted.
From Stdlib Require Import DecimalString.
Import ListNotations.
Open Scope string_scope.
Open Scope list_scope.

(** ** Insertion-ordered maps and sets *)

Module JSMap.
Section Defs.
Context {V : Type}.

Definition t := list (string * V).

Definition empty : t := [].

Fixpoint get (m : t) (k : string) : option V :=
  match m with
  | [] => None
  | (k', v) :: m' => if String.eqb k k' then Some v else get m' k
  end.

Definition has (m : t) (k : string) : bool :=
  match get m k with Some _ => true | None => false end.

(** [m.set(k, v)]: an existing key keeps its position, a new key is
    appended. *)
Fixpoint set (m : t) (k : string) (v : V) : t :=
  match m with
  | [] => [(k, v)]
  | (k', v') :: m' =>
      if String.eqb k k' then (k', v) :: m' else (k', v') :: set m' k v
  end.

(** [m.delete(k)]. *)
Fixpoint remove (m : t) (k : string) : t :=
  match m with
  | [] => []
  | (k', v') :: m' =>
      if String.eqb k k' then m' else (k', v') :: remove m' k
  end.

Definition keys (m : t) : list string := map fst m.
Definition values (m : t) : list V := map snd m.
End Defs.
Arguments t : clear implicits.
End JSMap.

Module JSSet.
Definition t := list string.

Definition has (s : t) (x : string) : bool := existsb (String.eqb x) s.

Definition add (s : t) (x : string) : t := if has s x then s else s ++ [x].

(** [new Set(array)]. *)
Definition of_list (l : list string) : t := fold_left add l [].
End JSSet.

(** ** Strings *)

(** Template-literal rendering of a line number. *)
Definition lineStr (n : nat) : string := NilEmpty.string_of_uint (Nat.to_uint n).

(** [s.startsWith(p)]. *)
Definition startsWith (s p : string) : bool := String.prefix p s.

(** [s.endsWith(p)]. *)
Definition endsWith (s p : string) : bool :=
  let ls := String.length s in
  let lp := String.length p in
  (lp <=? ls)%nat && String.eqb (String.substring (ls - lp) lp s) p.

(** [s.includes(sub)]. *)
Fixpoint includes (s sub : string) : bool :=
  String.prefix sub s ||
  match s with
  | EmptyString => false
  | String _ s' => includes s' sub
  end.

(** Lower-casing of the letters A-Z, every other character left alone: what
    [s.toLowerCase()] does on ASCII text.  It instantiates the parameter
    [toLowerCase] of the search in the scenarios. *)
Definition lowerAscii (c : ascii) : ascii :=
  let n := nat_of_ascii c in
  if ((65 <=? n) && (n <=? 90))%nat then ascii_of_nat (n + 32) else c.

Fixpoint asciiLowerCase (s : string) : string :=
  match s with
  | EmptyString => EmptyString
  | String c s' => String (lowerAscii c) (asciiLowerCase s')
  end.

(** [s.replace(/\\/g, '/')]. *)
Fixpoint replaceBackslashes (s : string) : string :=
  match s with
  | EmptyString => EmptyString
  | String c s' =>
      String (if Ascii.eqb c "\"%char then "/"%char else c) (replaceBackslashes s')
  end.

(** [s.replace(/^\.\//, '')]. *)
Definition stripDotSlash (s : string) : string :=
  match s with
  | String "."%char (String "/"%char s') => s'
  | _ => s
  end.

(** [Array.prototype.sort(cmp)]: a stable sort; [cmp a b > 0] puts [a] after
    [b]. *)
Section Sort.
Context {A : Type} (cmp : A -> A -> Z).

Fixpoint insertSorted (x : A) (l : list A) : list A :=
  match l with
  | [] => [x]
  | y :: l' => if (cmp x y <=? 0)%Z then x :: y :: l' else y :: insertSorted x l'
  end.

Fixpoint sortBy (l : list A) : list A :=
  match l with
  | [] => []
  | x :: l' => insertSorted x (sortBy l')
  end.
End Sort.

(** ** Facts produced by the parser ([parseJavaScriptFile]) *)

Inductive SymbolType := TFunction | TClass | TVariable | TCall.

Definition typeName (t : SymbolType) : string :=
  match t with
  | TFunction => "function"
  | TClass => "class"
  | TVariable => "variable"
  | TCall => "call"
  end.

Definition SymbolType_eqb (a b : SymbolType) : bool :=
  match a, b with
  | TFunction, TFunction | TClass, TClass
  | TVariable, TVariable | TCall, TCall => true
  | _, _ => false
  end.

(** A symbol fact; it is also the data stored at a node.  [sym_extends] is the
    superclass name of a class ([undefined] otherwise); [sym_attrs] stands for
    the fields the engine stores and never reads ([params], [async],
    [generator], [methods], [properties], [kind], [arguments]). *)
Record Symbol := mkSymbol {
  sym_type : SymbolType;
  sym_name : string;
  sym_file : string;
  sym_line : nat;
  sym_extends : option string;
  sym_attrs : list (string * string)
}.

Record ImportFact := mkImport {
  imp_source : string;
  imp_imported : string;
  imp_local : string;
  imp_line : nat
}.

Record ExportFact := mkExport {
  exp_exported : string;
  exp_local : option string;
  exp_line : nat
}.

Record Parsed := mkParsed {
  symbols : list Symbol;
  imports : list ImportFact;
  exports : list ExportFact
}.

(** ** The graph store ([class CodeGraph]) *)

Inductive EdgeType := Imports | Calls | Extends.

Definition EdgeType_eqb (a b : EdgeType) : bool :=
  match a, b with
  | Imports, Imports | Calls, Calls | Extends, Extends => true
  | _, _ => false
  end.

(** [{ to, type }], a member of a forward edge set. *)
Record OutEdge := mkOut { out_to : string; out_type : EdgeType }.

(** [{ from, type }], a member of a reverse edge set. *)
Record InEdge := mkIn { in_from : string; in_type : EdgeType }.

Record Metadata := mkMetadata {
  createdAt : option string;
  updatedAt : option string;
  projectPath : option string
}.

Record CodeGraph := mkGraph {
  nodes : JSMap.t Symbol;
  edges : JSMap.t (list OutEdge);
  reverseEdges : JSMap.t (list InEdge);
  fileIndex : JSMap.t JSSet.t;
  projectHash : option string;
  metadata : Metadata
}.

(** [new CodeGraph()]; [now] is the clock reading of the constructor. *)
Definition newCodeGraph (now : string) : CodeGraph :=
  {| nodes := JSMap.empty;
     edges := JSMap.empty;
     reverseEdges := JSMap.empty;
     fileIndex := JSMap.empty;
     projectHash := None;
     metadata := {| createdAt := Some now; updatedAt := Some now; projectPath := None |} |}.

(** [if (!m.has(k)) m.set(k, new Set())]. *)
Definition ensureKey {V} (m : JSMap.t (list V)) (k : string) : JSMap.t (list V) :=
  if JSMap.has m k then m else JSMap.set m k [].

(** [m.get(k) || new Set()]. *)
Definition getOrEmpty {V} (m : JSMap.t (list V)) (k : string) : list V :=
  match JSMap.get m k with Some s => s | None => [] end.

(** [m.get(k).add(x)] for a key that is present: the set stored at [k] is
    extended in place. *)
Definition addTo {V} (m : JSMap.t (list V)) (k : string) (x : V) : JSMap.t (list V) :=
  JSMap.set m k (getOrEmpty m k ++ [x]).

Definition addNode (g : CodeGraph) (id : string) (data : Symbol) : CodeGraph :=
  let fileNodes := getOrEmpty (fileIndex g) (sym_file data) in
  {| nodes := JSMap.set (nodes g) id data;
     edges := ensureKey (edges g) id;
     reverseEdges := ensureKey (reverseEdges g) id;
     fileIndex := JSMap.set (fileIndex g) (sym_file data) (JSSet.add fileNodes id);
     projectHash := projectHash g;
     metadata := metadata g |}.

Definition addEdge (g : CodeGraph) (from to : string) (type : EdgeType) : CodeGraph :=
  {| nodes := nodes g;
     edges := addTo (ensureKey (edges g) from) from (mkOut to type);
     reverseEdges := addTo (ensureKey (reverseEdges g) to) to (mkIn from type);
     fileIndex := fileIndex g;
     projectHash := projectHash g;
     metadata := metadata g |}.

(** *** Traversal ([getConnections]) *)

Inductive Direction := Outgoing | Incoming | Both.

Definition followsOutgoing (d : Direction) : bool :=
  match d with Outgoing | Both => true | Incoming => false end.

Definition followsIncoming (d : Direction) : bool :=
  match d with Incoming | Both => true | Outgoing => false end.

(** A record of the result array. *)
Record Connection := mkConn {
  conn_from : string;
  conn_to : string;
  conn_type : EdgeType;
  fromData : option Symbol;
  toData : option Symbol
}.

(** The two locals shared by the closure [traverse], and [expanded], an
    instrumentation that is not in the source: it logs the node each time the
    body of [traverse] runs past its guard. *)
Record Walk := mkWalk {
  visited : JSSet.t;
  result : list Connection;
  expanded : list string
}.

(** A [for ... of] loop whose body may run out of fuel. *)
Fixpoint forOf {A S : Type} (body : A -> S -> option S) (l : list A) (s : S) : option S :=
  match l with
  | [] => Some s
  | x :: l' =>
      match body x s with
      | Some s' => forOf body l' s'
      | None => None
      end
  end.

Definition pushResult (w : Walk) (c : Connection) : Walk :=
  {| visited := visited w; result := result w ++ [c]; expanded := expanded w |}.

Definition markVisited (w : Walk) (nodeId : string) : Walk :=
  {| visited := JSSet.add (visited w) nodeId;
     result := result w;
     expanded := expanded w ++ [nodeId] |}.

(** The records pushed for an outgoing and for an incoming edge of
    [nodeId]. *)
Definition outgoingRecord (g : CodeGraph) (nodeId : string) (edge : OutEdge) : Connection :=
  {| conn_from := nodeId;
     conn_to := out_to edge;
     conn_type := out_type edge;
     fromData := JSMap.get (nodes g) nodeId;
     toData := JSMap.get (nodes g) (out_to edge) |}.

Definition incomingRecord (g : CodeGraph) (nodeId : string) (edge : InEdge) : Connection :=
  {| conn_from := in_from edge;
     conn_to := nodeId;
     conn_type := in_type edge;
     fromData := JSMap.get (nodes g) (in_from edge);
     toData := JSMap.get (nodes g) nodeId |}.

Section Traverse.
Variable g : CodeGraph.
Variable direction : Direction.
(** The argument [depth]: an integer, which may be negative.  [currentDepth]
    only takes the values 0, 1, 2, ..., so that a fractional depth behaves as
    the integer below it. *)
Variable depth : Z.

(** The closure [traverse(nodeId, currentDepth)]; [fuel] bounds the nesting
    of calls, [None] means the bound was hit.  The guard is
    [currentDepth > depth || visited.has(nodeId)]. *)
Fixpoint traverse (fuel : nat) (nodeId : string) (currentDepth : nat) (w : Walk)
  : option Walk :=
  match fuel with
  | O => None
  | S fuel' =>
      if (depth <? Z.of_nat currentDepth)%Z || JSSet.has (visited w) nodeId then Some w
      else
        let w := markVisited w nodeId in
        match
          (if followsOutgoing direction then
             forOf (fun edge w =>
                      traverse fuel' (out_to edge) (currentDepth + 1)
                        (pushResult w (outgoingRecord g nodeId edge)))
                   (getOrEmpty (edges g) nodeId) w
           else Some w)
        with
        | None => None
        | Some w =>
            if followsIncoming direction then
              forOf (fun edge w =>
                       traverse fuel' (in_from edge) (currentDepth + 1)
                         (pushResult w (incomingRecord g nodeId edge)))
                    (getOrEmpty (reverseEdges g) nodeId) w
            else Some w
        end
  end.
End Traverse.

Definition emptyWalk : Walk := {| visited := []; result := []; expanded := [] |}.

(** [getConnections(id, direction, depth)] run with a bound on the nesting of
    [traverse]. *)
Definition runConnections (fuel : nat) (g : CodeGraph) (id : string)
    (direction : Direction) (depth : Z) : option Walk :=
  traverse g direction depth fuel id 0 emptyWalk.

(** [getConnections(id, direction, depth)]: calls nest at most [depth + 2]
    deep (2 deep for a negative depth), the innermost one returning at its
    guard. *)
Definition getConnections (g : CodeGraph) (id : string) (direction : Direction)
    (depth : Z) : list Connection :=
  match runConnections (Z.to_nat depth + 2) g id direction depth with
  | Some w => result w
  | None => []
  end.

(** *** Search ([searchNodes]) *)

(** [{ id, ...node, score }]. *)
Record SearchHit := mkHit {
  hit_id : string;
  hit_node : Symbol;
  score : Z
}.

(** [type && node.type !== type]: a missing or empty [type] filters
    nothing. *)
Definition typeRejects (type : option string) (node : Symbol) : bool :=
  match type with
  | None => false
  | Some t => negb (String.eqb t "") && negb (String.eqb (typeName (sym_type node)) t)
  end.

Section Search.
(** [String.prototype.toLowerCase] of the platform. *)
Variable toLowerCase : string -> string.

Definition nameMatches (lowerQuery : string) (node : Symbol) : bool :=
  includes (toLowerCase (sym_name node)) lowerQuery.

Definition fileMatches (lowerQuery : string) (node : Symbol) : bool :=
  includes (toLowerCase (sym_file node)) lowerQuery.

(** The body of the loop over [this.nodes]. *)
Definition collectHit (lowerQuery : string) (type : option string)
    (results : list SearchHit) (entry : string * Symbol) : list SearchHit :=
  let '(id, node) := entry in
  if typeRejects type node then results
  else
    let nameMatch := nameMatches lowerQuery node in
    let fileMatch := fileMatches lowerQuery node in
    if nameMatch || fileMatch then
      results ++ [ {| hit_id := id; hit_node := node;
                      score := if nameMatch then 2%Z else 1%Z |} ]
    else results.

Definition searchNodes (g : CodeGraph) (query : string) (type : option string)
    : list SearchHit :=
  let lowerQuery := toLowerCase query in
  let results := fold_left (collectHit lowerQuery type) (nodes g) [] in
  sortBy (fun a b => (score b - score a)%Z) results.
End Search.

(** *** Serialisation ([toJSON], [fromJSON]) *)

(** [{ from, to, type }], a member of the [edges] array of a document. *)
Record EdgeDoc := mkEdgeDoc {
  ed_from : string;
  ed_to : string;
  ed_type : EdgeType
}.

(** [{ file, nodeIds }]. *)
Record FileIndexDoc := mkFileIndexDoc {
  fi_file : string;
  fi_nodeIds : list string
}.

(** A field of a parsed document that a loop of [fromJSON] iterates.  In a
    foreign document it may be missing (or [null], or another falsy value),
    or be a value that cannot be iterated and has no [length]: a number,
    [true], an object that is no array.  The entries of an array have the
    shape that [toJSON] writes; a document whose arrays hold entries of
    another shape is outside this model. *)
Inductive Field (A : Type) : Type :=
| Missing
| Items (l : list A)
| NotIterable.
Arguments Missing {A}.
Arguments Items {A} l.
Arguments NotIterable {A}.

(** The persisted document.  A field that a foreign document may lack is an
    option; [{ id, ...data }] is the pair of the id and the node data. *)
Record Document := mkDocument {
  doc_metadata : option Metadata;
  doc_projectHash : option string;
  doc_nodes : Field (string * Symbol);
  doc_edges : Field EdgeDoc;
  doc_fileIndex : Field FileIndexDoc
}.

(** The array [edgesArray] built by the nested loop of [toJSON]. *)
Definition edgesArray (m : JSMap.t (list OutEdge)) : list EdgeDoc :=
  fold_left
    (fun acc '(from, es) =>
       fold_left (fun acc edge => acc ++ [mkEdgeDoc from (out_to edge) (out_type edge)]) es acc)
    m [].

Definition toJSON (g : CodeGraph) : Document :=
  {| doc_metadata := Some (metadata g);
     doc_projectHash := projectHash g;
     doc_nodes := Items (nodes g);
     doc_edges := Items (edgesArray (edges g));
     doc_fileIndex :=
       Items (map (fun '(file, ids) => mkFileIndexDoc file ids) (fileIndex g)) |}.

(** The entries that [for (const x of field || [])] visits; [None] when the
    value cannot be iterated and the loop throws a [TypeError]. *)
Definition entriesOf {A} (x : Field A) : option (list A) :=
  match x with
  | Missing => Some []
  | Items l => Some l
  | NotIterable => None
  end.

(** [field?.length || 0]. *)
Definition lengthOr0 {A} (x : Field A) : nat :=
  match x with
  | Items l => List.length l
  | Missing | NotIterable => 0
  end.

Definition emptyMetadata : Metadata :=
  {| createdAt := None; updatedAt := None; projectPath := None |}.

Definition loadNode (graph : CodeGraph) (node : string * Symbol) : CodeGraph :=
  let '(id, nodeData) := node in
  {| nodes := JSMap.set (nodes graph) id nodeData;
     edges := ensureKey (edges graph) id;
     reverseEdges := ensureKey (reverseEdges graph) id;
     fileIndex := fileIndex graph;
     projectHash := projectHash graph;
     metadata := metadata graph |}.

Definition loadEdge (graph : CodeGraph) (edge : EdgeDoc) : CodeGraph :=
  let es := ensureKey (edges graph) (ed_from edge) in
  let es := addTo es (ed_from edge) (mkOut (ed_to edge) (ed_type edge)) in
  let rs := ensureKey (reverseEdges graph) (ed_to edge) in
  let rs := addTo rs (ed_to edge) (mkIn (ed_from edge) (ed_type edge)) in
  {| nodes := nodes graph;
     edges := es;
     reverseEdges := rs;
     fileIndex := fileIndex graph;
     projectHash := projectHash graph;
     metadata := metadata graph |}.

Definition loadFileEntry (graph : CodeGraph) (entry : FileIndexDoc) : CodeGraph :=
  {| nodes := nodes graph;
     edges := edges graph;
     reverseEdges := reverseEdges graph;
     fileIndex := JSMap.set (fileIndex graph) (fi_file entry) (JSSet.of_list (fi_nodeIds entry));
     projectHash := projectHash graph;
     metadata := metadata graph |}.

(** The store [graph] of [fromJSON] before its loops run.  The timestamps
    of the constructor are overwritten at once by [data.metadata || {}], so
    no clock is read. *)
Definition headerOf (data : Document) : CodeGraph :=
  {| nodes := JSMap.empty;
     edges := JSMap.empty;
     reverseEdges := JSMap.empty;
     fileIndex := JSMap.empty;
     projectHash := doc_projectHash data;
     metadata := match doc_metadata data with Some m => m | None => emptyMetadata end |}.

(** [CodeGraph.fromJSON(data)]; [None] when one of its loops throws, which
    leaves no store behind. *)
Definition fromJSON (data : Document) : option CodeGraph :=
  let graph := headerOf data in
  match entriesOf (doc_nodes data) with
  | None => None
  | Some nodeEntries =>
      let graph := fold_left loadNode nodeEntries graph in
      match entriesOf (doc_edges data) with
      | None => None
      | Some edgeEntries =>
          let graph := fold_left loadEdge edgeEntries graph in
          match entriesOf (doc_fileIndex data) with
          | None => None
          | Some fileEntries => Some (fold_left loadFileEntry fileEntries graph)
          end
      end
  end.

(** ** The resolver (population of the graph in [buildCodeGraph]) *)

(** [`${file}:${name}:${line}`]. *)
Definition nodeIdOf (file name : string) (line : nat) : string :=
  (file ++ ":" ++ name ++ ":" ++ lineStr line)%string.

(** [`${file}:import:${line}`]. *)
Definition importSiteId (file : string) (line : nat) : string :=
  (file ++ ":import:" ++ lineStr line)%string.

(** [`${file}:${line}`]. *)
Definition callSiteId (file : string) (line : nat) : string :=
  (file ++ ":" ++ lineStr line)%string.

Definition isType (t : SymbolType) (s : Symbol) : bool := SymbolType_eqb (sym_type s) t.

(** Truthiness of an optional string. *)
Definition truthy (x : option string) : bool :=
  match x with Some s => negb (String.eqb s "") | None => false end.

(** The loop that adds the symbols of one parsed file as nodes. *)
Definition addSymbols (file : string) (syms : list Symbol) (g : CodeGraph) : CodeGraph :=
  fold_left
    (fun g symbol =>
       if negb (isType TCall symbol)
       then addNode g (nodeIdOf file (sym_name symbol) (sym_line symbol)) symbol
       else g)
    syms g.

(** The first loop of [buildCodeGraph].  The input pairs each file found by
    the glob with the result of reading and parsing it; [None] stands for a
    file that could not be read or exceeds [config.maxFileSize]. *)
Definition parseAll (files : list (string * option Parsed)) (g : CodeGraph)
    : JSMap.t Parsed * CodeGraph :=
  fold_left
    (fun '(fileData, g) '(file, outcome) =>
       match outcome with
       | Some parsed => (JSMap.set fileData file parsed, addSymbols file (symbols parsed) g)
       | None => (fileData, g)
       end)
    files (JSMap.empty, g).

(** The nested scan over every symbol of every parsed file that call
    resolution and inheritance resolution both perform; the two loops of the
    source differ in the test [wanted] and in the edge type only. *)
Definition scanDeclarations (fileData : JSMap.t Parsed) (wanted : Symbol -> bool)
    (fromId : string) (type : EdgeType) (g : CodeGraph) : CodeGraph :=
  fold_left
    (fun g '(otherFile, otherData) =>
       fold_left
         (fun g otherSymbol =>
            if wanted otherSymbol then
              let targetId := nodeIdOf otherFile (sym_name otherSymbol) (sym_line otherSymbol) in
              if JSMap.has (nodes g) targetId then addEdge g fromId targetId type else g
            else g)
         (symbols otherData) g)
    fileData g.

(** "Connect function calls", for one call fact [symbol] of [file]. *)
Definition connectCall (fileData : JSMap.t Parsed) (file : string) (symbol : Symbol)
    (g : CodeGraph) : CodeGraph :=
  scanDeclarations fileData
    (fun otherSymbol =>
       isType TFunction otherSymbol && String.eqb (sym_name otherSymbol) (sym_name symbol))
    (callSiteId file (sym_line symbol)) Calls g.

(** "Connect class inheritance", for one class fact [symbol] of [file] whose
    superclass name is [parent]. *)
Definition connectExtends (fileData : JSMap.t Parsed) (file : string) (symbol : Symbol)
    (parent : string) (g : CodeGraph) : CodeGraph :=
  scanDeclarations fileData
    (fun otherSymbol =>
       isType TClass otherSymbol && String.eqb (sym_name otherSymbol) parent)
    (nodeIdOf file (sym_name symbol) (sym_line symbol)) Extends g.

Definition hasDefaultExport (targetData : Parsed) : bool :=
  existsb (fun e => String.eqb (exp_exported e) "default") (exports targetData).

(** "Find exported symbol": the loop over the symbols of the resolved
    file. *)
Definition linkImport (file : string) (imp : ImportFact) (normalizedPath : string)
    (targetData : Parsed) (g : CodeGraph) : CodeGraph :=
  fold_left
    (fun g symbol =>
       if String.eqb (sym_name symbol) (imp_local imp)
          || (String.eqb (imp_imported imp) "default" && hasDefaultExport targetData)
       then
         let fromId := importSiteId file (imp_line imp) in
         let toId := nodeIdOf normalizedPath (sym_name symbol) (sym_line symbol) in
         if JSMap.has (nodes g) toId then addEdge g fromId toId Imports else g
       else g)
    (symbols targetData) g.

Definition possibleFiles (resolvedPath : string) : list string :=
  [ (resolvedPath ++ ".js")%string;
    (resolvedPath ++ ".ts")%string;
    (resolvedPath ++ ".jsx")%string;
    (resolvedPath ++ ".tsx")%string;
    (resolvedPath ++ "/index.js")%string;
    (resolvedPath ++ "/index.ts")%string ].

(** The loop over [possibleFiles], left by [break] at the first candidate
    that is a key of [fileData]. *)
Fixpoint tryCandidates (fileData : JSMap.t Parsed) (file : string) (imp : ImportFact)
    (candidates : list string) (g : CodeGraph) : CodeGraph :=
  match candidates with
  | [] => g
  | possibleFile :: rest =>
      let normalizedPath := stripDotSlash possibleFile in
      match JSMap.get fileData normalizedPath with
      | Some targetData => linkImport file imp normalizedPath targetData g
      | None => tryCandidates fileData file imp rest g
      end
  end.

Section Resolver.
(** [path.dirname] and [path.join] of the platform. *)
Variable path_dirname : string -> string.
Variable path_join : string -> string -> string.

(** The path an import source resolves to, before a suffix is tried. *)
Definition resolveSource (file source : string) : string :=
  replaceBackslashes (path_join (path_dirname file) source).

(** "Connect imports to exports", for one import fact of [file]. *)
Definition connectImport (fileData : JSMap.t Parsed) (file : string) (imp : ImportFact)
    (g : CodeGraph) : CodeGraph :=
  if startsWith (imp_source imp) "." then
    tryCandidates fileData file imp (possibleFiles (resolveSource file (imp_source imp))) g
  else g.

(** The body of the loop "Build relationships" for one entry of
    [fileData]. *)
Definition relateFile (fileData : JSMap.t Parsed) (g : CodeGraph)
    (entry : string * Parsed) : CodeGraph :=
  let '(file, data) := entry in
  let g := fold_left (fun g imp => connectImport fileData file imp g) (imports data) g in
  let g :=
    fold_left
      (fun g symbol =>
         if isType TCall symbol then connectCall fileData file symbol g else g)
      (symbols data) g in
  fold_left
    (fun g symbol =>
       if isType TClass symbol && truthy (sym_extends symbol) then
         match sym_extends symbol with
         | Some parent => connectExtends fileData file symbol parent g
         | None => g
         end
       else g)
    (symbols data) g.

(** Population of a fresh store: both loops of [buildCodeGraph]. *)
Definition populate (now : string) (files : list (string * option Parsed)) : CodeGraph :=
  let '(fileData, g) := parseAll files (newCodeGraph now) in
  fold_left (relateFile fileData) fileData g.
End Resolver.

(** Every forward edge of the store as a triple. *)
Definition allEdges (g : CodeGraph) : list EdgeDoc := edgesArray (edges g).

(** ** The cache on disk and the process-wide store *)

(** The file system as far as the engine touches it: the cache directory
    [config.dbPath], absent or holding files by base name;
    [path.join(config.dbPath, filename)] addresses the file [filename] of it.
    A file may refuse to be read or to be removed. *)
Inductive FsError := ENOENT | EACCES | EPERM.

Record CacheFile := mkCacheFile {
  content : string;
  readable : bool;
  removable : bool
}.

Definition CacheDir := option (JSMap.t CacheFile).

(** A call that returns a value or throws. *)
Inductive Outcome (A : Type) :=
| Returned (a : A)
| Thrown (e : FsError).
Arguments Returned {A} a.
Arguments Thrown {A} e.

Definition fs_readFile (d : CacheDir) (name : string) : Outcome string :=
  match d with
  | None => Thrown ENOENT
  | Some files =>
      match JSMap.get files name with
      | None => Thrown ENOENT
      | Some f => if readable f then Returned (content f) else Thrown EACCES
      end
  end.

Definition fs_unlink (d : CacheDir) (name : string) : Outcome CacheDir :=
  match d with
  | None => Thrown ENOENT
  | Some files =>
      match JSMap.get files name with
      | None => Thrown ENOENT
      | Some f => if removable f then Returned (Some (JSMap.remove files name)) else Thrown EPERM
      end
  end.

Definition fs_writeFile (d : CacheDir) (name data : string) : Outcome CacheDir :=
  match d with
  | None => Thrown ENOENT
  | Some files =>
      match JSMap.get files name with
      | None => Returned (Some (JSMap.set files name (mkCacheFile data true true)))
      | Some f =>
          Returned (Some (JSMap.set files name (mkCacheFile data (readable f) (removable f))))
      end
  end.

Definition fs_readdir (d : CacheDir) : list string :=
  match d with
  | None => []
  | Some files => JSMap.keys files
  end.

(** The module state: the global [codeGraph], the setting [config.dbPath]
    and the directory of that path on the disk. *)
Record Server := mkServer {
  codeGraph : CodeGraph;
  dbPath : string;
  cacheDir : CacheDir
}.

Definition withGraph (s : Server) (g : CodeGraph) : Server :=
  {| codeGraph := g; dbPath := dbPath s; cacheDir := cacheDir s |}.

Definition withDir (s : Server) (d : CacheDir) : Server :=
  {| codeGraph := codeGraph s; dbPath := dbPath s; cacheDir := d |}.

Definition ensureDbDirectory (s : Server) : Server :=
  match cacheDir s with
  | Some _ => s
  | None => withDir s (Some JSMap.empty)
  end.

(** An entry of the list returned by [listCachedGraphs]. *)
Record CachedSummary := mkSummary {
  cs_file : string;
  cs_projectPath : option string;
  cs_createdAt : option string;
  cs_updatedAt : option string;
  cs_nodeCount : nat;
  cs_edgeCount : nat
}.

(** The reply of a tool handler: the fields [success] and [message] of its
    JSON text, or the [isError] reply of the handler's [catch]. *)
Inductive ToolReply :=
| Reply (success : bool) (message : string)
| ErrorReply (e : FsError).

Record BuildStats := mkStats {
  st_nodeCount : nat;
  st_edgeCount : nat;
  st_fileCount : nat;
  st_cached : bool
}.

Section Persistence.
Variable path_dirname : string -> string.
Variable path_join : string -> string -> string.
(** [crypto.createHash('md5').update(x).digest('hex')]. *)
Variable md5hex : string -> string.
(** [JSON.parse]; [None] when it throws, and also when it returns [null], on
    which the first property access of every reader throws. *)
Variable JSON_parse : string -> option Document.
(** [JSON.stringify(x, null, 2)]. *)
Variable JSON_stringify : Document -> string.

Definition generateProjectHash (projectPath : string) : string := md5hex projectPath.

(** [`graph_${hash}.json`]. *)
Definition cacheFileName (projectPath : string) : string :=
  ("graph_" ++ generateProjectHash projectPath ++ ".json")%string.

Definition saveGraph (now projectPath : string) (s : Server) : Outcome string * Server :=
  let s := ensureDbDirectory s in
  let hash := generateProjectHash projectPath in
  let filename := cacheFileName projectPath in
  let g := codeGraph s in
  let g :=
    {| nodes := nodes g;
       edges := edges g;
       reverseEdges := reverseEdges g;
       fileIndex := fileIndex g;
       projectHash := Some hash;
       metadata := {| createdAt := createdAt (metadata g);
                      updatedAt := Some now;
                      projectPath := Some projectPath |} |} in
  let s := withGraph s g in
  let filepath := path_join (dbPath s) filename in
  let data := JSON_stringify (toJSON g) in
  match fs_writeFile (cacheDir s) filename data with
  | Returned d => (Returned filepath, withDir s d)
  | Thrown e => (Thrown e, s)
  end.

Definition loadGraph (projectPath : string) (s : Server) : bool * Server :=
  let s := ensureDbDirectory s in
  let filename := cacheFileName projectPath in
  match fs_readFile (cacheDir s) filename with
  | Returned data =>
      match JSON_parse data with
      | Some parsed =>
          match fromJSON parsed with
          | Some graph => (true, withGraph s graph)
          | None => (false, s)
          end
      | None => (false, s)
      end
  | Thrown ENOENT => (false, s)
  | Thrown _ => (false, s)
  end.

Definition deleteGraph (projectPath : string) (s : Server) : Outcome bool * Server :=
  let s := ensureDbDirectory s in
  let filename := cacheFileName projectPath in
  match fs_unlink (cacheDir s) filename with
  | Returned d => (Returned true, withDir s d)
  | Thrown ENOENT => (Returned false, s)
  | Thrown e => (Thrown e, s)
  end.

Definition listCachedGraphs (s : Server) : list CachedSummary * Server :=
  let s := ensureDbDirectory s in
  let files := fs_readdir (cacheDir s) in
  (fold_left
     (fun graphs file =>
        if startsWith file "graph_" && endsWith file ".json" then
          match fs_readFile (cacheDir s) file with
          | Returned data =>
              match JSON_parse data with
              | Some graph =>
                  graphs ++
                  [ {| cs_file := file;
                       cs_projectPath :=
                         match doc_metadata graph with
                         | Some m => projectPath m
                         | None => None
                         end;
                       cs_createdAt :=
                         match doc_metadata graph with
                         | Some m => createdAt m
                         | None => None
                         end;
                       cs_updatedAt :=
                         match doc_metadata graph with
                         | Some m => updatedAt m
                         | None => None
                         end;
                       cs_nodeCount := lengthOr0 (doc_nodes graph);
                       cs_edgeCount := lengthOr0 (doc_edges graph) |} ]
              | None => graphs
              end
          | Thrown _ => graphs
          end
        else graphs)
     files [], s).

(** The loop of the "clear all caches" branch. *)
Fixpoint clearEach (graphs : list CachedSummary) (deletedCount : nat) (s : Server)
  : Outcome nat * Server :=
  match graphs with
  | [] => (Returned deletedCount, s)
  | graph :: rest =>
      match cs_projectPath graph with
      | Some p =>
          if truthy (Some p) then
            match deleteGraph p s with
            | (Returned deleted, s') =>
                clearEach rest (if deleted then S deletedCount else deletedCount) s'
            | (Thrown e, s') => (Thrown e, s')
            end
          else clearEach rest deletedCount s
      | None => clearEach rest deletedCount s
      end
  end.

(** The branch "Clear all caches" of the handler. *)
Definition clearAll (s : Server) : ToolReply * Server :=
  let '(graphs, s) := listCachedGraphs s in
  match clearEach graphs 0 s with
  | (Returned n, s') =>
      (Reply true ("Cleared " ++ lineStr n ++ " cached graphs")%string, s')
  | (Thrown e, s') => (ErrorReply e, s')
  end.

(** The case ['clear_cache'] of the tool handler; [path] is [args.path]. *)
Definition clear_cache (path : option string) (s : Server) : ToolReply * Server :=
  match path with
  | Some p =>
      if truthy (Some p) then
        match deleteGraph p s with
        | (Returned deleted, s') =>
            (Reply deleted
               (if deleted then "Cache cleared for project"
                else "No cache found for project"), s')
        | (Thrown e, s') => (ErrorReply e, s')
        end
      else clearAll s
  | None => clearAll s
  end.

(** [buildCodeGraph(rootPath)]; [files] is what the glob, the reads and the
    parser deliver, [now0] and [now1] the clock readings of the constructor
    and of [saveGraph]. *)
Definition buildCodeGraph (now0 now1 rootPath : string)
    (files : list (string * option Parsed)) (s : Server) : Outcome BuildStats * Server :=
  let s := withGraph s (populate path_dirname path_join now0 files) in
  match saveGraph now1 rootPath s with
  | (Returned _, s) =>
      (Returned
         {| st_nodeCount := List.length (nodes (codeGraph s));
            st_edgeCount :=
              fold_left (fun sum set => sum + List.length set)
                (JSMap.values (edges (codeGraph s))) 0;
            st_fileCount := List.length files;
            st_cached := true |}, s)
  | (Thrown e, s) => (Thrown e, s)
  end.
End Persistence.

(** ** A concrete platform for the scenarios

    [path.dirname] and [path.join] of Node on POSIX, restricted to the
    relative, slash-separated paths without trailing slash that the glob and
    the import sources of the scenarios use. *)
Module Posix.
Fixpoint splitSlash (cur : string) (s : string) : list string :=
  match s with
  | EmptyString => [cur]
  | String c s' =>
      if Ascii.eqb c "/"%char then cur :: splitSlash EmptyString s'
      else splitSlash (cur ++ String c EmptyString)%string s'
  end.

Fixpoint joinSlash (l : list string) : string :=
  match l with
  | [] => EmptyString
  | [x] => x
  | x :: l' => (x ++ "/" ++ joinSlash l')%string
  end.

(** The segments of a normalised relative path, innermost first. *)
Definition pushSegment (stack : list string) (seg : string) : list string :=
  if String.eqb seg "" || String.eqb seg "." then stack
  else if String.eqb seg ".." then
    match stack with
    | [] => [".."]
    | top :: below => if String.eqb top ".." then seg :: stack else below
    end
  else seg :: stack.

Definition normalize (p : string) : string :=
  match rev (fold_left pushSegment (splitSlash EmptyString p) []) with
  | [] => "."
  | l => joinSlash l
  end.

Definition dirname (p : string) : string :=
  match rev (splitSlash EmptyString p) with
  | [] | [_] => "."
  | _ :: parents => joinSlash (rev parents)
  end.

Definition join (a b : string) : string := normalize (a ++ "/" ++ b)%string.
End Posix.

(** ** Notions used to state the properties *)

(** [id] is a key of the node map. *)
Definition isNode (g : CodeGraph) (id : string) : Prop := JSMap.has (nodes g) id = true.

(** Every declaration (non-call symbol fact) of [fileData] has its node in
    the store. *)
Definition declared (fileData : JSMap.t Parsed) (g : CodeGraph) : Prop :=
  forall file data s,
    In (file, data) fileData -> In s (symbols data) -> isType TCall s = false ->
    isNode g (nodeIdOf file (sym_name s) (sym_line s)).

(** [g'] results from [g] by calls of [addEdge], each for an edge that
    satisfies [Q]. *)
Inductive grownBy (Q : EdgeDoc -> Prop) (g : CodeGraph) : CodeGraph -> Prop :=
| grown_refl : grownBy Q g g
| grown_edge g' from to type :
    grownBy Q g g' -> Q (mkEdgeDoc from to type) -> grownBy Q g (addEdge g' from to type).

(** The node ids that the scan of [scanDeclarations] computes for the
    symbol facts passing [wanted], in scan order. *)
Definition matchingDeclarations (fileData : JSMap.t Parsed) (wanted : Symbol -> bool)
    : list string :=
  flat_map
    (fun '(otherFile, otherData) =>
       map (fun s => nodeIdOf otherFile (sym_name s) (sym_line s))
           (filter wanted (symbols otherData)))
    fileData.

(** What an edge of a built store looks like: the target is a node; the
    source of an [extends] edge is a node, the source of an [imports] edge is
    an import-site id and the source of a [calls] edge a call-site id. *)
Definition builtEdge (g : CodeGraph) (e : EdgeDoc) : Prop :=
  isNode g (ed_to e) /\
  match ed_type e with
  | Extends => isNode g (ed_from e)
  | Imports => exists file line, ed_from e = importSiteId file line
  | Calls => exists file line, ed_from e = callSiteId file line
  end.

(** The store that is current when [buildCodeGraph] is over. *)
Definition builtStore (path_dirname : string -> string)
    (path_join : string -> string -> string) (md5hex : string -> string)
    (JSON_stringify : Document -> string) (now0 now1 rootPath : string)
    (files : list (string * option Parsed)) (s : Server) : CodeGraph :=
  codeGraph
    (snd (buildCodeGraph path_dirname path_join md5hex JSON_stringify
            now0 now1 rootPath files s)).

(** ** Scenarios *)

Module Scenario.
Definition function_ (file name : string) (line : nat) : Symbol :=
  mkSymbol TFunction name file line None [].
Definition call_ (file name : string) (line : nat) : Symbol :=
  mkSymbol TCall name file line None [].
Definition class_ (file name : string) (line : nat) (parent : option string) : Symbol :=
  mkSymbol TClass name file line parent [].

(** Stand-ins for the digest and the JSON printer, which no scenario
    inspects. *)
Definition digest (projectPath : string) : string := projectPath.
Definition printer (d : Document) : string := "{}".

Definition freshServer : Server :=
  {| codeGraph := newCodeGraph "t0"; dbPath := "./db"; cacheDir := None |}.

Definition build (files : list (string * option Parsed)) : CodeGraph :=
  builtStore Posix.dirname Posix.join digest printer "t1" "t2" "/project" files freshServer.

(** Scenario A: [a.js] declares [function foo(){}] on line 1; [b.js] has
    [import { foo } from './a'] on line 1 and [foo()] on line 2. *)
Definition filesA : list (string * option Parsed) :=
  [ ("a.js", Some (mkParsed [function_ "a.js" "foo" 1] [] []));
    ("b.js", Some (mkParsed [call_ "b.js" "foo" 2] [mkImport "./a" "foo" "foo" 1] [])) ].

Definition callEdgeA : EdgeDoc := mkEdgeDoc "b.js:2" "a.js:foo:1" Calls.
Definition importEdgeA : EdgeDoc := mkEdgeDoc "b.js:import:1" "a.js:foo:1" Imports.

(** Scenario B: [class Base{}] in [base.js], [class Derived extends Base{}]
    in [derived.js]. *)
Definition filesB : list (string * option Parsed) :=
  [ ("base.js", Some (mkParsed [class_ "base.js" "Base" 1 None] [] []));
    ("derived.js",
     Some (mkParsed [class_ "derived.js" "Derived" 1 (Some "Base")] [] [])) ].

Definition extendsEdgeB : EdgeDoc := mkEdgeDoc "derived.js:Derived:1" "base.js:Base:1" Extends.

(** Two functions [f] nested in two functions of line 1, and a call [f()]
    on line 2:
    [function a(){function f(){}} function b(){function f(){}}]. *)
Definition filesTwins : list (string * option Parsed) :=
  [ ("a.js",
     Some (mkParsed
             [ function_ "a.js" "a" 1; function_ "a.js" "f" 1;
               function_ "a.js" "b" 1; function_ "a.js" "f" 1;
               call_ "a.js" "f" 2 ] [] [])) ].

(** [lib/b.js] imports ['./a'] while both [lib/a.ts] and [lib/a/index.js]
    are in the project, each declaring a function [a]. *)
Definition filesShadow : list (string * option Parsed) :=
  [ ("lib/a/index.js", Some (mkParsed [function_ "lib/a/index.js" "a" 3] [] []));
    ("lib/a.ts", Some (mkParsed [function_ "lib/a.ts" "a" 7] [] []));
    ("lib/b.js", Some (mkParsed [] [mkImport "./a" "a" "a" 1] [])) ].

Definition importShadow : ImportFact := mkImport "./a" "a" "a" 1.

(** A chain of classes, [A extends B] and [B extends C], and a cycle,
    [P extends Q] and [Q extends P], each class in a file of its own. *)
Definition chain : CodeGraph :=
  build
    [ ("a.js", Some (mkParsed [class_ "a.js" "A" 1 (Some "B")] [] []));
      ("b.js", Some (mkParsed [class_ "b.js" "B" 1 (Some "C")] [] []));
      ("c.js", Some (mkParsed [class_ "c.js" "C" 1 None] [] [])) ].

Definition cycle : CodeGraph :=
  build
    [ ("p.js", Some (mkParsed [class_ "p.js" "P" 1 (Some "Q")] [] []));
      ("q.js", Some (mkParsed [class_ "q.js" "Q" 1 (Some "P")] [] [])) ].

(** The two ends of a record. *)
Definition ends (c : Connection) : string * string := (conn_from c, conn_to c).

(** A store with a function [util] in [src/app.js], a function [run] in
    [src/util.js] and a class [Utility] in [lib/x.js], inserted in that
    order. *)
Definition searched : CodeGraph :=
  addNode
    (addNode
       (addNode (newCodeGraph "t0") "src/util.js:run:1" (function_ "src/util.js" "run" 1))
       "src/app.js:util:2" (function_ "src/app.js" "util" 2))
    "lib/x.js:Utility:3" (class_ "lib/x.js" "Utility" 3 None).

(** A parser that accepts the text of the empty object only. *)
Definition parser (data : string) : option Document :=
  if String.eqb data "{}" then Some (mkDocument None None Missing Missing Missing)
  else None.

(** A server whose current store is that of scenario A and whose cache
    directory holds, for the project [/broken], a file that is not JSON. *)
Definition brokenCache : Server :=
  {| codeGraph := build filesA;
     dbPath := "./db";
     cacheDir := Some [("graph_/broken.json", mkCacheFile "{ nodes: [" true true)] |}.
End Scenario.

(** *** Call resolution *)

(** The test of the call-resolution scan. *)
Definition isFunctionNamed (name : string) (other : Symbol) : bool :=
  isType TFunction other && String.eqb (sym_name other) name.

Definition isCallsEdge (e : EdgeDoc) : bool := EdgeType_eqb (ed_type e) Calls.

(** The [calls] edges one call fact [c] of [file] gives rise to: one per
    function declaration of [fileData] named like the callee, from the
    call-site id to the node id of the declaration. *)
Definition callEdgesFor (fileData : JSMap.t Parsed) (file : string) (c : Symbol)
    : list EdgeDoc :=
  map (fun target => mkEdgeDoc (callSiteId file (sym_line c)) target Calls)
      (matchingDeclarations fileData (isFunctionNamed (sym_name c))).

Definition expectedCallEdges (fileData : JSMap.t Parsed) : list EdgeDoc :=
  flat_map
    (fun '(file, data) =>
       flat_map (callEdgesFor fileData file) (filter (isType TCall) (symbols data)))
    fileData.

(** The same count taken over the nodes of the store, as the design document
    words it: one [calls] edge per function-kind node named like the
    callee. *)
Definition functionNodesNamed (g : CodeGraph) (name : string) : list string :=
  map fst (filter (fun entry => isFunctionNamed name (snd entry)) (nodes g)).

Definition callEdgesByNode (g : CodeGraph) (fileData : JSMap.t Parsed) : list EdgeDoc :=
  flat_map
    (fun '(file, data) =>
       flat_map
         (fun c =>
            map (fun target => mkEdgeDoc (callSiteId file (sym_line c)) target Calls)
                (functionNodesNamed g (sym_name c)))
         (filter (isType TCall) (symbols data)))
    fileData.

(** [fileData] when the first loop of the build is over. *)
Definition fileDataOf (files : list (string * option Parsed)) : JSMap.t Parsed :=
  fst (parseAll files (newCodeGraph "")).

(** *** Hop distance *)

(** One hop of the traversal from [u] to [v]. *)
Definition hop (g : CodeGraph) (direction : Direction) (u v : string) : Prop :=
  (followsOutgoing direction = true /\
   exists edge, In edge (getOrEmpty (edges g) u) /\ out_to edge = v) \/
  (followsIncoming direction = true /\
   exists edge, In edge (getOrEmpty (reverseEdges g) u) /\ in_from edge = v).

(** [v] is reached from [start] by a path of exactly [n] hops. *)
Inductive reachableIn (g : CodeGraph) (direction : Direction) (start : string)
  : nat -> string -> Prop :=
| reach_start : reachableIn g direction start 0 start
| reach_hop n u v :
    reachableIn g direction start n u -> hop g direction u v ->
    reachableIn g direction start (S n) v.

(** The records pushed when [nodeId] is expanded. *)
Definition recordsAt (g : CodeGraph) (direction : Direction) (nodeId : string)
    : list Connection :=
  (if followsOutgoing direction
   then map (outgoingRecord g nodeId) (getOrEmpty (edges g) nodeId) else []) ++
  (if followsIncoming direction
   then map (incomingRecord g nodeId) (getOrEmpty (reverseEdges g) nodeId) else []).

(** A record of an edge at a node that lies within [d] hops of [start]; the
    far end of such an edge lies within [d + 1] hops. *)
Definition withinHops (g : CodeGraph) (direction : Direction) (start : string) (d : nat)
    (c : Connection) : Prop :=
  exists u n, n <= d /\ reachableIn g direction start n u /\ In c (recordsAt g direction u).

(** *** Stores as maps and sets *)

(** The association lists of a store stand for [Map]s and [Set]s: no key of
    a map and no member of a set of ids occurs twice. *)
Definition wellFormed (g : CodeGraph) : Prop :=
  NoDup (JSMap.keys (nodes g)) /\
  NoDup (JSMap.keys (edges g)) /\
  NoDup (JSMap.keys (reverseEdges g)) /\
  NoDup (JSMap.keys (fileIndex g)) /\
  Forall (fun entry => NoDup (snd entry)) (fileIndex g).

(** *** Search *)

(** The comparator of the sort in [searchNodes]. *)
Definition byScore (a b : SearchHit) : Z := (score b - score a)%Z.

Section SearchNotions.
Variable toLowerCase : string -> string.

(** [q] occurs in [s] when letter case is ignored. *)
Definition containsIgnoringCase (s q : string) : Prop :=
  exists pre post, toLowerCase s = (pre ++ toLowerCase q ++ post)%string.

(** The hit the loop of [searchNodes] pushes for one entry of the node map,
    if any. *)
Definition hitOf (lowerQuery : string) (type : option string) (entry : string * Symbol)
    : list SearchHit :=
  collectHit toLowerCase lowerQuery type [] entry.

(** [h] is a hit for the query: its node is in the store, passes the type
    filter when one is given, and either its name contains the query (score
    2) or its name does not and its file path does (score 1). *)
Definition isHit (g : CodeGraph) (query : string) (type : option string) (h : SearchHit)
    : Prop :=
  In (hit_id h, hit_node h) (nodes g) /\
  (forall t, type = Some t -> t <> "" -> typeName (sym_type (hit_node h)) = t) /\
  ((containsIgnoringCase (sym_name (hit_node h)) query /\ score h = 2%Z) \/
   (~ containsIgnoringCase (sym_name (hit_node h)) query /\
    containsIgnoringCase (sym_file (hit_node h)) query /\ score h = 1%Z)).
End SearchNotions.

(** *** Cache entries *)

(** The cache directory holds a file of that name. *)
Definition hasCacheEntry (d : CacheDir) (name : string) : bool :=
  match d with
  | Some files => JSMap.has files name
  | None => false
  end.

(** The cache directory holds a file of that name whose text [JSON.parse]
    rejects. *)
Definition malformedEntry (JSON_parse : string -> option Document) (d : CacheDir)
    (name : string) : Prop :=
  exists files f,
    d = Some files /\ JSMap.get files name = Some f /\ readable f = true /\
    JSON_parse (content f) = None.

(** *** The edges of a store as triples *)

(** The triples that a map from ids to sets of edge ends stands for; [h]
    makes the triple out of a key and a member of its set. *)
Definition flatten {V : Type} (h : string -> V -> EdgeDoc) (m : JSMap.t (list V))
    : list EdgeDoc :=
  flat_map (fun entry => map (h (fst entry)) (snd entry)) m.

Definition forwardDoc (from : string) (edge : OutEdge) : EdgeDoc :=
  mkEdgeDoc from (out_to edge) (out_type edge).

(** Every member of the forward index as a triple, read off the map [edges]
    itself and not through the serialisation. *)
Definition forwardEdges (g : CodeGraph) : list EdgeDoc :=
  flatten forwardDoc (edges g).

Definition reverseDoc (to : string) (edge : InEdge) : EdgeDoc :=
  mkEdgeDoc (in_from edge) to (in_type edge).

(** Every member of the reverse index as a triple. *)
Definition allReverseEdges (g : CodeGraph) : list EdgeDoc :=
  flatten reverseDoc (reverseEdges g).

(** The reverse index holds the forward edges, up to order. *)
Definition mirrored (g : CodeGraph) : Prop :=
  Permutation (allReverseEdges g) (allEdges g).

(** ** Tool handlers (the [switch] of the [CallToolRequestSchema] handler) *)

(** [x || 0] for a count kept in an object. *)
Definition countOf (m : JSMap.t nat) (k : string) : nat :=
  match JSMap.get m k with Some n => n | None => 0 end.

(** [m[k] = (m[k] || 0) + 1]. *)
Definition increment (m : JSMap.t nat) (k : string) : JSMap.t nat :=
  JSMap.set m k (countOf m k + 1).

Definition edgeTypeName (t : EdgeType) : string :=
  match t with
  | Imports => "imports"
  | Calls => "calls"
  | Extends => "extends"
  end.

(** [Array.from(codeGraph.edges.values()).reduce((sum, set) => sum + set.size, 0)]. *)
Definition edgeTotal (g : CodeGraph) : nat :=
  fold_left (fun sum set => sum + List.length set) (JSMap.values (edges g)) 0.

(** The reply of ['get_graph_stats']. *)
Record GraphStats := mkGraphStats {
  totalNodes : nat;
  totalEdges : nat;
  gs_fileCount : nat;
  nodeTypes : JSMap.t nat;
  edgeTypes : JSMap.t nat
}.

Definition get_graph_stats (g : CodeGraph) : GraphStats :=
  let typeCount :=
    fold_left (fun typeCount node => increment typeCount (typeName (sym_type node)))
      (JSMap.values (nodes g)) JSMap.empty in
  let edgeTypeCount :=
    fold_left
      (fun edgeTypeCount edgeSet =>
         fold_left
           (fun edgeTypeCount edge => increment edgeTypeCount (edgeTypeName (out_type edge)))
           edgeSet edgeTypeCount)
      (JSMap.values (edges g)) JSMap.empty in
  {| totalNodes := List.length (nodes g);
     totalEdges := edgeTotal g;
     gs_fileCount := List.length (fileIndex g);
     nodeTypes := typeCount;
     edgeTypes := edgeTypeCount |}.

(** The comparator [(a, b) => (a.line || 0) - (b.line || 0)]. *)
Definition byLine (a b : string * Symbol) : Z :=
  (Z.of_nat (sym_line (snd a)) - Z.of_nat (sym_line (snd b)))%Z.

(** The loop of ['get_file_symbols'] over the ids of the file. *)
Definition lookupSymbols (g : CodeGraph) (nodeIds : JSSet.t) : list (string * Symbol) :=
  fold_left
    (fun symbols id =>
       match JSMap.get (nodes g) id with
       | Some node => symbols ++ [(id, node)]
       | None => symbols
       end)
    nodeIds [].

(** The field [symbols] of the reply of ['get_file_symbols']; [symbolCount]
    is its length. *)
Definition get_file_symbols (g : CodeGraph) (filepath : string) : list (string * Symbol) :=
  let nodeIds := getOrEmpty (fileIndex g) filepath in
  sortBy byLine (lookupSymbols g nodeIds).

(** [depth = n] in the destructuring of [args]: the handlers pass the number
    they are given on, unchecked. *)
Definition depthOr (default : Z) (depth : option Z) : Z :=
  match depth with Some d => d | None => default end.

Definition get_dependencies (g : CodeGraph) (symbolId : string) (depth : option Z)
    : list Connection :=
  getConnections g symbolId Outgoing (depthOr 1%Z depth).

Definition get_dependents (g : CodeGraph) (symbolId : string) (depth : option Z)
    : list Connection :=
  getConnections g symbolId Incoming (depthOr 1%Z depth).

(** The reply of ['find_symbol']. *)
Record FindReply := mkFindReply {
  fr_type : string;
  fr_count : nat;
  fr_symbols : list SearchHit
}.



Inductive LoadReply :=
| NoCachedGraph
| GraphLoaded (nodeCount edgeCount : nat) (meta : Metadata).

Section Handlers.
Variable path_dirname : string -> string.
Variable path_join : string -> string -> string.
Variable md5hex : string -> string.
Variable JSON_parse : string -> option Document.
Variable JSON_stringify : Document -> string.
Variable toLowerCase : string -> string.

Definition find_symbol (g : CodeGraph) (query : string) (type : option string) : FindReply :=
  let results := searchNodes toLowerCase g query type in
  {| fr_type := if truthy type then match type with Some t => t | None => "all" end else "all";
     fr_count := List.length results;
     fr_symbols := firstn 50 results |}.



Definition load_cached_graph (projectPath : string) (s : Server) : LoadReply * Server :=
  match loadGraph md5hex JSON_parse projectPath s with
  | (false, s') => (NoCachedGraph, s')
  | (true, s') =>
      (GraphLoaded (List.length (nodes (codeGraph s'))) (edgeTotal (codeGraph s'))
         (metadata (codeGraph s')), s')
  end.
End Handlers.

(** *** Inheritance and import resolution *)

(** The test of the inheritance-resolution scan. *)
Definition isClassNamed (name : string) (other : Symbol) : bool :=
  isType TClass other && String.eqb (sym_name other) name.

Definition isExtendsEdge (e : EdgeDoc) : bool := EdgeType_eqb (ed_type e) Extends.
Definition isImportsEdge (e : EdgeDoc) : bool := EdgeType_eqb (ed_type e) Imports.

(** The [extends] edges one symbol fact [c] of [file] gives rise to: none
    unless it is a class with a superclass name, else one per class
    declaration of [fileData] of that name. *)
Definition extendsEdgesFor (fileData : JSMap.t Parsed) (file : string) (c : Symbol)
    : list EdgeDoc :=
  match sym_extends c with
  | Some parent =>
      if isType TClass c && truthy (Some parent) then
        map (fun target => mkEdgeDoc (nodeIdOf file (sym_name c) (sym_line c)) target Extends)
            (matchingDeclarations fileData (isClassNamed parent))
      else []
  | None => []
  end.

Definition expectedExtendsEdges (fileData : JSMap.t Parsed) : list EdgeDoc :=
  flat_map
    (fun '(file, data) => flat_map (extendsEdgesFor fileData file) (symbols data))
    fileData.

(** The test of "Find exported symbol". *)
Definition importMatches (imp : ImportFact) (targetData : Parsed) (symbol : Symbol) : bool :=
  String.eqb (sym_name symbol) (imp_local imp)
  || (String.eqb (imp_imported imp) "default" && hasDefaultExport targetData).

(** The [imports] edges one import fact of [file] gives rise to, [resolved]
    being the path its source resolves to: none unless the import is
    relative and one of its candidates is a parsed file; else, in the first
    such file, one per symbol fact that passes the test and whose id is a
    node of [g]. *)
Definition importEdgesFor (g : CodeGraph) (fileData : JSMap.t Parsed) (resolved : string)
    (file : string) (imp : ImportFact) : list EdgeDoc :=
  if startsWith (imp_source imp) "." then
    match find (fun c => JSMap.has fileData c) (map stripDotSlash (possibleFiles resolved)) with
    | Some normalizedPath =>
        match JSMap.get fileData normalizedPath with
        | Some targetData =>
            map (fun target => mkEdgeDoc (importSiteId file (imp_line imp)) target Imports)
                (filter (JSMap.has (nodes g))
                   (map (fun s => nodeIdOf normalizedPath (sym_name s) (sym_line s))
                      (filter (importMatches imp targetData) (symbols targetData))))
        | None => []
        end
    | None => []
    end
  else [].

(** *** Declarations of the input of a build *)

(** [sym] is a declaration (a symbol fact that is not a call) of the parsed
    file [file] of the input, and [id] is the node id made for it. *)
Definition declares (files : list (string * option Parsed)) (id : string) (sym : Symbol)
    : Prop :=
  exists file parsed,
    In (file, Some parsed) files /\ In sym (symbols parsed) /\
    isType TCall sym = false /\ id = nodeIdOf file (sym_name sym) (sym_line sym).

Section ExpectedImports.
Variable path_dirname : string -> string.
Variable path_join : string -> string -> string.

(** The [imports] edges of a build, import fact by import fact. *)
Definition expectedImportEdges (g : CodeGraph) (fileData : JSMap.t Parsed) : list EdgeDoc :=
  flat_map
    (fun '(file, data) =>
       flat_map
         (fun imp =>
            importEdgesFor g fileData
              (resolveSource path_dirname path_join file (imp_source imp)) file imp)
         (imports data))
    fileData.
End ExpectedImports.

(** *** Runs of the traversal *)

(** What a run of [traverse] from the walk [w] to the walk [w'] adds: the
    ids [ex] it expands and, up to order, the records at those ids. *)
Definition adds (g : CodeGraph) (direction : Direction) (w w' : Walk) (ex : list string)
    : Prop :=
  expanded w' = expanded w ++ ex /\
  Permutation (result w') (result w ++ flat_map (recordsAt g direction) ex).

(** The record of an edge of the store, as [getConnections] pushes it from
    either end. *)
Definition recordOf (g : CodeGraph) (e : EdgeDoc) : Connection :=
  {| conn_from := ed_from e;
     conn_to := ed_to e;
     conn_type := ed_type e;
     fromData := JSMap.get (nodes g) (ed_from e);
     toData := JSMap.get (nodes g) (ed_to e) |}.

(** *** File symbols and statistics *)

(** The order of the reply of ['get_file_symbols']. *)
Definition lineLe (a b : string * Symbol) : Prop := sym_line (snd a) <= sym_line (snd b).

(** Every node is in the file index, under the file its data names. *)
Definition indexed (g : CodeGraph) : Prop :=
  forall id data,
    JSMap.get (nodes g) id = Some data ->
    In id (getOrEmpty (fileIndex g) (sym_file data)).

(** The sum of the counts kept in an object. *)
Definition countSum (m : JSMap.t nat) : nat := list_sum (JSMap.values m).

(** *** Sequences of cache operations *)

(** The cache directory holds a file of that name that cannot be read. *)
Definition unreadableEntry (d : CacheDir) (name : string) : bool :=
  match d with
  | Some files =>
      match JSMap.get files name with
      | Some f => negb (readable f)
      | None => false
      end
  | None => false
  end.

(** The entry that [listCachedGraphs] pushes for the file [file] whose text
    parses to [graph]. *)
Definition summaryOf (file : string) (graph : Document) : CachedSummary :=
  {| cs_file := file;
     cs_projectPath :=
       match doc_metadata graph with
       | Some m => projectPath m
       | None => None
       end;
     cs_createdAt :=
       match doc_metadata graph with
       | Some m => createdAt m
       | None => None
       end;
     cs_updatedAt :=
       match doc_metadata graph with
       | Some m => updatedAt m
       | None => None
       end;
     cs_nodeCount := lengthOr0 (doc_nodes graph);
     cs_edgeCount := lengthOr0 (doc_edges graph) |}.

Section Sequences.
Variable path_dirname : string -> string.
Variable path_join : string -> string -> string.
Variable md5hex : string -> string.
Variable JSON_parse : string -> option Document.
Variable JSON_stringify : Document -> string.

(** The server after [saveGraph(projectPath)]. *)
Definition afterSave (now projectPath : string) (s : Server) : Server :=
  snd (saveGraph path_join md5hex JSON_stringify now projectPath s).


(** The document that [saveGraph] writes can be parsed back. *)
Definition parsesBack (g : CodeGraph) : Prop :=
  JSON_parse (JSON_stringify (toJSON g)) = Some (toJSON g).
End Sequences.

(** *** A cache scenario *)

Module CacheScenario.
(** A printer and a parser that agree on the store of scenario A once it is
    saved for the project [/project]. *)
Definition tagPrinter (d : Document) : string := "saved".

Definition serverA : Server :=
  {| codeGraph := Scenario.build Scenario.filesA; dbPath := "./db"; cacheDir := None |}.

Definition tagParser (data : string) : option Document :=
  if String.eqb data "saved"
  then Some (toJSON (codeGraph (afterSave Posix.join Scenario.digest tagPrinter
                                  "t3" "/project" serverA)))
  else None.

(** The text [{ nodes: 5 }] with its key quoted as JSON wants it, a parser
    that reads it, and a server that holds it as the cache entry of the
    project [/odd]. *)
Definition quoted (s : string) : string :=
  (String (ascii_of_nat 34) s ++ String (ascii_of_nat 34) "")%string.

Definition numberText : string := ("{" ++ quoted "nodes" ++ ":5}")%string.

Definition numberParser (data : string) : option Document :=
  if String.eqb data numberText
  then Some (mkDocument None None NotIterable Missing Missing)
  else None.

Definition numberCache : Server :=
  {| codeGraph := Scenario.build Scenario.filesA;
     dbPath := "./db";
     cacheDir := Some [("graph_/odd.json", mkCacheFile numberText true true)] |}.
End CacheScenario.

(** The store as [saveGraph] leaves it: the hash, the update time and the
    project path are set. *)
Definition stamped (md5hex : string -> string) (now projectPath : string) (g : CodeGraph)
    : CodeGraph :=
  {| nodes := nodes g;
     edges := edges g;
     reverseEdges := reverseEdges g;
     fileIndex := fileIndex g;
     projectHash := Some (md5hex projectPath);
     metadata := {| createdAt := createdAt (metadata g);
                    updatedAt := Some now;
                    projectPath := Some projectPath |} |}.

(** What the loop of [listCachedGraphs] pushes for one directory entry:
    nothing unless the name has the shape [graph_*.json] and the file is
    read and parsed. *)
Definition listedAs (JSON_parse : string -> option Document) (d : CacheDir) (file : string)
    : list CachedSummary :=
  if startsWith file "graph_" && endsWith file ".json" then
    match fs_readFile d file with
    | Returned data =>
        match JSON_parse data with
        | Some graph => [summaryOf file graph]
        | None => []
        end
    | Thrown _ => []
    end
  else [].

(** The directory entries that [listCachedGraphs] reports. *)
Definition listable (JSON_parse : string -> option Document) (d : CacheDir) (file : string)
    : bool :=
  startsWith file "graph_" && endsWith file ".json" &&
  match fs_readFile d file with
  | Returned data =>
      match JSON_parse data with
      | Some _ => true
      | None => false
      end
  | Thrown _ => false
  end.

(** *** The call graph reply *)



(** * Properties *)

(** ** Maps and sets *)

Module JSMapFacts.
Section Facts.
Context {V : Type}.
Implicit Types (m : JSMap.t V) (k : string) (v : V).

Lemma has_get m k : JSMap.has m k = true <-> exists v, JSMap.get m k = Some v.
Proof.
  unfold JSMap.has. destruct (JSMap.get m k) as [v|]; split; intros H.
  - now exists v.
  - reflexivity.
  - discriminate.
  - destruct H as [v H]. discriminate.
Qed.

Lemma has_false_get m k : JSMap.has m k = false <-> JSMap.get m k = None.
Proof.
  unfold JSMap.has. destruct (JSMap.get m k); split; intros H; congruence.
Qed.

Lemma get_In m k v : JSMap.get m k = Some v -> In (k, v) m.
Proof.
  induction m as [|[k' v'] m IH]; simpl; [discriminate|].
  destruct (String.eqb_spec k k') as [->|Hne].
  - intros [= ->]. now left.
  - intros H. right. now apply IH.
Qed.

Lemma has_keys m k : JSMap.has m k = true <-> In k (JSMap.keys m).
Proof.
  unfold JSMap.has, JSMap.keys.
  induction m as [|[k' v'] m IH]; simpl.
  - split; [discriminate | contradiction].
  - destruct (String.eqb_spec k k') as [->|Hne].
    + split; auto.
    + rewrite IH. split; [auto | intros [H|H]; [congruence | exact H]].
Qed.

Lemma get_set_eq m k v : JSMap.get (JSMap.set m k v) k = Some v.
Proof.
  induction m as [|[k' v'] m IH]; simpl.
  - now rewrite String.eqb_refl.
  - destruct (String.eqb_spec k k') as [->|Hne]; simpl.
    + now rewrite String.eqb_refl.
    + destruct (String.eqb_spec k k'); [contradiction | exact IH].
Qed.

Lemma get_set_neq m k k' v : k <> k' -> JSMap.get (JSMap.set m k v) k' = JSMap.get m k'.
Proof.
  intros Hne. induction m as [|[k0 v0] m IH]; simpl.
  - destruct (String.eqb_spec k' k); [congruence | reflexivity].
  - destruct (String.eqb_spec k k0) as [->|Hne0]; simpl.
    + destruct (String.eqb_spec k' k0); [congruence | reflexivity].
    + destruct (String.eqb_spec k' k0); [reflexivity | exact IH].
Qed.

Lemma has_set m k k' v : JSMap.has (JSMap.set m k v) k' = String.eqb k k' || JSMap.has m k'.
Proof.
  unfold JSMap.has. destruct (String.eqb_spec k k') as [->|Hne].
  - now rewrite get_set_eq.
  - now rewrite get_set_neq.
Qed.

Lemma In_set m k v e : In e (JSMap.set m k v) -> e = (k, v) \/ In e m.
Proof.
  induction m as [|[k' v'] m IH]; simpl.
  - intros [<-|[]]. now left.
  - destruct (String.eqb_spec k k') as [->|Hne]; simpl.
    + intros [<-|H]; auto.
    + intros [<-|H]; auto. destruct (IH H); auto.
Qed.

Lemma keys_set_absent m k v :
  JSMap.has m k = false -> JSMap.set m k v = m ++ [(k, v)].
Proof.
  unfold JSMap.has.
  induction m as [|[k' v'] m IH]; simpl; [reflexivity|].
  destruct (String.eqb_spec k k') as [->|Hne]; [discriminate|].
  intros H. now rewrite IH.
Qed.
End Facts.
End JSMapFacts.

Module JSSetFacts.
Lemma has_In s x : JSSet.has s x = true <-> In x s.
Proof.
  unfold JSSet.has. rewrite existsb_exists. split.
  - intros [y [Hy Heq]]. apply String.eqb_eq in Heq. now subst.
  - intros H. exists x. split; [exact H | apply String.eqb_refl].
Qed.

Lemma has_false s x : JSSet.has s x = false <-> ~ In x s.
Proof.
  rewrite <- has_In. destruct (JSSet.has s x); split; intros; congruence.
Qed.

Lemma In_add s x y : In y (JSSet.add s x) <-> y = x \/ In y s.
Proof.
  unfold JSSet.add. destruct (JSSet.has s x) eqn:H.
  - apply has_In in H. split; [auto | intros [->|]; auto].
  - rewrite in_app_iff. simpl. split.
    + intros [Hy|[<-|[]]]; auto.
    + intros [->|Hy]; auto.
Qed.

Lemma NoDup_add s x : NoDup s -> NoDup (JSSet.add s x).
Proof.
  intros Hnd. unfold JSSet.add. destruct (JSSet.has s x) eqn:H; [exact Hnd|].
  apply has_false in H.
  apply NoDup_rev in Hnd. rewrite <- (rev_involutive (s ++ [x])).
  apply NoDup_rev. rewrite rev_app_distr. simpl. constructor; [|exact Hnd].
  now rewrite <- in_rev.
Qed.

Lemma of_list_app s l :
  NoDup (s ++ l) -> fold_left JSSet.add l s = s ++ l.
Proof.
  revert s. induction l as [|x l IH]; intros s Hnd; simpl.
  - now rewrite app_nil_r.
  - assert (Hx : JSSet.has s x = false).
    { apply has_false. apply NoDup_remove_2 in Hnd.
      intros Hin. apply Hnd, in_or_app. now left. }
    unfold JSSet.add at 2. rewrite Hx.
    rewrite IH; rewrite <- app_assoc; [reflexivity | exact Hnd].
Qed.

Lemma of_list_id l : NoDup l -> JSSet.of_list l = l.
Proof. intros H. unfold JSSet.of_list. now rewrite of_list_app. Qed.
End JSSetFacts.

(** ** Edge sets *)

Lemma fold_left_inv {A B : Type} (P : A -> Prop) (f : A -> B -> A) (l : list B) (a : A) :
  P a -> (forall a b, In b l -> P a -> P (f a b)) -> P (fold_left f l a).
Proof.
  revert a. induction l as [|b l IH]; intros a Ha Hstep; simpl; [exact Ha|].
  apply IH.
  - apply Hstep; [now left | exact Ha].
  - intros a' b' Hin. apply Hstep. now right.
Qed.

(** A property established by the step at [b] and kept by every step holds
    after the loop, given an invariant [I] of the loop. *)
Lemma fold_left_hit {A B : Type} (I P : A -> Prop) (f : A -> B -> A) (l : list B)
    (b : B) (a : A) :
  I a -> (forall a b', I a -> I (f a b')) ->
  (forall a, I a -> P (f a b)) -> (forall a b', I a -> P a -> P (f a b')) ->
  In b l -> P (fold_left f l a).
Proof.
  intros Ha HI Hb HP. revert a Ha.
  induction l as [|x l IH]; intros a Ha Hin; simpl; [contradiction|].
  destruct Hin as [->|Hin].
  - apply (fold_left_inv (fun a => I a /\ P a)).
    + split; [now apply HI | now apply Hb].
    + intros a' b' _ [Hi Hp]. split; [now apply HI | now apply HP].
  - apply IH; [now apply HI | exact Hin].
Qed.

Section EdgeSets.
Context {V : Type}.
Implicit Types (m : JSMap.t (list V)) (k : string) (x : V).

Lemma addTo_ensure_nil k x : addTo (ensureKey ([] : JSMap.t (list V)) k) k x = [(k, [x])].
Proof.
  unfold addTo, ensureKey, getOrEmpty, JSMap.has. simpl.
  now rewrite String.eqb_refl.
Qed.

Lemma addTo_ensure_here k es m x :
  addTo (ensureKey ((k, es) :: m) k) k x = (k, es ++ [x]) :: m.
Proof.
  unfold addTo, ensureKey, getOrEmpty, JSMap.has. simpl.
  rewrite String.eqb_refl. simpl. now rewrite String.eqb_refl.
Qed.

Lemma addTo_ensure_later k k' es m x :
  k <> k' ->
  addTo (ensureKey ((k', es) :: m) k) k x = (k', es) :: addTo (ensureKey m k) k x.
Proof.
  intros Hne. apply String.eqb_neq in Hne.
  unfold addTo, ensureKey, getOrEmpty, JSMap.has. simpl. rewrite Hne.
  destruct (JSMap.get m k) as [es'|]; simpl; now rewrite Hne.
Qed.

End EdgeSets.

Section Flatten.
Context {V : Type} (h : string -> V -> EdgeDoc).

Lemma flatten_addTo (m : JSMap.t (list V)) k x :
  Permutation (flatten h (addTo (ensureKey m k) k x)) (flatten h m ++ [h k x]).
Proof.
  unfold flatten. induction m as [|[k' es] m IH].
  - rewrite addTo_ensure_nil. reflexivity.
  - destruct (String.eqb_spec k k') as [->|Hne].
    + rewrite addTo_ensure_here. simpl.
      rewrite map_app. simpl. rewrite <- !app_assoc.
      apply Permutation_app_head. apply Permutation_app_comm.
    + rewrite addTo_ensure_later by exact Hne. simpl.
      rewrite <- app_assoc. now apply Permutation_app_head.
Qed.

Lemma flatten_ensureKey (m : JSMap.t (list V)) k : flatten h (ensureKey m k) = flatten h m.
Proof.
  unfold ensureKey. destruct (JSMap.has m k) eqn:H; [reflexivity|].
  rewrite JSMapFacts.keys_set_absent by exact H.
  unfold flatten. rewrite flat_map_app. simpl. now rewrite app_nil_r.
Qed.
End Flatten.

Lemma edgesArray_flatten m : edgesArray m = flatten forwardDoc m.
Proof.
  unfold edgesArray, flatten.
  assert (Hinner : forall from es acc,
    fold_left (fun acc edge => acc ++ [mkEdgeDoc from (out_to edge) (out_type edge)]) es acc
    = acc ++ map (forwardDoc from) es).
  { intros from es. induction es as [|e es IH]; intros acc; simpl.
    - now rewrite app_nil_r.
    - rewrite IH. now rewrite <- app_assoc. }
  assert (Houter : forall acc,
    fold_left
      (fun acc '(from, es) =>
         fold_left (fun acc edge => acc ++ [mkEdgeDoc from (out_to edge) (out_type edge)]) es acc)
      m acc = acc ++ flat_map (fun entry => map (forwardDoc (fst entry)) (snd entry)) m).
  { induction m as [|[from es] m IH]; intros acc; simpl.
    - now rewrite app_nil_r.
    - rewrite IH, Hinner. now rewrite <- app_assoc. }
  apply Houter.
Qed.

Lemma edgesArray_ensureKey m k : edgesArray (ensureKey m k) = edgesArray m.
Proof. rewrite !edgesArray_flatten. apply flatten_ensureKey. Qed.

Lemma allEdges_addEdge g from to type :
  Permutation (allEdges (addEdge g from to type)) (allEdges g ++ [mkEdgeDoc from to type]).
Proof.
  unfold allEdges. simpl. rewrite !edgesArray_flatten.
  apply (flatten_addTo forwardDoc (edges g) from (mkOut to type)).
Qed.

Lemma allReverseEdges_addEdge g from to type :
  Permutation (allReverseEdges (addEdge g from to type))
              (allReverseEdges g ++ [mkEdgeDoc from to type]).
Proof.
  unfold allReverseEdges. simpl.
  apply (flatten_addTo reverseDoc (reverseEdges g) to (mkIn from type)).
Qed.

(** [addNode] and [addEdge] keep the reverse index in step with the forward
    edges. *)
Lemma mirrored_addEdge g from to type : mirrored g -> mirrored (addEdge g from to type).
Proof.
  unfold mirrored. intros H.
  rewrite allReverseEdges_addEdge, allEdges_addEdge. now apply Permutation_app_tail.
Qed.

Lemma In_allEdges_addEdge g from to type e :
  In e (allEdges (addEdge g from to type)) <-> In e (allEdges g) \/ e = mkEdgeDoc from to type.
Proof.
  split.
  - intros H. apply (Permutation_in _ (allEdges_addEdge g from to type)) in H.
    apply in_app_or in H. destruct H as [H|[<-|[]]]; auto.
  - intros H. apply (Permutation_in _ (Permutation_sym (allEdges_addEdge g from to type))).
    apply in_or_app. destruct H as [H| ->]; [now left | right; now left].
Qed.

Lemma allEdges_addNode g id data : allEdges (addNode g id data) = allEdges g.
Proof. unfold allEdges. simpl. apply edgesArray_ensureKey. Qed.

Lemma mirrored_addNode g id data : mirrored g -> mirrored (addNode g id data).
Proof.
  unfold mirrored, allReverseEdges. simpl.
  now rewrite flatten_ensureKey, allEdges_addNode.
Qed.

Lemma isNode_addNode g id data id' : isNode g id' -> isNode (addNode g id data) id'.
Proof.
  unfold isNode. simpl. intros H. rewrite JSMapFacts.has_set, H. apply orb_true_r.
Qed.

Lemma isNode_addNode_self g id data : isNode (addNode g id data) id.
Proof.
  unfold isNode. simpl. now rewrite JSMapFacts.has_set, String.eqb_refl.
Qed.

(** ** Growth of the store during the relationship phase *)

Lemma grownBy_nodes Q g g' : grownBy Q g g' -> nodes g' = nodes g.
Proof. induction 1; simpl; auto. Qed.

Lemma grownBy_edges Q g g' e :
  grownBy Q g g' -> In e (allEdges g') -> In e (allEdges g) \/ Q e.
Proof.
  induction 1; intros Hin.
  - now left.
  - apply In_allEdges_addEdge in Hin. destruct Hin as [Hin| ->]; auto.
Qed.

Lemma grownBy_fold {B : Type} Q g (f : CodeGraph -> B -> CodeGraph) (l : list B) g0 :
  grownBy Q g g0 ->
  (forall a b, In b l -> grownBy Q g a -> grownBy Q g (f a b)) ->
  grownBy Q g (fold_left f l g0).
Proof. intros H0 Hstep. now apply (fold_left_inv (grownBy Q g)). Qed.

(** ** The first loop of the build: nodes *)

Lemma addSymbols_allEdges file syms g : allEdges (addSymbols file syms g) = allEdges g.
Proof.
  unfold addSymbols. apply (fold_left_inv (fun a => allEdges a = allEdges g)); [reflexivity|].
  intros a s _ Ha. destruct (negb (isType TCall s)); [|exact Ha].
  now rewrite allEdges_addNode.
Qed.

Lemma addSymbols_keeps file syms g id : isNode g id -> isNode (addSymbols file syms g) id.
Proof.
  intros H. unfold addSymbols. apply (fold_left_inv (fun a => isNode a id)); [exact H|].
  intros a s _ Ha. destruct (negb (isType TCall s)); [|exact Ha].
  now apply isNode_addNode.
Qed.

Lemma addSymbols_adds file syms g s :
  In s syms -> isType TCall s = false ->
  isNode (addSymbols file syms g) (nodeIdOf file (sym_name s) (sym_line s)).
Proof.
  intros Hin Hcall. unfold addSymbols.
  apply (fold_left_hit (fun _ => True)
           (fun a => isNode a (nodeIdOf file (sym_name s) (sym_line s)))
           _ syms s g); auto.
  - intros a _. rewrite Hcall. simpl. apply isNode_addNode_self.
  - intros a s' _ Ha. destruct (negb (isType TCall s')); [|exact Ha].
    now apply isNode_addNode.
Qed.

Lemma parseAll_spec files g0 :
  let r := parseAll files g0 in
  declared (fst r) (snd r) /\ allEdges (snd r) = allEdges g0.
Proof.
  unfold parseAll.
  apply (fold_left_inv
           (fun r : JSMap.t Parsed * CodeGraph =>
              declared (fst r) (snd r) /\ allEdges (snd r) = allEdges g0)).
  - split; [|reflexivity]. intros file data s [].
  - intros [fd g] [file [parsed|]] _ [Hdecl Hedges]; simpl in *; [|now split].
    split.
    + intros f d s Hin Hs Hcall.
      apply JSMapFacts.In_set in Hin. destruct Hin as [[= -> ->]|Hin].
      * now apply addSymbols_adds.
      * apply addSymbols_keeps. now apply (Hdecl f d s).
    + now rewrite addSymbols_allEdges.
Qed.

(** ** The second loop of the build: edges *)

Lemma scanDeclarations_grown Q g0 fileData wanted fromId type g :
  (forall t, isNode g0 t -> Q (mkEdgeDoc fromId t type)) ->
  grownBy Q g0 g -> grownBy Q g0 (scanDeclarations fileData wanted fromId type g).
Proof.
  intros HQ Hg. unfold scanDeclarations.
  apply grownBy_fold; [exact Hg|].
  intros a [otherFile otherData] _ Ha.
  apply grownBy_fold; [exact Ha|].
  intros b otherSymbol _ Hb.
  destruct (wanted otherSymbol); [|exact Hb].
  destruct (JSMap.has (nodes b) _) eqn:Hhas; [|exact Hb].
  constructor; [exact Hb|]. apply HQ.
  unfold isNode. now rewrite <- (grownBy_nodes _ _ _ Hb).
Qed.

Lemma linkImport_grown Q g0 file imp normalizedPath targetData g :
  (forall t, isNode g0 t -> Q (mkEdgeDoc (importSiteId file (imp_line imp)) t Imports)) ->
  grownBy Q g0 g -> grownBy Q g0 (linkImport file imp normalizedPath targetData g).
Proof.
  intros HQ Hg. unfold linkImport.
  apply grownBy_fold; [exact Hg|].
  intros b symbol _ Hb.
  destruct (_ || _); [|exact Hb].
  destruct (JSMap.has (nodes b) _) eqn:Hhas; [|exact Hb].
  constructor; [exact Hb|]. apply HQ.
  unfold isNode. now rewrite <- (grownBy_nodes _ _ _ Hb).
Qed.

Lemma tryCandidates_grown Q g0 fileData file imp candidates g :
  (forall t, isNode g0 t -> Q (mkEdgeDoc (importSiteId file (imp_line imp)) t Imports)) ->
  grownBy Q g0 g -> grownBy Q g0 (tryCandidates fileData file imp candidates g).
Proof.
  intros HQ Hg. induction candidates as [|c rest IH]; simpl; [exact Hg|].
  destruct (JSMap.get fileData (stripDotSlash c)); [|exact IH].
  now apply linkImport_grown.
Qed.

Section ResolverFacts.
Variable path_dirname : string -> string.
Variable path_join : string -> string -> string.

Lemma connectImport_grown Q g0 fileData file imp g :
  (forall t, isNode g0 t -> Q (mkEdgeDoc (importSiteId file (imp_line imp)) t Imports)) ->
  grownBy Q g0 g ->
  grownBy Q g0 (connectImport path_dirname path_join fileData file imp g).
Proof.
  intros HQ Hg. unfold connectImport.
  destruct (startsWith _ _); [|exact Hg].
  now apply tryCandidates_grown.
Qed.

Lemma relateFile_grown g0 fileData file data g :
  declared fileData g0 -> In (file, data) fileData ->
  grownBy (builtEdge g0) g0 g ->
  grownBy (builtEdge g0) g0 (relateFile path_dirname path_join fileData g (file, data)).
Proof.
  intros Hdecl Hin Hg. unfold relateFile.
  apply grownBy_fold; [apply grownBy_fold; [apply grownBy_fold|]|]; [exact Hg|..].
  - intros a imp _ Ha. apply connectImport_grown; [|exact Ha].
    intros t Ht. split; [exact Ht|]. simpl. now exists file, (imp_line imp).
  - intros a symbol _ Ha. destruct (isType TCall symbol); [|exact Ha].
    apply scanDeclarations_grown; [|exact Ha].
    intros t Ht. split; [exact Ht|]. simpl. now exists file, (sym_line symbol).
  - intros a symbol Hs Ha.
    destruct (isType TClass symbol) eqn:Hclass; simpl; [|exact Ha].
    destruct (sym_extends symbol) as [parent|]; simpl; [|exact Ha].
    destruct (negb _); [|exact Ha].
    apply scanDeclarations_grown; [|exact Ha].
    intros t Ht. split; [exact Ht|]. simpl.
    apply (Hdecl file data symbol Hin Hs).
    unfold isType in *. destruct (sym_type symbol); simpl in *; congruence.
Qed.

(** The store after both loops: the nodes of the first loop, and edges that
    all have the shape [builtEdge]. *)
Lemma populate_grown now files :
  let r := parseAll files (newCodeGraph now) in
  grownBy (builtEdge (snd r)) (snd r) (populate path_dirname path_join now files).
Proof.
  unfold populate. pose proof (parseAll_spec files (newCodeGraph now)) as [Hdecl _].
  destruct (parseAll files (newCodeGraph now)) as [fd g]. simpl in *.
  apply grownBy_fold; [constructor|].
  intros a [file data] Hin Ha. now apply relateFile_grown.
Qed.

Lemma populate_builtEdge now files e :
  In e (allEdges (populate path_dirname path_join now files)) ->
  builtEdge (populate path_dirname path_join now files) e.
Proof.
  intros Hin. pose proof (populate_grown now files) as Hgrown.
  pose proof (parseAll_spec files (newCodeGraph now)) as [_ Hedges].
  simpl in *.
  destruct (grownBy_edges _ _ _ _ Hgrown Hin) as [Hold|Hbuilt].
  - rewrite Hedges in Hold. destruct Hold.
  - unfold builtEdge, isNode in *.
    now rewrite (grownBy_nodes _ _ _ Hgrown).
Qed.
End ResolverFacts.

(** ** The store after a build *)

Section BuildFacts.
Variable path_dirname : string -> string.
Variable path_join : string -> string -> string.
Variable md5hex : string -> string.
Variable JSON_stringify : Document -> string.

Lemma builtStore_nodes now0 now1 rootPath files s :
  nodes (builtStore path_dirname path_join md5hex JSON_stringify now0 now1 rootPath files s)
  = nodes (populate path_dirname path_join now0 files).
Proof.
  unfold builtStore, buildCodeGraph, saveGraph, ensureDbDirectory, withGraph, withDir.
  unfold fs_writeFile. simpl.
  destruct (cacheDir s) as [dir|]; simpl; [|reflexivity].
  destruct (JSMap.get dir _); reflexivity.
Qed.

Lemma builtStore_edges now0 now1 rootPath files s :
  allEdges (builtStore path_dirname path_join md5hex JSON_stringify now0 now1 rootPath files s)
  = allEdges (populate path_dirname path_join now0 files).
Proof.
  unfold builtStore, buildCodeGraph, saveGraph, ensureDbDirectory, withGraph, withDir.
  unfold fs_writeFile. simpl.
  destruct (cacheDir s) as [dir|]; simpl; [|reflexivity].
  destruct (JSMap.get dir _); reflexivity.
Qed.

Lemma builtStore_builtEdge now0 now1 rootPath files s e :
  In e (allEdges (builtStore path_dirname path_join md5hex JSON_stringify
                    now0 now1 rootPath files s)) ->
  builtEdge (builtStore path_dirname path_join md5hex JSON_stringify
               now0 now1 rootPath files s) e.
Proof.
  rewrite builtStore_edges. intros Hin.
  apply populate_builtEdge in Hin.
  unfold builtEdge, isNode in *. now rewrite builtStore_nodes.
Qed.
End BuildFacts.

(** C5.  After a build, the target id of every edge of the store is a key of
    the node map. *)
Theorem build_edge_targets_are_nodes :
  forall path_dirname path_join md5hex JSON_stringify now0 now1 rootPath files s e,
    In e (allEdges (builtStore path_dirname path_join md5hex JSON_stringify
                      now0 now1 rootPath files s)) ->
    isNode (builtStore path_dirname path_join md5hex JSON_stringify
              now0 now1 rootPath files s) (ed_to e).
Proof.
  intros. now apply builtStore_builtEdge.
Qed.

Lemma build_edge_targets_are_nodes_witness :
  In Scenario.callEdgeA (allEdges (Scenario.build Scenario.filesA)) /\
  isNode (Scenario.build Scenario.filesA) "a.js:foo:1".
Proof.
  assert (H : In Scenario.callEdgeA (allEdges (Scenario.build Scenario.filesA))).
  { vm_compute. right. left. reflexivity. }
  split; [exact H|].
  exact (build_edge_targets_are_nodes _ _ _ _ _ _ _ _ _ _ H).
Defined.

(** C2, as stated, fails: in scenario A the source of the [calls] edge is the
    call-site id [b.js:2], which is not a key of the node map. *)
Lemma build_edge_sources_counterexample :
  In Scenario.callEdgeA (allEdges (Scenario.build Scenario.filesA)) /\
  ~ (isNode (Scenario.build Scenario.filesA) (ed_from Scenario.callEdgeA) /\
     isNode (Scenario.build Scenario.filesA) (ed_to Scenario.callEdgeA)).
Proof.
  split.
  - vm_compute. right. left. reflexivity.
  - intros [Hfrom _]. vm_compute in Hfrom. discriminate.
Qed.

(** C2, amended.  After a build, every edge of the store has a target that is
    a key of the node map; the source of an [extends] edge is a key of the
    node map too, the source of an [imports] edge is an import-site id
    [file:import:line] and the source of a [calls] edge is a call-site id
    [file:line]. *)
Theorem build_edges_shape :
  forall path_dirname path_join md5hex JSON_stringify now0 now1 rootPath files s e,
    In e (allEdges (builtStore path_dirname path_join md5hex JSON_stringify
                      now0 now1 rootPath files s)) ->
    isNode (builtStore path_dirname path_join md5hex JSON_stringify
              now0 now1 rootPath files s) (ed_to e) /\
    match ed_type e with
    | Extends =>
        isNode (builtStore path_dirname path_join md5hex JSON_stringify
                  now0 now1 rootPath files s) (ed_from e)
    | Imports => exists file line, ed_from e = importSiteId file line
    | Calls => exists file line, ed_from e = callSiteId file line
    end.
Proof.
  intros. now apply builtStore_builtEdge.
Qed.

Lemma build_edges_shape_witness :
  In Scenario.extendsEdgeB (allEdges (Scenario.build Scenario.filesB)) /\
  isNode (Scenario.build Scenario.filesB) "base.js:Base:1" /\
  isNode (Scenario.build Scenario.filesB) "derived.js:Derived:1".
Proof.
  assert (H : In Scenario.extendsEdgeB (allEdges (Scenario.build Scenario.filesB))).
  { vm_compute. left. reflexivity. }
  split; [exact H|].
  exact (build_edges_shape _ _ _ _ _ _ _ _ _ _ H).
Defined.

(** ** Call resolution *)

Lemma Permutation_filter {A : Type} (f : A -> bool) (l l' : list A) :
  Permutation l l' -> Permutation (filter f l) (filter f l').
Proof.
  induction 1; simpl.
  - constructor.
  - destruct (f x); [now constructor | assumption].
  - destruct (f x), (f y); try reflexivity. apply perm_swap.
  - now transitivity (filter f l').
Qed.

Lemma filter_all {A : Type} (f : A -> bool) (l : list A) :
  (forall x, In x l -> f x = true) -> filter f l = l.
Proof.
  induction l as [|x l IH]; intros H; simpl; [reflexivity|].
  rewrite (H x (or_introl eq_refl)), IH; [reflexivity|].
  intros y Hy. apply H. now right.
Qed.

Lemma flat_map_guarded {A B : Type} (p : A -> bool) (h : A -> list B) (l : list A) :
  flat_map (fun x => if p x then h x else []) l = flat_map h (filter p l).
Proof.
  induction l as [|x l IH]; simpl; [reflexivity|].
  destruct (p x); simpl; now rewrite IH.
Qed.

Lemma flat_map_singleton {A B : Type} (h : A -> B) (l : list A) :
  flat_map (fun x => [h x]) l = map h l.
Proof. induction l as [|x l IH]; simpl; [reflexivity | now rewrite IH]. Qed.

Lemma map_of_flat_map {A B C : Type} (h : B -> C) (k : A -> list B) (l : list A) :
  map h (flat_map k l) = flat_map (fun x => map h (k x)) l.
Proof.
  induction l as [|x l IH]; simpl; [reflexivity|]. now rewrite map_app, IH.
Qed.

(** A loop each step of which adds a known list of edges to the view [E] of
    the store adds their concatenation. *)
Lemma fold_left_perm {B : Type} (E : CodeGraph -> list EdgeDoc) (I : CodeGraph -> Prop)
    (f : CodeGraph -> B -> CodeGraph) (spec : B -> list EdgeDoc) (l : list B) (g : CodeGraph) :
  I g ->
  (forall a b, In b l -> I a -> I (f a b) /\ Permutation (E (f a b)) (E a ++ spec b)) ->
  I (fold_left f l g) /\ Permutation (E (fold_left f l g)) (E g ++ flat_map spec l).
Proof.
  revert g. induction l as [|b l IH]; intros g Hg Hstep; simpl.
  - split; [exact Hg | now rewrite app_nil_r].
  - destruct (Hstep g b (or_introl eq_refl) Hg) as [Hi Hp].
    destruct (IH (f g b) Hi) as [Hi' Hp'].
    + intros a b' Hin. apply Hstep. now right.
    + split; [exact Hi'|]. rewrite Hp', Hp. now rewrite <- app_assoc.
Qed.

Lemma scanDeclarations_perm g0 fileData wanted fromId type g :
  declared fileData g0 ->
  (forall s, wanted s = true -> isType TCall s = false) ->
  nodes g = nodes g0 ->
  nodes (scanDeclarations fileData wanted fromId type g) = nodes g0 /\
  Permutation
    (allEdges (scanDeclarations fileData wanted fromId type g))
    (allEdges g ++
     map (fun target => mkEdgeDoc fromId target type) (matchingDeclarations fileData wanted)).
Proof.
  intros Hdecl Hwanted Hg. unfold scanDeclarations, matchingDeclarations.
  rewrite map_of_flat_map.
  apply (fold_left_perm allEdges (fun a => nodes a = nodes g0)); [exact Hg|].
  intros a [otherFile otherData] Hentry Ha.
  rewrite map_map, <- flat_map_singleton, <- flat_map_guarded.
  apply (fold_left_perm allEdges (fun a => nodes a = nodes g0)); [exact Ha|].
  intros b s Hs Hb.
  destruct (wanted s) eqn:Hw; [|split; [exact Hb | now rewrite app_nil_r]].
  assert (Hnode : JSMap.has (nodes b) (nodeIdOf otherFile (sym_name s) (sym_line s)) = true).
  { rewrite Hb. apply (Hdecl otherFile otherData s Hentry Hs). now apply Hwanted. }
  rewrite Hnode. split; [exact Hb | apply allEdges_addEdge].
Qed.

Lemma grownBy_calls_kept g g' :
  grownBy (fun e => isCallsEdge e = false) g g' ->
  Permutation (filter isCallsEdge (allEdges g')) (filter isCallsEdge (allEdges g)).
Proof.
  induction 1 as [|g' from to type Hgrown IH HQ]; [reflexivity|].
  rewrite (Permutation_filter _ _ _ (allEdges_addEdge g' from to type)).
  rewrite filter_app. simpl. rewrite HQ. now rewrite app_nil_r.
Qed.

Section CallFacts.
Variable path_dirname : string -> string.
Variable path_join : string -> string -> string.

Lemma relateFile_calls g0 fileData file data g :
  declared fileData g0 -> nodes g = nodes g0 ->
  nodes (relateFile path_dirname path_join fileData g (file, data)) = nodes g0 /\
  Permutation
    (filter isCallsEdge (allEdges (relateFile path_dirname path_join fileData g (file, data))))
    (filter isCallsEdge (allEdges g) ++
     flat_map (callEdgesFor fileData file) (filter (isType TCall) (symbols data))).
Proof.
  intros Hdecl Hg. unfold relateFile.
  set (g1 := fold_left _ (imports data) g).
  set (g2 := fold_left _ (symbols data) g1).
  assert (H1 : grownBy (fun e => isCallsEdge e = false) g g1).
  { apply grownBy_fold; [constructor|].
    intros a imp _ Ha. apply connectImport_grown; [|exact Ha]. reflexivity. }
  assert (H2 : nodes g2 = nodes g0 /\
               Permutation (filter isCallsEdge (allEdges g2))
                 (filter isCallsEdge (allEdges g1) ++
                  flat_map (callEdgesFor fileData file)
                    (filter (isType TCall) (symbols data)))).
  { rewrite <- flat_map_guarded.
    apply (fold_left_perm (fun a => filter isCallsEdge (allEdges a))
             (fun a => nodes a = nodes g0)).
    - now rewrite (grownBy_nodes _ _ _ H1).
    - intros a c _ Ha. destruct (isType TCall c); [|split; [exact Ha | now rewrite app_nil_r]].
      destruct (scanDeclarations_perm g0 fileData
                  (isFunctionNamed (sym_name c)) (callSiteId file (sym_line c)) Calls a
                  Hdecl) as [Hn Hp]; [|exact Ha|].
      + intros s Hs. unfold isFunctionNamed, isType in *.
        destruct (sym_type s); simpl in *; congruence.
      + split; [exact Hn|]. unfold connectCall.
        change (fun otherSymbol : Symbol =>
                  isType TFunction otherSymbol
                  && String.eqb (sym_name otherSymbol) (sym_name c))
          with (isFunctionNamed (sym_name c)).
        rewrite (Permutation_filter _ _ _ Hp), filter_app.
        apply Permutation_app_head. unfold callEdgesFor.
        rewrite filter_all; [reflexivity|].
        intros e He. apply in_map_iff in He.
        destruct He as [t [<- _]]. reflexivity. }
  destruct H2 as [Hn2 Hp2].
  assert (H3 : grownBy (fun e => isCallsEdge e = false) g2
                 (fold_left
                    (fun g symbol =>
                       if isType TClass symbol && truthy (sym_extends symbol) then
                         match sym_extends symbol with
                         | Some parent => connectExtends fileData file symbol parent g
                         | None => g
                         end
                       else g) (symbols data) g2)).
  { apply grownBy_fold; [constructor|].
    intros a symbol _ Ha. destruct (_ && _); [|exact Ha].
    destruct (sym_extends symbol); [|exact Ha].
    apply scanDeclarations_grown; [|exact Ha]. reflexivity. }
  split.
  - now rewrite (grownBy_nodes _ _ _ H3).
  - rewrite (grownBy_calls_kept _ _ H3), Hp2.
    apply Permutation_app_tail. apply (grownBy_calls_kept _ _ H1).
Qed.
End CallFacts.

Lemma parseAll_fileData files g g' : fst (parseAll files g) = fst (parseAll files g').
Proof.
  unfold parseAll. generalize (JSMap.empty : JSMap.t Parsed). revert g g'.
  induction files as [|[file [parsed|]] files IH]; intros g g' fd; simpl.
  - reflexivity.
  - apply IH.
  - apply IH.
Qed.

Section BuildCallFacts.
Variable path_dirname : string -> string.
Variable path_join : string -> string -> string.

Lemma populate_calls now files :
  Permutation
    (filter isCallsEdge (allEdges (populate path_dirname path_join now files)))
    (expectedCallEdges (fileDataOf files)).
Proof.
  unfold fileDataOf. rewrite (parseAll_fileData files _ (newCodeGraph now)).
  unfold populate.
  pose proof (parseAll_spec files (newCodeGraph now)) as [Hdecl Hedges].
  destruct (parseAll files (newCodeGraph now)) as [fd g]. simpl in *.
  destruct (fold_left_perm (fun a => filter isCallsEdge (allEdges a))
              (fun a => nodes a = nodes g)
              (relateFile path_dirname path_join fd)
              (fun entry : string * Parsed =>
                 flat_map (callEdgesFor fd (fst entry))
                   (filter (isType TCall) (symbols (snd entry))))
              fd g eq_refl) as [_ Hp].
  - intros a [file data] _ Ha. now apply relateFile_calls.
  - rewrite Hp, Hedges. simpl. unfold expectedCallEdges.
    apply Permutation_refl'. apply flat_map_ext. now intros [file data].
Qed.
End BuildCallFacts.

(** C6, as stated, fails: in the twins scenario the store has one
    function-kind node named [f], and the single call fact [f()] yields two
    [calls] edges to it, one per declaration. *)
Lemma call_edges_by_node_counterexample :
  functionNodesNamed (Scenario.build Scenario.filesTwins) "f" = ["a.js:f:1"] /\
  filter isCallsEdge (allEdges (Scenario.build Scenario.filesTwins))
  = [mkEdgeDoc "a.js:2" "a.js:f:1" Calls; mkEdgeDoc "a.js:2" "a.js:f:1" Calls] /\
  ~ Permutation
      (filter isCallsEdge (allEdges (Scenario.build Scenario.filesTwins)))
      (callEdgesByNode (Scenario.build Scenario.filesTwins)
         (fileDataOf Scenario.filesTwins)).
Proof.
  split; [reflexivity|]. split; [reflexivity|].
  intros H. apply Permutation_length in H. vm_compute in H. discriminate.
Qed.

(** C6, amended.  The [calls] edges of a built store are, counted with
    multiplicity: for every call fact of every parsed file and for every
    function declaration, in any parsed file, whose name equals the callee
    name, one edge from the call-site id [file:callLine] to the node id
    [file:name:line] of that declaration; each such target is a key of the
    node map. *)
Theorem build_call_edges :
  forall path_dirname path_join md5hex JSON_stringify now0 now1 rootPath files s,
    Permutation
      (filter isCallsEdge
         (allEdges (builtStore path_dirname path_join md5hex JSON_stringify
                      now0 now1 rootPath files s)))
      (expectedCallEdges (fileDataOf files)) /\
    Forall
      (fun e => isNode (builtStore path_dirname path_join md5hex JSON_stringify
                          now0 now1 rootPath files s) (ed_to e))
      (expectedCallEdges (fileDataOf files)).
Proof.
  intros.
  assert (Hp : Permutation
                 (filter isCallsEdge
                    (allEdges (builtStore path_dirname path_join md5hex JSON_stringify
                                 now0 now1 rootPath files s)))
                 (expectedCallEdges (fileDataOf files))).
  { rewrite builtStore_edges. apply populate_calls. }
  split; [exact Hp|].
  apply Forall_forall. intros e He.
  apply (Permutation_in _ (Permutation_sym Hp)) in He.
  apply filter_In in He. destruct He as [He _].
  now apply builtStore_builtEdge.
Qed.

(** Scenario A: the call in [b.js] is linked to [foo] of [a.js], and so is
    the import. *)
Example scenario_A_edges :
  allEdges (Scenario.build Scenario.filesA) = [Scenario.importEdgeA; Scenario.callEdgeA] /\
  expectedCallEdges (fileDataOf Scenario.filesA) = [Scenario.callEdgeA].
Proof. split; reflexivity. Qed.

(** ** Import resolution *)

Lemma tryCandidates_first fileData file imp g candidates before chosen after targetData :
  map stripDotSlash candidates = before ++ chosen :: after ->
  (forall c, In c before -> JSMap.has fileData c = false) ->
  JSMap.get fileData chosen = Some targetData ->
  tryCandidates fileData file imp candidates g = linkImport file imp chosen targetData g.
Proof.
  revert candidates. induction before as [|b before IH]; intros candidates Hsplit Hbefore Hchosen.
  - destruct candidates as [|c rest]; [discriminate|].
    simpl in Hsplit. injection Hsplit as Hc _. simpl. now rewrite Hc, Hchosen.
  - destruct candidates as [|c rest]; [discriminate|].
    simpl in Hsplit. injection Hsplit as Hc Hrest. simpl.
    assert (Hnone : JSMap.get fileData (stripDotSlash c) = None).
    { apply JSMapFacts.has_false_get. apply Hbefore. left. now symmetry. }
    rewrite Hnone. apply IH; [exact Hrest | | exact Hchosen].
    intros c' Hc'. apply Hbefore. now right.
Qed.

Lemma tryCandidates_none fileData file imp g candidates :
  (forall c, In c candidates -> JSMap.has fileData (stripDotSlash c) = false) ->
  tryCandidates fileData file imp candidates g = g.
Proof.
  induction candidates as [|c rest IH]; intros Hnone; simpl; [reflexivity|].
  rewrite (proj1 (JSMapFacts.has_false_get _ _) (Hnone c (or_introl eq_refl))).
  apply IH. intros c' Hc'. apply Hnone. now right.
Qed.

(** A relative import none of whose candidates is a parsed file, and an
    import that is not relative, leave the store as it is. *)
Lemma import_resolution_miss path_dirname path_join fileData file imp g :
  (startsWith (imp_source imp) "." = false \/
   forall c,
     In c (possibleFiles (resolveSource path_dirname path_join file (imp_source imp))) ->
     JSMap.has fileData (stripDotSlash c) = false) ->
  connectImport path_dirname path_join fileData file imp g = g.
Proof.
  unfold connectImport. intros [Hrel|Hnone].
  - now rewrite Hrel.
  - destruct (startsWith _ _); [|reflexivity]. now apply tryCandidates_none.
Qed.

(** In a build, only [lib/a.ts] is linked. *)
Example shadowed_index_is_not_linked :
  allEdges (Scenario.build Scenario.filesShadow)
  = [mkEdgeDoc "lib/b.js:import:1" "lib/a.ts:a:7" Imports].
Proof. reflexivity. Qed.

(** ** Traversal *)

Lemma forOf_inv {A S : Type} (Inv : S -> Prop) (body : A -> S -> option S)
    (l : list A) (s s' : S) :
  Inv s ->
  (forall x a a', In x l -> Inv a -> body x a = Some a' -> Inv a') ->
  forOf body l s = Some s' -> Inv s'.
Proof.
  revert s. induction l as [|x l IH]; intros s Hs Hbody Hrun; simpl in Hrun.
  - now injection Hrun as <-.
  - destruct (body x s) as [s1|] eqn:Hx; [|discriminate].
    apply (IH s1); [| |exact Hrun].
    + apply (Hbody x s s1); [now left | exact Hs | exact Hx].
    + intros y a a' Hy. apply Hbody. now right.
Qed.

Lemma forOf_total {A S : Type} (body : A -> S -> option S) (l : list A) (s : S) :
  (forall x a, In x l -> exists a', body x a = Some a') ->
  exists s', forOf body l s = Some s'.
Proof.
  revert s. induction l as [|x l IH]; intros s Hbody; simpl.
  - now exists s.
  - destruct (Hbody x s (or_introl eq_refl)) as [s1 ->].
    apply IH. intros y a Hy. apply Hbody. now right.
Qed.

Lemma forOf_pure {A S : Type} (step : A -> S -> S) (l : list A) (s : S) :
  forOf (fun x a => Some (step x a)) l s = Some (fold_left (fun a x => step x a) l s).
Proof. revert s. induction l as [|x l IH]; intros s; simpl; [reflexivity | apply IH]. Qed.

Section TraverseFacts.
Variable g : CodeGraph.
Variable direction : Direction.
Variable depth : Z.

(** Calls of [traverse] nest at most [depth + 2] deep. *)
Lemma traverse_total fuel nodeId currentDepth w :
  1 <= fuel -> Z.to_nat depth + 2 <= fuel + currentDepth ->
  exists w', traverse g direction depth fuel nodeId currentDepth w = Some w'.
Proof.
  revert nodeId currentDepth w.
  induction fuel as [|fuel IH]; intros nodeId currentDepth w Hpos Hfuel; [lia|].
  simpl. destruct ((depth <? Z.of_nat currentDepth)%Z || _) eqn:Hguard; [now eexists|].
  apply orb_false_elim in Hguard. destruct Hguard as [Hdepth _].
  apply Z.ltb_ge in Hdepth.
  assert (Hrec : forall n w0,
             exists w', traverse g direction depth fuel n (currentDepth + 1) w0 = Some w').
  { intros n w0. apply IH; lia. }
  assert (Hout : exists w1,
             (if followsOutgoing direction then
                forOf (fun edge w0 =>
                         traverse g direction depth fuel (out_to edge) (currentDepth + 1)
                           (pushResult w0 (outgoingRecord g nodeId edge)))
                      (getOrEmpty (edges g) nodeId) (markVisited w nodeId)
              else Some (markVisited w nodeId)) = Some w1).
  { destruct (followsOutgoing direction); [|now eexists].
    apply forOf_total. intros edge a _. apply Hrec. }
  destruct Hout as [w1 ->].
  destruct (followsIncoming direction); [|now eexists].
  apply forOf_total. intros edge a _. apply Hrec.
Qed.

Section Invariant.
Variable Inv : Walk -> Prop.
Variable Pre : string -> nat -> Prop.

Hypothesis Inv_mark : forall w n currentDepth,
  Inv w -> Pre n currentDepth -> (Z.of_nat currentDepth <= depth)%Z ->
  JSSet.has (visited w) n = false -> Inv (markVisited w n).

Hypothesis Inv_outgoing : forall w n currentDepth edge,
  Inv w -> Pre n currentDepth -> (Z.of_nat currentDepth <= depth)%Z ->
  followsOutgoing direction = true -> In edge (getOrEmpty (edges g) n) ->
  Inv (pushResult w (outgoingRecord g n edge)) /\ Pre (out_to edge) (currentDepth + 1).

Hypothesis Inv_incoming : forall w n currentDepth edge,
  Inv w -> Pre n currentDepth -> (Z.of_nat currentDepth <= depth)%Z ->
  followsIncoming direction = true -> In edge (getOrEmpty (reverseEdges g) n) ->
  Inv (pushResult w (incomingRecord g n edge)) /\ Pre (in_from edge) (currentDepth + 1).

Lemma traverse_inv fuel nodeId currentDepth w w' :
  Inv w -> Pre nodeId currentDepth ->
  traverse g direction depth fuel nodeId currentDepth w = Some w' -> Inv w'.
Proof.
  revert nodeId currentDepth w w'.
  induction fuel as [|fuel IH]; intros nodeId currentDepth w w' Hw Hpre Hrun;
    [discriminate|].
  simpl in Hrun.
  destruct ((depth <? Z.of_nat currentDepth)%Z || _) eqn:Hguard;
    [now injection Hrun as <-|].
  apply orb_false_elim in Hguard. destruct Hguard as [Hdepth Hfresh].
  apply Z.ltb_ge in Hdepth.
  pose proof (Inv_mark w nodeId currentDepth Hw Hpre Hdepth Hfresh) as Hmarked.
  case_eq (followsOutgoing direction); intros Hfo; rewrite Hfo in Hrun.
  - destruct (forOf _ (getOrEmpty (edges g) nodeId) _) as [w1|] eqn:Hloop1; [|discriminate].
    assert (Hw1 : Inv w1).
    { apply (forOf_inv Inv _ _ _ _ Hmarked) in Hloop1; [exact Hloop1|].
      intros edge a a' Hedge Ha Hbody.
      destruct (Inv_outgoing a nodeId currentDepth edge Ha Hpre Hdepth Hfo Hedge)
        as [Hpushed Hnext].
      exact (IH _ _ _ _ Hpushed Hnext Hbody). }
    case_eq (followsIncoming direction); intros Hfi; rewrite Hfi in Hrun;
      [|now injection Hrun as <-].
    apply (forOf_inv Inv _ _ _ _ Hw1) in Hrun; [exact Hrun|].
    intros edge a a' Hedge Ha Hbody.
    destruct (Inv_incoming a nodeId currentDepth edge Ha Hpre Hdepth Hfi Hedge)
      as [Hpushed Hnext].
    exact (IH _ _ _ _ Hpushed Hnext Hbody).
  - case_eq (followsIncoming direction); intros Hfi; rewrite Hfi in Hrun;
      [|now injection Hrun as <-].
    apply (forOf_inv Inv _ _ _ _ Hmarked) in Hrun; [exact Hrun|].
    intros edge a a' Hedge Ha Hbody.
    destruct (Inv_incoming a nodeId currentDepth edge Ha Hpre Hdepth Hfi Hedge)
      as [Hpushed Hnext].
    exact (IH _ _ _ _ Hpushed Hnext Hbody).
Qed.
End Invariant.

(** The expansion log is the visited set, and no id occurs twice in it. *)
Lemma traverse_expands_once fuel nodeId currentDepth w w' :
  expanded w = visited w -> NoDup (visited w) ->
  traverse g direction depth fuel nodeId currentDepth w = Some w' ->
  expanded w' = visited w' /\ NoDup (expanded w').
Proof.
  intros Heq Hnd Hrun.
  apply (traverse_inv (fun w => expanded w = visited w /\ NoDup (expanded w))
           (fun _ _ => True)) in Hrun; auto.
  - intros w0 n cd [He Hn] _ _ Hfresh. unfold markVisited, JSSet.add. simpl.
    rewrite Hfresh, He. split; [reflexivity|].
    rewrite <- He. pose proof (JSSetFacts.NoDup_add (expanded w0) n Hn) as Hadd.
    unfold JSSet.add in Hadd. rewrite He in *. now rewrite Hfresh in Hadd.
  - now rewrite Heq.
Qed.

(** Every record pushed belongs to a node within [depth] hops. *)
Lemma traverse_within start fuel nodeId currentDepth w w' :
  Forall (withinHops g direction start (Z.to_nat depth)) (result w) ->
  reachableIn g direction start currentDepth nodeId ->
  traverse g direction depth fuel nodeId currentDepth w = Some w' ->
  Forall (withinHops g direction start (Z.to_nat depth)) (result w').
Proof.
  intros Hres Hreach Hrun.
  apply (traverse_inv
           (fun w => Forall (withinHops g direction start (Z.to_nat depth)) (result w))
           (fun n cd => reachableIn g direction start cd n)) in Hrun; auto.
  - intros w0 n cd edge Hw Hn Hcd Hfo Hedge. split.
    + simpl. apply Forall_app. split; [exact Hw|]. constructor; [|constructor].
      exists n, cd. split; [lia|]. split; [exact Hn|].
      unfold recordsAt. rewrite Hfo. apply in_or_app. left. now apply in_map.
    + rewrite Nat.add_1_r. apply (reach_hop _ _ _ _ n); [exact Hn|].
      left. split; [exact Hfo|]. now exists edge.
  - intros w0 n cd edge Hw Hn Hcd Hfi Hedge. split.
    + simpl. apply Forall_app. split; [exact Hw|]. constructor; [|constructor].
      exists n, cd. split; [lia|]. split; [exact Hn|].
      unfold recordsAt. rewrite Hfi. apply in_or_app. right. now apply in_map.
    + rewrite Nat.add_1_r. apply (reach_hop _ _ _ _ n); [exact Hn|].
      right. split; [exact Hfi|]. now exists edge.
Qed.
End TraverseFacts.

Lemma forOf_mono {A S : Type} (body body' : A -> S -> option S) (l : list A) (s s' : S) :
  (forall x a a', body x a = Some a' -> body' x a = Some a') ->
  forOf body l s = Some s' -> forOf body' l s = Some s'.
Proof.
  intros Hbody. revert s. induction l as [|x l IH]; intros s Hrun; simpl in *; [exact Hrun|].
  destruct (body x s) as [s1|] eqn:Hx; [|discriminate].
  rewrite (Hbody _ _ _ Hx). now apply IH.
Qed.

(** More fuel does not change the outcome of a run that ended. *)
Lemma traverse_more_fuel g direction depth fuel nodeId currentDepth w w' :
  traverse g direction depth fuel nodeId currentDepth w = Some w' ->
  traverse g direction depth (S fuel) nodeId currentDepth w = Some w'.
Proof.
  revert nodeId currentDepth w w'.
  induction fuel as [|fuel IH]; intros nodeId currentDepth w w' Hrun; [discriminate|].
  simpl in Hrun. remember (S fuel) as fuel1 eqn:Hfuel1 in |- *. simpl. subst fuel1.
  destruct ((depth <? Z.of_nat currentDepth)%Z || _); [exact Hrun|].
  destruct (followsOutgoing direction).
  - destruct (forOf _ (getOrEmpty (edges g) nodeId) _) as [w1|] eqn:Hloop1 in Hrun;
      [|discriminate].
    rewrite (forOf_mono _ _ _ _ _ (fun edge a a' => IH _ _ _ a') Hloop1).
    destruct (followsIncoming direction); [|exact Hrun].
    exact (forOf_mono _ _ _ _ _ (fun edge a a' => IH _ _ _ a') Hrun).
  - destruct (followsIncoming direction); [|exact Hrun].
    exact (forOf_mono _ _ _ _ _ (fun edge a a' => IH _ _ _ a') Hrun).
Qed.

Lemma runConnections_fuel_irrelevant g id direction depth fuel w :
  runConnections (Z.to_nat depth + 2) g id direction depth = Some w ->
  runConnections (Z.to_nat depth + 2 + fuel) g id direction depth = Some w.
Proof.
  intros Hrun. unfold runConnections in *.
  induction fuel as [|fuel IH]; [now rewrite Nat.add_0_r|].
  rewrite Nat.add_succ_r. now apply traverse_more_fuel.
Qed.

Lemma traversal_run_exists g id direction depth :
  exists w, runConnections (Z.to_nat depth + 2) g id direction depth = Some w.
Proof.
  apply (traverse_total g direction depth (Z.to_nat depth + 2) id 0 emptyWalk); lia.
Qed.

(** C4.  For every store, cyclic or not, node id, direction and depth,
    [getConnections] returns: the nesting of [traverse] never exceeds
    [depth + 2]; and each node id is expanded at most once in the call, the
    ids expanded being the members of the visited set. *)
Theorem traversal_terminates_expanding_once :
  forall g id direction depth,
    exists w,
      runConnections (Z.to_nat depth + 2) g id direction depth = Some w /\
      getConnections g id direction depth = result w /\
      expanded w = visited w /\
      NoDup (expanded w).
Proof.
  intros g id direction depth.
  destruct (traversal_run_exists g id direction depth) as [w Hrun].
  exists w. split; [exact Hrun|]. split.
  - unfold getConnections. now rewrite Hrun.
  - apply (traverse_expands_once g direction depth (Z.to_nat depth + 2) id 0 emptyWalk w);
      [reflexivity | apply NoDup_nil | exact Hrun].
Qed.

(** On the cycle of two classes every node is expanded once, whatever the
    depth. *)
Example cycle_is_expanded_once :
  option_map expanded (runConnections 7 Scenario.cycle "p.js:P:1" Both 5%Z)
  = Some ["p.js:P:1"; "q.js:Q:1"] /\
  List.length (getConnections Scenario.cycle "p.js:P:1" Both 5%Z) = 4.
Proof. split; reflexivity. Qed.

Lemma pushAll_result {A : Type} (h : A -> Connection) (l : list A) (w : Walk) :
  fold_left (fun a x => pushResult a (h x)) l w
  = {| visited := visited w; result := result w ++ map h l; expanded := expanded w |}.
Proof.
  revert w. induction l as [|x l IH]; intros w; simpl.
  - rewrite app_nil_r. now destruct w.
  - rewrite IH. simpl. now rewrite <- app_assoc.
Qed.

(** With depth 0 the start node alone is visited, and all its edges are
    returned. *)
Lemma depth_zero_run g id direction :
  runConnections 2 g id direction 0%Z
  = Some {| visited := [id]; result := recordsAt g direction id; expanded := [id] |}.
Proof.
  unfold runConnections, recordsAt. simpl.
  destruct direction; simpl;
    repeat (rewrite (forOf_pure (fun edge a => pushResult a _)), pushAll_result; simpl);
    try rewrite app_nil_r; reflexivity.
Qed.

(** C1, as stated, fails: on the chain [A -> B -> C], depth 0 returns the
    edge of [A], and depth 1 returns the edge [B -> C] although [C] is not
    within one hop of [A]. *)
Lemma depth_bound_counterexample :
  map Scenario.ends (getConnections Scenario.chain "a.js:A:1" Outgoing 0%Z)
  = [("a.js:A:1", "b.js:B:1")] /\
  getConnections Scenario.chain "a.js:A:1" Outgoing 0%Z <> [] /\
  In ("b.js:B:1", "c.js:C:1")
     (map Scenario.ends (getConnections Scenario.chain "a.js:A:1" Outgoing 1%Z)) /\
  (forall n, reachableIn Scenario.chain Outgoing "a.js:A:1" n "c.js:C:1" -> 1 < n).
Proof.
  split; [reflexivity|]. split; [discriminate|]. split; [right; left; reflexivity|].
  intros [|[|n]] Hreach; [inversion Hreach | | lia].
  inversion Hreach as [|? u ? Hu Hhop]; subst.
  inversion Hu; subst.
  destruct Hhop as [[_ [edge [Hedge Hto]]]|[Hfi _]]; [|discriminate].
  vm_compute in Hedge. destruct Hedge as [<-|[]]. discriminate.
Qed.

(** C1, amended.  Every record returned by [getConnections(id, direction, d)]
    is an edge at a node that lies within [d] hops of the start node, so that
    no returned edge ends farther than [d + 1] hops away; with depth 0 the
    start node alone is visited and exactly its own edges are returned. *)
Theorem connections_within_depth :
  forall g id direction (depth : nat),
    Forall (withinHops g direction id depth)
      (getConnections g id direction (Z.of_nat depth)) /\
    getConnections g id direction 0%Z = recordsAt g direction id /\
    option_map visited (runConnections 2 g id direction 0%Z) = Some [id].
Proof.
  intros g id direction depth. split; [|split].
  - destruct (traversal_run_exists g id direction (Z.of_nat depth)) as [w Hrun].
    unfold getConnections. rewrite Hrun. rewrite <- (Nat2Z.id depth) at 1.
    apply (traverse_within g direction (Z.of_nat depth) id
             (Z.to_nat (Z.of_nat depth) + 2) id 0 emptyWalk w);
      [constructor | constructor | exact Hrun].
  - unfold getConnections. change (Z.to_nat 0 + 2) with 2. now rewrite depth_zero_run.
  - now rewrite depth_zero_run.
Qed.

(** ** Serialisation *)

Lemma keys_set_present {V : Type} (m : JSMap.t V) k v :
  JSMap.has m k = true -> JSMap.keys (JSMap.set m k v) = JSMap.keys m.
Proof.
  unfold JSMap.has, JSMap.keys.
  induction m as [|[k' v'] m IH]; simpl; [discriminate|].
  destruct (String.eqb_spec k k') as [->|Hne]; simpl; [reflexivity|].
  intros H. now rewrite IH.
Qed.

Lemma NoDup_snoc {A : Type} (l : list A) (x : A) : NoDup l -> ~ In x l -> NoDup (l ++ [x]).
Proof.
  intros Hnd Hx. apply NoDup_rev in Hnd. rewrite <- (rev_involutive (l ++ [x])).
  apply NoDup_rev. rewrite rev_app_distr. simpl. constructor; [|exact Hnd].
  now rewrite <- in_rev.
Qed.

Lemma NoDup_keys_set {V : Type} (m : JSMap.t V) k v :
  NoDup (JSMap.keys m) -> NoDup (JSMap.keys (JSMap.set m k v)).
Proof.
  intros Hnd. destruct (JSMap.has m k) eqn:Hhas.
  - now rewrite keys_set_present.
  - rewrite JSMapFacts.keys_set_absent by exact Hhas.
    unfold JSMap.keys. rewrite map_app. simpl. apply NoDup_snoc; [exact Hnd|].
    intros Hin. apply JSMapFacts.has_keys in Hin. congruence.
Qed.

Lemma NoDup_keys_ensureKey {V : Type} (m : JSMap.t (list V)) k :
  NoDup (JSMap.keys m) -> NoDup (JSMap.keys (ensureKey m k)).
Proof.
  intros Hnd. unfold ensureKey. destruct (JSMap.has m k); [exact Hnd|].
  now apply NoDup_keys_set.
Qed.

Lemma NoDup_keys_addTo {V : Type} (m : JSMap.t (list V)) k x :
  NoDup (JSMap.keys m) -> NoDup (JSMap.keys (addTo m k x)).
Proof. intros Hnd. unfold addTo. now apply NoDup_keys_set. Qed.

Lemma wellFormed_new now : wellFormed (newCodeGraph now).
Proof. repeat split; constructor. Qed.

Lemma wellFormed_addEdge g from to type : wellFormed g -> wellFormed (addEdge g from to type).
Proof.
  intros (Hn & He & Hr & Hf & Hs). repeat split; simpl; auto.
  - now apply NoDup_keys_addTo, NoDup_keys_ensureKey.
  - now apply NoDup_keys_addTo, NoDup_keys_ensureKey.
Qed.

Lemma wellFormed_addNode g id data : wellFormed g -> wellFormed (addNode g id data).
Proof.
  intros (Hn & He & Hr & Hf & Hs). repeat split; simpl.
  - now apply NoDup_keys_set.
  - now apply NoDup_keys_ensureKey.
  - now apply NoDup_keys_ensureKey.
  - now apply NoDup_keys_set.
  - apply Forall_forall. intros entry Hentry.
    apply JSMapFacts.In_set in Hentry. destruct Hentry as [->|Hentry].
    + simpl. apply JSSetFacts.NoDup_add. unfold getOrEmpty.
      destruct (JSMap.get _ _) as [ids|] eqn:Hget; [|constructor].
      apply JSMapFacts.get_In in Hget.
      now apply (proj1 (Forall_forall _ _) Hs _ Hget).
    + now apply (proj1 (Forall_forall _ _) Hs).
Qed.

(** Re-inserting, in order, the entries of a map rebuilds it. *)
Lemma rebuild_map {V : Type} (f : string * V -> V) (m0 m : JSMap.t V) :
  (forall e, In e m -> f e = snd e) ->
  NoDup (JSMap.keys (m0 ++ m)) ->
  fold_left (fun acc e => JSMap.set acc (fst e) (f e)) m m0 = m0 ++ m.
Proof.
  revert m0. induction m as [|[k v] m IH]; intros m0 Hf Hnd; simpl.
  - now rewrite app_nil_r.
  - rewrite (Hf (k, v) (or_introl eq_refl)). simpl.
    rewrite JSMapFacts.keys_set_absent.
    + rewrite IH.
      * now rewrite <- app_assoc.
      * intros e He. apply Hf. now right.
      * now rewrite <- app_assoc.
    + destruct (JSMap.has m0 k) eqn:Hh; [|reflexivity].
      exfalso. apply JSMapFacts.has_keys in Hh. unfold JSMap.keys in Hnd.
      rewrite map_app in Hnd. simpl in Hnd.
      apply NoDup_remove_2 in Hnd. apply Hnd, in_or_app. now left.
Qed.

Lemma loadNodes_spec l g :
  nodes (fold_left loadNode l g)
  = fold_left (fun acc e => JSMap.set acc (fst e) (snd e)) l (nodes g) /\
  allEdges (fold_left loadNode l g) = allEdges g /\
  fileIndex (fold_left loadNode l g) = fileIndex g.
Proof.
  revert g. induction l as [|[id data] l IH]; intros g; [simpl; auto|].
  cbn [fold_left].
  destruct (IH (loadNode g (id, data))) as (Hn & He & Hf).
  rewrite Hn, He, Hf. simpl. repeat split.
  unfold allEdges. simpl. apply edgesArray_ensureKey.
Qed.

Lemma loadEdge_addEdge g e : loadEdge g e = addEdge g (ed_from e) (ed_to e) (ed_type e).
Proof. reflexivity. Qed.

Lemma loadEdges_spec l g :
  nodes (fold_left loadEdge l g) = nodes g /\
  Permutation (allEdges (fold_left loadEdge l g)) (allEdges g ++ l) /\
  fileIndex (fold_left loadEdge l g) = fileIndex g.
Proof.
  revert g. induction l as [|e l IH]; intros g; cbn [fold_left].
  - rewrite app_nil_r. auto.
  - destruct (IH (loadEdge g e)) as (Hn & He & Hf).
    rewrite Hn, Hf. repeat split. rewrite He, loadEdge_addEdge.
    rewrite (allEdges_addEdge g (ed_from e) (ed_to e) (ed_type e)).
    rewrite <- app_assoc. now destruct e.
Qed.

Lemma loadFileEntries_spec (fi : JSMap.t JSSet.t) g :
  nodes (fold_left loadFileEntry (map (fun '(file, ids) => mkFileIndexDoc file ids) fi) g)
  = nodes g /\
  allEdges (fold_left loadFileEntry (map (fun '(file, ids) => mkFileIndexDoc file ids) fi) g)
  = allEdges g /\
  fileIndex (fold_left loadFileEntry (map (fun '(file, ids) => mkFileIndexDoc file ids) fi) g)
  = fold_left (fun acc e => JSMap.set acc (fst e) (JSSet.of_list (snd e))) fi (fileIndex g).
Proof.
  revert g. induction fi as [|[file ids] fi IH]; intros g; [simpl; auto|].
  cbn [fold_left map].
  destruct (IH (loadFileEntry g (mkFileIndexDoc file ids))) as (Hn & He & Hf).
  rewrite Hn, He, Hf. auto.
Qed.

(** Every store the engine holds is well formed: the stores come from
    [new CodeGraph()], [addNode], [addEdge] and [fromJSON]. *)
Lemma wellFormed_grownBy Q g g' : grownBy Q g g' -> wellFormed g -> wellFormed g'.
Proof. induction 1; intros Hwf; [exact Hwf|]. apply wellFormed_addEdge. auto. Qed.

Lemma wellFormed_populate path_dirname path_join now files :
  wellFormed (populate path_dirname path_join now files).
Proof.
  apply (wellFormed_grownBy _ _ _ (populate_grown path_dirname path_join now files)).
  unfold parseAll.
  apply (fold_left_inv (fun r : JSMap.t Parsed * CodeGraph => wellFormed (snd r)));
    [apply wellFormed_new|].
  intros [fd g] [file [parsed|]] _ Hwf; simpl in *; [|exact Hwf].
  unfold addSymbols. apply (fold_left_inv wellFormed); [exact Hwf|].
  intros a s _ Ha. destruct (negb _); [|exact Ha]. now apply wellFormed_addNode.
Qed.

Lemma NoDup_of_list l : NoDup (JSSet.of_list l).
Proof.
  unfold JSSet.of_list. apply (fold_left_inv (fun s => NoDup s)); [constructor|].
  intros s x _ Hs. now apply JSSetFacts.NoDup_add.
Qed.

(** What [fromJSON] returns, when its loops run through. *)
Lemma fromJSON_Some data nodeEntries edgeEntries fileEntries :
  entriesOf (doc_nodes data) = Some nodeEntries ->
  entriesOf (doc_edges data) = Some edgeEntries ->
  entriesOf (doc_fileIndex data) = Some fileEntries ->
  fromJSON data
  = Some (fold_left loadFileEntry fileEntries
            (fold_left loadEdge edgeEntries
               (fold_left loadNode nodeEntries (headerOf data)))).
Proof. unfold fromJSON. now intros -> -> ->. Qed.

Lemma fromJSON_loops data g :
  fromJSON data = Some g ->
  exists nodeEntries edgeEntries fileEntries,
    entriesOf (doc_nodes data) = Some nodeEntries /\
    entriesOf (doc_edges data) = Some edgeEntries /\
    entriesOf (doc_fileIndex data) = Some fileEntries /\
    g = fold_left loadFileEntry fileEntries
          (fold_left loadEdge edgeEntries
             (fold_left loadNode nodeEntries (headerOf data))).
Proof.
  unfold fromJSON.
  destruct (entriesOf (doc_nodes data)) as [nodeEntries|]; [|discriminate].
  destruct (entriesOf (doc_edges data)) as [edgeEntries|]; [|discriminate].
  destruct (entriesOf (doc_fileIndex data)) as [fileEntries|]; [|discriminate].
  intros [= <-]. now exists nodeEntries, edgeEntries, fileEntries.
Qed.

(** [fromJSON] throws exactly when one of the three fields cannot be
    iterated. *)
Lemma fromJSON_throws data :
  fromJSON data = None <->
  doc_nodes data = NotIterable \/ doc_edges data = NotIterable \/
  doc_fileIndex data = NotIterable.
Proof.
  unfold fromJSON.
  destruct (doc_nodes data), (doc_edges data), (doc_fileIndex data); simpl;
    split; intros H; try discriminate; auto;
    destruct H as [H|[H|H]]; discriminate.
Qed.

Lemma fromJSON_inv (P : CodeGraph -> Prop) data g :
  P (headerOf data) ->
  (forall a node, P a -> P (loadNode a node)) ->
  (forall a edge, P a -> P (loadEdge a edge)) ->
  (forall a entry, P a -> P (loadFileEntry a entry)) ->
  fromJSON data = Some g -> P g.
Proof.
  intros Hheader Hnode Hedge Hentry Hload.
  destruct (fromJSON_loops data g Hload) as (ns & es & fs & _ & _ & _ & ->).
  apply (fold_left_inv P); [apply (fold_left_inv P); [apply (fold_left_inv P)|]|]; auto.
Qed.

Lemma wellFormed_fromJSON data g : fromJSON data = Some g -> wellFormed g.
Proof.
  apply (fromJSON_inv wellFormed).
  - repeat split; constructor.
  - intros a [id nodeData] (Hn & He & Hr & Hf & Hs). repeat split; simpl; auto.
    + now apply NoDup_keys_set.
    + now apply NoDup_keys_ensureKey.
    + now apply NoDup_keys_ensureKey.
  - intros a e Ha. rewrite loadEdge_addEdge. now apply wellFormed_addEdge.
  - intros a entry (Hn & He & Hr & Hf & Hs). repeat split; simpl; auto.
    + now apply NoDup_keys_set.
    + apply Forall_forall. intros e' He'.
      apply JSMapFacts.In_set in He'. destruct He' as [->|He'].
      * apply NoDup_of_list.
      * now apply (proj1 (Forall_forall _ _) Hs).
Qed.

(** The reverse index of every store the engine holds mirrors its forward
    edges. *)
Lemma mirrored_grownBy Q g g' : grownBy Q g g' -> mirrored g -> mirrored g'.
Proof. induction 1; intros Hm; [exact Hm|]. apply mirrored_addEdge. auto. Qed.

Lemma mirrored_populate path_dirname path_join now files :
  mirrored (populate path_dirname path_join now files).
Proof.
  apply (mirrored_grownBy _ _ _ (populate_grown path_dirname path_join now files)).
  unfold parseAll.
  apply (fold_left_inv (fun r : JSMap.t Parsed * CodeGraph => mirrored (snd r)));
    [apply Permutation_refl|].
  intros [fd g] [file [parsed|]] _ Hm; simpl in *; [|exact Hm].
  unfold addSymbols. apply (fold_left_inv mirrored); [exact Hm|].
  intros a s _ Ha. destruct (negb _); [|exact Ha]. now apply mirrored_addNode.
Qed.

Lemma mirrored_fromJSON data g : fromJSON data = Some g -> mirrored g.
Proof.
  apply (fromJSON_inv mirrored).
  - apply Permutation_refl.
  - intros a [id nodeData] Ha. unfold mirrored, allReverseEdges, allEdges in *. simpl.
    now rewrite flatten_ensureKey, edgesArray_ensureKey.
  - intros a e Ha. rewrite loadEdge_addEdge. now apply mirrored_addEdge.
  - intros a entry Ha. exact Ha.
Qed.

(** The store that the loops of [fromJSON] make of the entries that
    [toJSON] wrote for the store [S]. *)
Lemma reloaded_contents S header :
  wellFormed S ->
  nodes header = [] -> edges header = [] -> reverseEdges header = [] ->
  fileIndex header = [] ->
  nodes (fold_left loadFileEntry
           (map (fun '(file, ids) => mkFileIndexDoc file ids) (fileIndex S))
           (fold_left loadEdge (edgesArray (edges S))
              (fold_left loadNode (nodes S) header))) = nodes S /\
  Permutation
    (forwardEdges
       (fold_left loadFileEntry
          (map (fun '(file, ids) => mkFileIndexDoc file ids) (fileIndex S))
          (fold_left loadEdge (edgesArray (edges S))
             (fold_left loadNode (nodes S) header))))
    (forwardEdges S) /\
  fileIndex (fold_left loadFileEntry
               (map (fun '(file, ids) => mkFileIndexDoc file ids) (fileIndex S))
               (fold_left loadEdge (edgesArray (edges S))
                  (fold_left loadNode (nodes S) header))) = fileIndex S.
Proof.
  intros (Hn & _ & _ & Hf & Hs) Hnodes Hedges Hreverse Hindex.
  destruct (loadNodes_spec (nodes S) header) as (Hn1 & He1 & Hf1).
  set (graph1 := fold_left loadNode (nodes S) header) in *.
  destruct (loadEdges_spec (edgesArray (edges S)) graph1) as (Hn2 & He2 & Hf2).
  set (graph2 := fold_left loadEdge (edgesArray (edges S)) graph1) in *.
  destruct (loadFileEntries_spec (fileIndex S) graph2) as (Hn3 & He3 & Hf3).
  unfold forwardEdges. rewrite <- !edgesArray_flatten.
  change (edgesArray (edges ?g)) with (allEdges g).
  rewrite Hn3, He3, Hf3, Hn2, Hf2, Hn1, Hf1, Hnodes, Hindex. repeat split.
  - apply (rebuild_map snd [] (nodes S)); [reflexivity | exact Hn].
  - rewrite He2, He1. unfold allEdges at 1. rewrite Hedges. reflexivity.
  - apply (rebuild_map (fun e => JSSet.of_list (snd e)) [] (fileIndex S)); [|exact Hf].
    intros e He. apply JSSetFacts.of_list_id.
    now apply (proj1 (Forall_forall _ _) Hs).
Qed.

(** C3.  Loading what was saved: for every store [S], [fromJSON] applied to
    [toJSON S] returns a store; that store has the node map and the file
    index of [S] (entry for entry, in the same order) and, up to order, the
    edges of [S], both in its forward index and in its reverse index.  The
    edges are read off the maps of the two stores, not off the document. *)
Theorem save_load_round_trip :
  forall S,
    wellFormed S ->
    exists S',
      fromJSON (toJSON S) = Some S' /\
      nodes S' = nodes S /\
      Permutation (forwardEdges S') (forwardEdges S) /\
      Permutation (allReverseEdges S') (forwardEdges S) /\
      fileIndex S' = fileIndex S.
Proof.
  intros S Hwf.
  pose proof (fromJSON_Some (toJSON S) _ _ _ eq_refl eq_refl eq_refl) as Hload.
  cbn [toJSON doc_nodes doc_edges doc_fileIndex] in Hload.
  eexists. split; [exact Hload|].
  destruct (reloaded_contents S (headerOf (toJSON S)) Hwf eq_refl eq_refl eq_refl eq_refl)
    as (Hnodes & Hedges & Hindex).
  split; [exact Hnodes|]. split; [exact Hedges|]. split; [|exact Hindex].
  apply (Permutation_trans (mirrored_fromJSON _ _ Hload)).
  unfold allEdges. rewrite edgesArray_flatten. exact Hedges.
Qed.

Lemma save_load_round_trip_witness :
  exists S',
    fromJSON (toJSON (Scenario.build Scenario.filesA)) = Some S' /\
    nodes S' = nodes (Scenario.build Scenario.filesA) /\
    Permutation (forwardEdges S') [Scenario.importEdgeA; Scenario.callEdgeA] /\
    Permutation (allReverseEdges S') [Scenario.importEdgeA; Scenario.callEdgeA] /\
    fileIndex S' = fileIndex (Scenario.build Scenario.filesA).
Proof.
  apply (save_load_round_trip (Scenario.build Scenario.filesA)).
  vm_compute. repeat split; repeat constructor; simpl; intuition discriminate.
Defined.

(** ** Search *)

Lemma prefix_spec (p s : string) :
  String.prefix p s = true <-> exists post, s = (p ++ post)%string.
Proof.
  revert s. induction p as [|c p IH]; intros s; simpl.
  - split; [intros _; now exists s | intros _; now destruct s].
  - destruct s as [|c' s]; simpl;
      [split; [discriminate | intros [post H]; discriminate]|].
    destruct (Ascii.ascii_dec c c') as [->|Hne].
    + rewrite IH. split; intros [post H]; exists post; [now rewrite H | now injection H].
    + split; [discriminate|]. intros [post H]. injection H as H1 H2. congruence.
Qed.

Lemma includes_unfold (s sub : string) :
  includes s sub
  = String.prefix sub s ||
    match s with
    | EmptyString => false
    | String _ s' => includes s' sub
    end.
Proof. destruct s; reflexivity. Qed.

Lemma includes_spec (s sub : string) :
  includes s sub = true <-> exists pre post, s = (pre ++ sub ++ post)%string.
Proof.
  induction s as [|c s IH]; rewrite includes_unfold.
  - rewrite orb_false_r, prefix_spec. split.
    + intros [post H]. now exists EmptyString, post.
    + intros [pre [post H]]. destruct pre; [now exists post | discriminate].
  - rewrite orb_true_iff, IH, prefix_spec. split.
    + intros [[post H]|[pre [post H]]].
      * now exists EmptyString, post.
      * exists (String c pre), post. simpl. now rewrite H.
    + intros [pre [post H]]. destruct pre as [|c' pre].
      * left. now exists post.
      * right. exists pre, post. simpl in H. now injection H.
Qed.

Section SearchFacts.
Variable toLowerCase : string -> string.

Lemma nameMatches_spec query node :
  nameMatches toLowerCase (toLowerCase query) node = true <->
  containsIgnoringCase toLowerCase (sym_name node) query.
Proof. apply includes_spec. Qed.

Lemma fileMatches_spec query node :
  fileMatches toLowerCase (toLowerCase query) node = true <->
  containsIgnoringCase toLowerCase (sym_file node) query.
Proof. apply includes_spec. Qed.

Lemma collectHit_app lowerQuery type results entry :
  collectHit toLowerCase lowerQuery type results entry
  = results ++ hitOf toLowerCase lowerQuery type entry.
Proof.
  unfold hitOf, collectHit. destruct entry as [id node].
  destruct (typeRejects type node); [now rewrite app_nil_r|].
  destruct (_ || _); [reflexivity | now rewrite app_nil_r].
Qed.

Lemma collected_hits lowerQuery type (l : JSMap.t Symbol) results :
  fold_left (collectHit toLowerCase lowerQuery type) l results
  = results ++ flat_map (hitOf toLowerCase lowerQuery type) l.
Proof.
  revert results. induction l as [|entry l IH]; intros results; simpl.
  - now rewrite app_nil_r.
  - rewrite IH, collectHit_app. now rewrite <- app_assoc.
Qed.

Lemma hitOf_score lowerQuery type entry h :
  In h (hitOf toLowerCase lowerQuery type entry) ->
  hit_id h = fst entry /\ hit_node h = snd entry /\
  typeRejects type (snd entry) = false /\
  nameMatches toLowerCase lowerQuery (snd entry)
  || fileMatches toLowerCase lowerQuery (snd entry) = true /\
  score h = (if nameMatches toLowerCase lowerQuery (snd entry) then 2 else 1)%Z.
Proof.
  unfold hitOf, collectHit. destruct entry as [id node]. simpl.
  destruct (typeRejects type node); [intros []|].
  destruct (_ || _) eqn:Hmatch; [|intros []].
  intros [<-|[]]. simpl. auto.
Qed.
End SearchFacts.

Lemma insert_top x l :
  score x = 2%Z -> Forall (fun h => (score h <= 2)%Z) l ->
  insertSorted byScore x l = x :: l.
Proof.
  intros Hx Hl. destruct l as [|y l]; [reflexivity|]. simpl.
  inversion Hl as [|? ? Hy _]; subst. unfold byScore. rewrite Hx.
  destruct (Z.leb_spec (score y - 2) 0); [reflexivity | lia].
Qed.

Lemma insert_below x twos ones :
  score x = 1%Z ->
  Forall (fun h => score h = 2%Z) twos -> Forall (fun h => score h = 1%Z) ones ->
  insertSorted byScore x (twos ++ ones) = twos ++ x :: ones.
Proof.
  intros Hx Htwos Hones. induction Htwos as [|y twos Hy _ IH]; simpl.
  - destruct ones as [|y ones]; [reflexivity|]. simpl.
    inversion Hones as [|? ? Hy _]; subst. unfold byScore. rewrite Hx, Hy. reflexivity.
  - unfold byScore at 1. rewrite Hx, Hy. simpl. now rewrite IH.
Qed.

(** Sorting hits whose scores are 1 or 2: the hits of score 2 in their
    order, then the hits of score 1 in their order. *)
Lemma sort_two_scores l :
  Forall (fun h => score h = 2%Z \/ score h = 1%Z) l ->
  sortBy byScore l
  = filter (fun h => (score h =? 2)%Z) l ++ filter (fun h => (score h =? 1)%Z) l.
Proof.
  induction 1 as [|x l Hx _ IH]; [reflexivity|]. simpl. rewrite IH.
  assert (Htwos : Forall (fun h => score h = 2%Z) (filter (fun h => (score h =? 2)%Z) l)).
  { apply Forall_forall. intros h Hh. apply filter_In in Hh. now apply Z.eqb_eq. }
  assert (Hones : Forall (fun h => score h = 1%Z) (filter (fun h => (score h =? 1)%Z) l)).
  { apply Forall_forall. intros h Hh. apply filter_In in Hh. now apply Z.eqb_eq. }
  destruct Hx as [Hx|Hx]; rewrite Hx; simpl.
  - apply insert_top; [exact Hx|]. apply Forall_app. split.
    + eapply Forall_impl; [|exact Htwos]. simpl. intros h Hh. lia.
    + eapply Forall_impl; [|exact Hones]. simpl. intros h Hh. lia.
  - now apply insert_below.
Qed.

Section SearchResults.
Variable toLowerCase : string -> string.

Lemma typeRejects_spec type node :
  typeRejects type node = false <->
  (forall t, type = Some t -> t <> "" -> typeName (sym_type node) = t).
Proof.
  unfold typeRejects. destruct type as [t|].
  - destruct (String.eqb_spec t "") as [->|Hne]; simpl.
    + split; [intros _ t [= <-] H; congruence | reflexivity].
    + destruct (String.eqb_spec (typeName (sym_type node)) t) as [Heq|Hneq]; simpl.
      * split; [intros _ t' [= <-] _; exact Heq | reflexivity].
      * split; [discriminate | intros H; exfalso; apply Hneq; now apply H].
  - split; [intros _ t [=] | reflexivity].
Qed.

Lemma hits_spec g query type h :
  In h (flat_map (hitOf toLowerCase (toLowerCase query) type) (nodes g)) <->
  isHit toLowerCase g query type h.
Proof.
  rewrite in_flat_map. unfold isHit. split.
  - intros [[id node] [Hentry Hh]].
    apply hitOf_score in Hh. simpl in Hh.
    destruct Hh as (Hid & Hnode & Hrej & Hmatch & Hscore). rewrite Hid, Hnode.
    split; [exact Hentry|]. split; [now apply typeRejects_spec|].
    destruct (nameMatches toLowerCase (toLowerCase query) node) eqn:Hname.
    + left. split; [now apply nameMatches_spec | exact Hscore].
    + right. simpl in Hmatch. split; [|split; [now apply fileMatches_spec | exact Hscore]].
      intros Hc. apply nameMatches_spec in Hc. congruence.
  - intros (Hentry & Htype & Hmatch).
    exists (hit_id h, hit_node h). split; [exact Hentry|].
    unfold hitOf, collectHit.
    rewrite (proj2 (typeRejects_spec type (hit_node h)) Htype).
    destruct h as [id node sc]. simpl in *.
    destruct Hmatch as [[Hname Hsc]|(Hname & Hfile & Hsc)].
    + apply nameMatches_spec in Hname. rewrite Hname. simpl. left. now rewrite Hsc.
    + apply fileMatches_spec in Hfile. rewrite Hfile.
      destruct (nameMatches toLowerCase (toLowerCase query) node) eqn:Hn.
      * exfalso. apply Hname. now apply nameMatches_spec.
      * simpl. left. now rewrite Hsc.
Qed.

Lemma searchNodes_sorted g query type :
  searchNodes toLowerCase g query type
  = filter (fun h => (score h =? 2)%Z)
      (flat_map (hitOf toLowerCase (toLowerCase query) type) (nodes g)) ++
    filter (fun h => (score h =? 1)%Z)
      (flat_map (hitOf toLowerCase (toLowerCase query) type) (nodes g)).
Proof.
  unfold searchNodes. rewrite collected_hits. simpl.
  apply (sort_two_scores (flat_map (hitOf toLowerCase (toLowerCase query) type) (nodes g))).
  apply Forall_forall. intros h Hh. apply hits_spec in Hh.
  destruct Hh as (_ & _ & [[_ Hs]|(_ & _ & Hs)]); auto.
Qed.
End SearchResults.

(** C8.  [searchNodes] returns exactly the hits for the query: the nodes
    that pass the optional type filter and whose name or file path contains
    the query, letter case ignored, with score 2 when the name matches and
    score 1 when only the file path does; in the list returned every hit of
    score 2 comes before every hit of score 1. *)
Theorem search_ranks_names_first :
  forall toLowerCase g query type,
    exists byName byFile,
      searchNodes toLowerCase g query type = byName ++ byFile /\
      Forall (fun h => score h = 2%Z /\
                       containsIgnoringCase toLowerCase (sym_name (hit_node h)) query) byName /\
      Forall (fun h => score h = 1%Z /\
                       ~ containsIgnoringCase toLowerCase (sym_name (hit_node h)) query /\
                       containsIgnoringCase toLowerCase (sym_file (hit_node h)) query) byFile /\
      (forall h,
         In h (searchNodes toLowerCase g query type) <-> isHit toLowerCase g query type h).
Proof.
  intros toLowerCase g query type. rewrite searchNodes_sorted.
  set (hits := flat_map (hitOf toLowerCase (toLowerCase query) type) (nodes g)).
  exists (filter (fun h => (score h =? 2)%Z) hits), (filter (fun h => (score h =? 1)%Z) hits).
  split; [reflexivity|]. split; [|split].
  - apply Forall_forall. intros h Hh. apply filter_In in Hh. destruct Hh as [Hh Hs].
    apply Z.eqb_eq in Hs. split; [exact Hs|].
    apply hits_spec in Hh. destruct Hh as (_ & _ & [[Hn _]|(_ & _ & Hs')]); [exact Hn | lia].
  - apply Forall_forall. intros h Hh. apply filter_In in Hh. destruct Hh as [Hh Hs].
    apply Z.eqb_eq in Hs. split; [exact Hs|].
    apply hits_spec in Hh. destruct Hh as (_ & _ & [[_ Hs']|(Hn & Hf & _)]); [lia | auto].
  - intros h. rewrite <- hits_spec. fold hits. rewrite in_app_iff, !filter_In. split.
    + intros [[Hh _]|[Hh _]]; exact Hh.
    + intros Hh. pose proof Hh as Hh'. apply hits_spec in Hh'.
      destruct Hh' as (_ & _ & [[_ Hs]|(_ & _ & Hs)]).
      * left. split; [exact Hh | now apply Z.eqb_eq].
      * right. split; [exact Hh | now apply Z.eqb_eq].
Qed.

(** The query [UTIL] on the store [searched]: the two nodes named like the
    query come first, in insertion order, then the node matching by its file
    path only. *)
Example search_util :
  map (fun h => (hit_id h, score h)) (searchNodes asciiLowerCase Scenario.searched "UTIL" None)
  = [("src/app.js:util:2", 2%Z); ("lib/x.js:Utility:3", 2%Z); ("src/util.js:run:1", 1%Z)] /\
  map hit_id (searchNodes asciiLowerCase Scenario.searched "util" (Some "class"))
  = ["lib/x.js:Utility:3"].
Proof. split; reflexivity. Qed.

(** ** The cache *)

Section CacheFacts.
Variable md5hex : string -> string.
Variable JSON_parse : string -> option Document.

Lemma cacheDir_ensure s name :
  hasCacheEntry (cacheDir (ensureDbDirectory s)) name = hasCacheEntry (cacheDir s) name.
Proof.
  unfold ensureDbDirectory. destruct (cacheDir s) eqn:Hdir; simpl; now rewrite ?Hdir.
Qed.

Lemma codeGraph_ensure s : codeGraph (ensureDbDirectory s) = codeGraph s.
Proof. unfold ensureDbDirectory. now destruct (cacheDir s). Qed.

Lemma unlink_missing d name : hasCacheEntry d name = false -> fs_unlink d name = Thrown ENOENT.
Proof.
  unfold hasCacheEntry, fs_unlink. destruct d as [files|]; [|reflexivity].
  intros H. apply JSMapFacts.has_false_get in H. now rewrite H.
Qed.

Lemma readFile_missing d name :
  hasCacheEntry d name = false -> fs_readFile d name = Thrown ENOENT.
Proof.
  unfold hasCacheEntry, fs_readFile. destruct d as [files|]; [|reflexivity].
  intros H. apply JSMapFacts.has_false_get in H. now rewrite H.
Qed.

(** Deleting where there is nothing to delete, for any path. *)
Lemma deleteGraph_missing projectPath s :
  hasCacheEntry (cacheDir s) (cacheFileName md5hex projectPath) = false ->
  deleteGraph md5hex projectPath s = (Returned false, ensureDbDirectory s).
Proof.
  intros Hmissing. unfold deleteGraph.
  rewrite unlink_missing; [reflexivity|]. now rewrite cacheDir_ensure.
Qed.

(** [deleteGraph] throws only when the entry is there and the file system
    refuses to remove it. *)
Lemma deleteGraph_throws projectPath s e s' :
  deleteGraph md5hex projectPath s = (Thrown e, s') ->
  e = EPERM /\ hasCacheEntry (cacheDir s) (cacheFileName md5hex projectPath) = true.
Proof.
  unfold deleteGraph. rewrite <- (cacheDir_ensure s).
  unfold fs_unlink, hasCacheEntry, JSMap.has.
  destruct (cacheDir (ensureDbDirectory s)) as [files|]; [|discriminate].
  destruct (JSMap.get files _) as [f|]; [|discriminate].
  destruct (removable f); [discriminate|]. intros [= <- _]. auto.
Qed.

(** The global store changes hands only when the file was read and parsed
    and [fromJSON] returned. *)
Lemma loadGraph_outcome projectPath s :
  (fst (loadGraph md5hex JSON_parse projectPath s) = false /\
   snd (loadGraph md5hex JSON_parse projectPath s) = ensureDbDirectory s) \/
  (exists data parsed graph,
     fs_readFile (cacheDir (ensureDbDirectory s)) (cacheFileName md5hex projectPath)
     = Returned data /\
     JSON_parse data = Some parsed /\
     fromJSON parsed = Some graph /\
     loadGraph md5hex JSON_parse projectPath s
     = (true, withGraph (ensureDbDirectory s) graph)).
Proof.
  unfold loadGraph.
  destruct (fs_readFile _ _) as [data|e].
  - destruct (JSON_parse data) as [parsed|] eqn:Hparse.
    + destruct (fromJSON parsed) as [graph|] eqn:Hload.
      * right. now exists data, parsed, graph.
      * left. now split.
    + left. now split.
  - left. destruct e; now split.
Qed.
End CacheFacts.

(** C9, as stated, fails for the empty project path: it has no cache entry,
    yet [clear_cache] with that path does not report that no cache was
    found.  The handler tests [if (projectPath)], takes the empty string for
    a missing path and clears all caches: here it deletes the entry of the
    project [/project]. *)
Lemma delete_missing_entry_counterexample :
  hasCacheEntry
    (cacheDir (afterSave Posix.join Scenario.digest CacheScenario.tagPrinter
                 "t3" "/project" CacheScenario.serverA))
    (cacheFileName Scenario.digest "") = false /\
  hasCacheEntry
    (cacheDir (afterSave Posix.join Scenario.digest CacheScenario.tagPrinter
                 "t3" "/project" CacheScenario.serverA))
    (cacheFileName Scenario.digest "/project") = true /\
  fst (clear_cache Scenario.digest CacheScenario.tagParser (Some "")
         (afterSave Posix.join Scenario.digest CacheScenario.tagPrinter
            "t3" "/project" CacheScenario.serverA))
  = Reply true "Cleared 1 cached graphs" /\
  cacheDir
    (snd (clear_cache Scenario.digest CacheScenario.tagParser (Some "")
            (afterSave Posix.join Scenario.digest CacheScenario.tagPrinter
               "t3" "/project" CacheScenario.serverA)))
  = Some [].
Proof. repeat split; reflexivity. Qed.

(** C9, amended.  Deleting the cache entry of a project path that has none
    is not an error: [deleteGraph] returns [false] for every such path, and
    for every such path that is not empty [clear_cache] replies that no cache
    was found; neither throws, and nothing but the creation of the cache
    directory changes.  With the empty path [clear_cache] does what it does
    without a path. *)
Theorem delete_missing_entry :
  forall md5hex JSON_parse projectPath s,
    hasCacheEntry (cacheDir s) (cacheFileName md5hex projectPath) = false ->
    deleteGraph md5hex projectPath s = (Returned false, ensureDbDirectory s) /\
    (projectPath <> "" ->
     clear_cache md5hex JSON_parse (Some projectPath) s
     = (Reply false "No cache found for project", ensureDbDirectory s)) /\
    clear_cache md5hex JSON_parse (Some "") s = clear_cache md5hex JSON_parse None s.
Proof.
  intros md5hex JSON_parse projectPath s Hmissing.
  pose proof (deleteGraph_missing md5hex projectPath s Hmissing) as Hdelete.
  split; [exact Hdelete|]. split; [|reflexivity].
  intros Hpath. unfold clear_cache, truthy.
  destruct (String.eqb_spec projectPath "") as [Heq|_]; [contradiction|].
  simpl. now rewrite Hdelete.
Qed.

Lemma delete_missing_entry_witness :
  deleteGraph Scenario.digest "/project" Scenario.brokenCache
  = (Returned false, Scenario.brokenCache) /\
  clear_cache Scenario.digest Scenario.parser (Some "/project") Scenario.brokenCache
  = (Reply false "No cache found for project", Scenario.brokenCache).
Proof.
  destruct (delete_missing_entry Scenario.digest Scenario.parser "/project"
              Scenario.brokenCache) as (Hdelete & Hclear & _).
  - reflexivity.
  - split; [exact Hdelete | apply Hclear; discriminate].
Defined.

(** C10.  When the cache entry of the project path is absent, or is there
    with a text that [JSON.parse] rejects, [loadGraph] returns [false] and
    the current store is the one it was. *)
Theorem load_failure_keeps_store :
  forall md5hex JSON_parse projectPath s,
    hasCacheEntry (cacheDir s) (cacheFileName md5hex projectPath) = false \/
    malformedEntry JSON_parse (cacheDir s) (cacheFileName md5hex projectPath) ->
    fst (loadGraph md5hex JSON_parse projectPath s) = false /\
    codeGraph (snd (loadGraph md5hex JSON_parse projectPath s)) = codeGraph s.
Proof.
  intros md5hex JSON_parse projectPath s Hfail. unfold loadGraph.
  destruct Hfail as [Hmissing|(files & f & Hdir & Hfile & Hread & Hparse)].
  - rewrite readFile_missing by now rewrite cacheDir_ensure.
    simpl. split; [reflexivity | apply codeGraph_ensure].
  - unfold ensureDbDirectory, fs_readFile. rewrite Hdir. simpl.
    rewrite Hdir, Hfile, Hread, Hparse. simpl. now split.
Qed.

Lemma load_failure_keeps_store_witness :
  fst (loadGraph Scenario.digest Scenario.parser "/broken" Scenario.brokenCache) = false /\
  codeGraph (snd (loadGraph Scenario.digest Scenario.parser "/broken" Scenario.brokenCache))
  = codeGraph Scenario.brokenCache.
Proof.
  apply (load_failure_keeps_store Scenario.digest Scenario.parser "/broken"
           Scenario.brokenCache).
  right. exists [("graph_/broken.json", mkCacheFile "{ nodes: [" true true)],
    (mkCacheFile "{ nodes: [" true true).
  repeat split; reflexivity.
Defined.

(** A well-formed entry replaces the store. *)
Example load_replaces_store_on_success :
  let s :=
    {| codeGraph := Scenario.build Scenario.filesA;
       dbPath := "./db";
       cacheDir := Some [("graph_/empty.json", mkCacheFile "{}" true true)] |} in
  fst (loadGraph Scenario.digest Scenario.parser "/empty" s) = true /\
  nodes (codeGraph (snd (loadGraph Scenario.digest Scenario.parser "/empty" s))) = [].
Proof. split; reflexivity. Qed.

(** ** Further scenarios of the design document *)

(** Scenario B: the [extends] edge from [Derived] to [Base]. *)
Example scenario_B_edges :
  allEdges (Scenario.build Scenario.filesB) = [Scenario.extendsEdgeB].
Proof. reflexivity. Qed.

(** Scenario C: a class extending a class that is declared nowhere gets no
    edge. *)
Example scenario_C_no_edge :
  allEdges
    (Scenario.build
       [("orphan.js",
         Some (mkParsed [Scenario.class_ "orphan.js" "Orphan" 1 (Some "Missing")] [] []))])
  = [].
Proof. reflexivity. Qed.

(** A file that could not be read contributes nothing. *)
Example skipped_file_contributes_nothing :
  Scenario.build (("big.js", None) :: Scenario.filesA) = Scenario.build Scenario.filesA.
Proof. reflexivity. Qed.

(** * Further properties of the engine *)

(** ** Nodes of a built store *)

Lemma get_set_cases {V : Type} (m : JSMap.t V) k v k' v' :
  JSMap.get (JSMap.set m k v) k' = Some v' ->
  (k' = k /\ v' = v) \/ JSMap.get m k' = Some v'.
Proof.
  destruct (String.eqb_spec k k') as [->|Hne].
  - rewrite JSMapFacts.get_set_eq. intros [= ->]. now left.
  - rewrite JSMapFacts.get_set_neq by exact Hne. now right.
Qed.

Lemma parseAll_sound files g0 id data :
  JSMap.get (nodes (snd (parseAll files g0))) id = Some data ->
  JSMap.get (nodes g0) id = Some data \/ declares files id data.
Proof.
  revert id data. unfold parseAll.
  apply (fold_left_inv
           (fun r : JSMap.t Parsed * CodeGraph =>
              forall id data,
                JSMap.get (nodes (snd r)) id = Some data ->
                JSMap.get (nodes g0) id = Some data \/ declares files id data)).
  - intros id data H. now left.
  - intros [fd g] [file [parsed|]] Hfile IH; simpl in *; [|exact IH].
    unfold addSymbols.
    apply (fold_left_inv
             (fun a : CodeGraph =>
                forall id data,
                  JSMap.get (nodes a) id = Some data ->
                  JSMap.get (nodes g0) id = Some data \/ declares files id data));
      [exact IH|].
    intros a s Hs Ha id data. destruct (isType TCall s) eqn:Hcall; simpl; [apply Ha|].
    intros Hget. apply get_set_cases in Hget. destruct Hget as [[-> ->]|Hget]; [|now apply Ha].
    right. now exists file, parsed.
Qed.

Lemma parseAll_complete files g0 id sym :
  declares files id sym -> isNode (snd (parseAll files g0)) id.
Proof.
  intros (file & parsed & Hfile & Hsym & Hcall & ->). unfold parseAll.
  apply (fold_left_hit (fun _ => True)
           (fun r : JSMap.t Parsed * CodeGraph =>
              isNode (snd r) (nodeIdOf file (sym_name sym) (sym_line sym)))
           _ files (file, Some parsed)); auto.
  - intros [fd g] _. simpl. now apply addSymbols_adds.
  - intros [fd g] [file' [parsed'|]] _ Hg; simpl in *; [|exact Hg].
    now apply addSymbols_keeps.
Qed.

Section BuiltStoreFacts.
Variable path_dirname : string -> string.
Variable path_join : string -> string -> string.
Variable md5hex : string -> string.
Variable JSON_stringify : Document -> string.

Lemma populate_nodes now files :
  nodes (populate path_dirname path_join now files)
  = nodes (snd (parseAll files (newCodeGraph now))).
Proof. apply (grownBy_nodes _ _ _ (populate_grown path_dirname path_join now files)). Qed.

(** [saveGraph] at the end of a build touches the hash and the metadata
    only. *)
Lemma builtStore_contents now0 now1 rootPath files s :
  edges (builtStore path_dirname path_join md5hex JSON_stringify now0 now1 rootPath files s)
  = edges (populate path_dirname path_join now0 files) /\
  reverseEdges (builtStore path_dirname path_join md5hex JSON_stringify
                  now0 now1 rootPath files s)
  = reverseEdges (populate path_dirname path_join now0 files) /\
  fileIndex (builtStore path_dirname path_join md5hex JSON_stringify
               now0 now1 rootPath files s)
  = fileIndex (populate path_dirname path_join now0 files).
Proof.
  unfold builtStore, buildCodeGraph, saveGraph, ensureDbDirectory, withGraph, withDir.
  unfold fs_writeFile. simpl.
  destruct (cacheDir s) as [dir|]; simpl; [|auto].
  destruct (JSMap.get dir _); auto.
Qed.
End BuiltStoreFacts.

(** X1.  The nodes of a built store are the declarations of the parsed
    files: every declaration has its node, and the data of every node is a
    declaration whose file, name and line make up the node id; a call fact
    is never a node. *)
Theorem build_nodes_are_declarations :
  forall path_dirname path_join md5hex JSON_stringify now0 now1 rootPath files s,
    (forall id sym,
       declares files id sym ->
       isNode (builtStore path_dirname path_join md5hex JSON_stringify
                 now0 now1 rootPath files s) id) /\
    (forall id data,
       JSMap.get (nodes (builtStore path_dirname path_join md5hex JSON_stringify
                           now0 now1 rootPath files s)) id = Some data ->
       declares files id data).
Proof.
  intros. split.
  - intros id sym Hdecl. unfold isNode. rewrite builtStore_nodes, populate_nodes.
    now apply (parseAll_complete files _ id sym).
  - intros id data. rewrite builtStore_nodes, populate_nodes. intros Hget.
    apply parseAll_sound in Hget. destruct Hget as [Hget|Hdecl]; [discriminate | exact Hdecl].
Qed.

(** ** The reverse index of a built store *)

(** X2.  After a build the reverse index holds exactly the forward edges:
    the triples of [reverseEdges] are the triples of [edges], counted with
    multiplicity. *)
Theorem build_reverse_index_mirrors :
  forall path_dirname path_join md5hex JSON_stringify now0 now1 rootPath files s,
    Permutation
      (allReverseEdges (builtStore path_dirname path_join md5hex JSON_stringify
                          now0 now1 rootPath files s))
      (allEdges (builtStore path_dirname path_join md5hex JSON_stringify
                   now0 now1 rootPath files s)).
Proof.
  intros. unfold allReverseEdges, allEdges.
  destruct (builtStore_contents path_dirname path_join md5hex JSON_stringify
              now0 now1 rootPath files s) as (-> & -> & _).
  apply (mirrored_populate path_dirname path_join now0 files).
Qed.

(** ** Inheritance and import resolution *)

Lemma grownBy_filter_kept (p : EdgeDoc -> bool) g g' :
  grownBy (fun e => p e = false) g g' ->
  Permutation (filter p (allEdges g')) (filter p (allEdges g)).
Proof.
  induction 1 as [|g' from to type Hgrown IH HQ]; [reflexivity|].
  rewrite (Permutation_filter _ _ _ (allEdges_addEdge g' from to type)).
  rewrite filter_app. simpl. rewrite HQ. now rewrite app_nil_r.
Qed.

Lemma flat_map_checked {A B C : Type} (c : A -> bool) (i : A -> B) (h : B -> bool)
    (m : B -> C) (l : list A) :
  flat_map (fun s => if c s then if h (i s) then [m (i s)] else [] else []) l
  = map m (filter h (map i (filter c l))).
Proof.
  induction l as [|x l IH]; simpl; [reflexivity|].
  destruct (c x); simpl; [|exact IH].
  destruct (h (i x)); simpl; now rewrite IH.
Qed.

Lemma linkImport_perm g0 file imp normalizedPath targetData g :
  nodes g = nodes g0 ->
  nodes (linkImport file imp normalizedPath targetData g) = nodes g0 /\
  Permutation
    (allEdges (linkImport file imp normalizedPath targetData g))
    (allEdges g ++
     map (fun target => mkEdgeDoc (importSiteId file (imp_line imp)) target Imports)
         (filter (JSMap.has (nodes g0))
            (map (fun s => nodeIdOf normalizedPath (sym_name s) (sym_line s))
               (filter (importMatches imp targetData) (symbols targetData))))).
Proof.
  intros Hg. unfold linkImport.
  rewrite <- (flat_map_checked (importMatches imp targetData)
                (fun s => nodeIdOf normalizedPath (sym_name s) (sym_line s))
                (JSMap.has (nodes g0))
                (fun target => mkEdgeDoc (importSiteId file (imp_line imp)) target Imports)).
  apply (fold_left_perm allEdges (fun a => nodes a = nodes g0)); [exact Hg|].
  intros a s _ Ha. fold (importMatches imp targetData s).
  destruct (importMatches imp targetData s); [|split; [exact Ha | now rewrite app_nil_r]].
  rewrite Ha.
  destruct (JSMap.has (nodes g0) _); [|split; [exact Ha | now rewrite app_nil_r]].
  split; [exact Ha | apply allEdges_addEdge].
Qed.

(** The same, read off the reverse index. *)
Lemma linkImport_perm_reverse g0 file imp normalizedPath targetData g :
  nodes g = nodes g0 ->
  Permutation
    (allReverseEdges (linkImport file imp normalizedPath targetData g))
    (allReverseEdges g ++
     map (fun target => mkEdgeDoc (importSiteId file (imp_line imp)) target Imports)
         (filter (JSMap.has (nodes g0))
            (map (fun s => nodeIdOf normalizedPath (sym_name s) (sym_line s))
               (filter (importMatches imp targetData) (symbols targetData))))).
Proof.
  intros Hg. unfold linkImport.
  rewrite <- (flat_map_checked (importMatches imp targetData)
                (fun s => nodeIdOf normalizedPath (sym_name s) (sym_line s))
                (JSMap.has (nodes g0))
                (fun target => mkEdgeDoc (importSiteId file (imp_line imp)) target Imports)).
  apply (fold_left_perm allReverseEdges (fun a => nodes a = nodes g0)); [exact Hg|].
  intros a s _ Ha. fold (importMatches imp targetData s).
  destruct (importMatches imp targetData s); [|split; [exact Ha | now rewrite app_nil_r]].
  rewrite Ha.
  destruct (JSMap.has (nodes g0) _); [|split; [exact Ha | now rewrite app_nil_r]].
  split; [exact Ha | apply allReverseEdges_addEdge].
Qed.

(** C7.  For a relative import, the candidates are the resolved path with
    each of [.js], [.ts], [.jsx], [.tsx], [/index.js], [/index.ts] appended,
    in that order (a leading [./] dropped).  When [chosen] is the first
    candidate that is a parsed file, the import is linked against [chosen]
    whatever the later candidates are: the edges it adds, to the forward and
    to the reverse index, are one [imports] edge from the import site to the
    node id [chosen:name:line] of each symbol fact of [chosen] that passes the
    test of the import and whose id is a node, and nothing else; the nodes
    stay. *)
Theorem import_resolution_first_candidate :
  forall path_dirname path_join fileData file imp g before chosen after targetData,
    startsWith (imp_source imp) "." = true ->
    map (fun suffix =>
           stripDotSlash
             (resolveSource path_dirname path_join file (imp_source imp) ++ suffix)%string)
        [".js"; ".ts"; ".jsx"; ".tsx"; "/index.js"; "/index.ts"]
    = before ++ chosen :: after ->
    (forall c, In c before -> JSMap.has fileData c = false) ->
    JSMap.get fileData chosen = Some targetData ->
    nodes (connectImport path_dirname path_join fileData file imp g) = nodes g /\
    Permutation
      (forwardEdges (connectImport path_dirname path_join fileData file imp g))
      (forwardEdges g ++
       map (fun target => mkEdgeDoc (importSiteId file (imp_line imp)) target Imports)
           (filter (JSMap.has (nodes g))
              (map (fun s => nodeIdOf chosen (sym_name s) (sym_line s))
                 (filter (importMatches imp targetData) (symbols targetData))))) /\
    Permutation
      (allReverseEdges (connectImport path_dirname path_join fileData file imp g))
      (allReverseEdges g ++
       map (fun target => mkEdgeDoc (importSiteId file (imp_line imp)) target Imports)
           (filter (JSMap.has (nodes g))
              (map (fun s => nodeIdOf chosen (sym_name s) (sym_line s))
                 (filter (importMatches imp targetData) (symbols targetData))))).
Proof.
  intros path_dirname path_join fileData file imp g before chosen after targetData
         Hrel Hsplit Hbefore Hchosen.
  unfold connectImport. rewrite Hrel.
  rewrite (tryCandidates_first fileData file imp g
             (possibleFiles (resolveSource path_dirname path_join file (imp_source imp)))
             before chosen after targetData Hsplit Hbefore Hchosen).
  destruct (linkImport_perm g file imp chosen targetData g eq_refl) as [Hnodes Hedges].
  split; [exact Hnodes|]. split.
  - unfold forwardEdges. rewrite <- !edgesArray_flatten. exact Hedges.
  - now apply linkImport_perm_reverse.
Qed.

Lemma import_resolution_first_candidate_witness :
  nodes (connectImport Posix.dirname Posix.join (fileDataOf Scenario.filesShadow)
           "lib/b.js" Scenario.importShadow
           (snd (parseAll Scenario.filesShadow (newCodeGraph "t"))))
  = [ ("lib/a/index.js:a:3", Scenario.function_ "lib/a/index.js" "a" 3);
      ("lib/a.ts:a:7", Scenario.function_ "lib/a.ts" "a" 7) ] /\
  Permutation
    (forwardEdges
       (connectImport Posix.dirname Posix.join (fileDataOf Scenario.filesShadow)
          "lib/b.js" Scenario.importShadow
          (snd (parseAll Scenario.filesShadow (newCodeGraph "t")))))
    [mkEdgeDoc "lib/b.js:import:1" "lib/a.ts:a:7" Imports] /\
  Permutation
    (allReverseEdges
       (connectImport Posix.dirname Posix.join (fileDataOf Scenario.filesShadow)
          "lib/b.js" Scenario.importShadow
          (snd (parseAll Scenario.filesShadow (newCodeGraph "t")))))
    [mkEdgeDoc "lib/b.js:import:1" "lib/a.ts:a:7" Imports].
Proof.
  apply (import_resolution_first_candidate Posix.dirname Posix.join
           (fileDataOf Scenario.filesShadow) "lib/b.js" Scenario.importShadow
           (snd (parseAll Scenario.filesShadow (newCodeGraph "t")))
           ["lib/a.js"] "lib/a.ts"
           ["lib/a.jsx"; "lib/a.tsx"; "lib/a/index.js"; "lib/a/index.ts"]
           (mkParsed [Scenario.function_ "lib/a.ts" "a" 7] [] [])).
  - reflexivity.
  - reflexivity.
  - intros c [<-|[]]. reflexivity.
  - reflexivity.
Defined.

Lemma tryCandidates_perm g0 fileData file imp candidates g :
  nodes g = nodes g0 ->
  nodes (tryCandidates fileData file imp candidates g) = nodes g0 /\
  Permutation
    (allEdges (tryCandidates fileData file imp candidates g))
    (allEdges g ++
     match find (fun c => JSMap.has fileData c) (map stripDotSlash candidates) with
     | Some normalizedPath =>
         match JSMap.get fileData normalizedPath with
         | Some targetData =>
             map (fun target => mkEdgeDoc (importSiteId file (imp_line imp)) target Imports)
                 (filter (JSMap.has (nodes g0))
                    (map (fun s => nodeIdOf normalizedPath (sym_name s) (sym_line s))
                       (filter (importMatches imp targetData) (symbols targetData))))
         | None => []
         end
     | None => []
     end).
Proof.
  intros Hg. induction candidates as [|c rest IH]; simpl.
  - split; [exact Hg | now rewrite app_nil_r].
  - unfold JSMap.has at 1.
    destruct (JSMap.get fileData (stripDotSlash c)) as [targetData|] eqn:Hget.
    + rewrite Hget. now apply linkImport_perm.
    + exact IH.
Qed.

Section ResolutionFacts.
Variable path_dirname : string -> string.
Variable path_join : string -> string -> string.

Lemma connectImport_perm g0 fileData file imp g :
  nodes g = nodes g0 ->
  nodes (connectImport path_dirname path_join fileData file imp g) = nodes g0 /\
  Permutation
    (allEdges (connectImport path_dirname path_join fileData file imp g))
    (allEdges g ++
     importEdgesFor g0 fileData
       (resolveSource path_dirname path_join file (imp_source imp)) file imp).
Proof.
  intros Hg. unfold connectImport, importEdgesFor.
  destruct (startsWith (imp_source imp) ".").
  - now apply tryCandidates_perm.
  - split; [exact Hg | now rewrite app_nil_r].
Qed.

(** The three loops of [relateFile], each seen through the edges of one
    type. *)
Lemma relateFile_loops g0 fileData file data g :
  declared fileData g0 -> nodes g = nodes g0 ->
  exists g1 g2,
    nodes g1 = nodes g0 /\ nodes g2 = nodes g0 /\
    Permutation (allEdges g1)
      (allEdges g ++
       flat_map
         (fun imp =>
            importEdgesFor g0 fileData
              (resolveSource path_dirname path_join file (imp_source imp)) file imp)
         (imports data)) /\
    grownBy (fun e => ed_type e = Calls) g1 g2 /\
    nodes (relateFile path_dirname path_join fileData g (file, data)) = nodes g0 /\
    Permutation (allEdges (relateFile path_dirname path_join fileData g (file, data)))
      (allEdges g2 ++ flat_map (extendsEdgesFor fileData file) (symbols data)).
Proof.
  intros Hdecl Hg. unfold relateFile.
  set (g1 := fold_left _ (imports data) g).
  set (g2 := fold_left _ (symbols data) g1).
  exists g1, g2.
  assert (H1 : nodes g1 = nodes g0 /\
               Permutation (allEdges g1)
                 (allEdges g ++
                  flat_map
                    (fun imp =>
                       importEdgesFor g0 fileData
                         (resolveSource path_dirname path_join file (imp_source imp)) file imp)
                    (imports data))).
  { apply (fold_left_perm allEdges (fun a => nodes a = nodes g0)); [exact Hg|].
    intros a imp _ Ha. now apply connectImport_perm. }
  destruct H1 as [Hn1 Hp1].
  assert (H2 : grownBy (fun e => ed_type e = Calls) g1 g2).
  { apply grownBy_fold; [constructor|].
    intros a symbol _ Ha. destruct (isType TCall symbol); [|exact Ha].
    apply scanDeclarations_grown; [|exact Ha]. reflexivity. }
  assert (Hn2 : nodes g2 = nodes g0) by now rewrite (grownBy_nodes _ _ _ H2).
  split; [exact Hn1|]. split; [exact Hn2|]. split; [exact Hp1|]. split; [exact H2|].
  apply (fold_left_perm allEdges (fun a => nodes a = nodes g0)); [exact Hn2|].
  intros a c _ Ha. unfold extendsEdgesFor.
  destruct (sym_extends c) as [parent|]; simpl.
  - destruct (isType TClass c && negb (String.eqb parent ""));
      [|split; [exact Ha | now rewrite app_nil_r]].
    apply (scanDeclarations_perm g0 fileData (isClassNamed parent)); [exact Hdecl| |exact Ha].
    intros s Hs. unfold isClassNamed, isType in *.
    destruct (sym_type s); simpl in *; congruence.
  - rewrite andb_false_r. split; [exact Ha | now rewrite app_nil_r].
Qed.

Lemma relateFile_edges g0 fileData file data g :
  declared fileData g0 -> nodes g = nodes g0 ->
  nodes (relateFile path_dirname path_join fileData g (file, data)) = nodes g0 /\
  Permutation
    (filter isExtendsEdge (allEdges (relateFile path_dirname path_join fileData g (file, data))))
    (filter isExtendsEdge (allEdges g) ++
     flat_map (extendsEdgesFor fileData file) (symbols data)) /\
  Permutation
    (filter isImportsEdge (allEdges (relateFile path_dirname path_join fileData g (file, data))))
    (filter isImportsEdge (allEdges g) ++
     flat_map
       (fun imp =>
          importEdgesFor g0 fileData
            (resolveSource path_dirname path_join file (imp_source imp)) file imp)
       (imports data)).
Proof.
  intros Hdecl Hg.
  destruct (relateFile_loops g0 fileData file data g Hdecl Hg)
    as (g1 & g2 & Hn1 & Hn2 & Hp1 & H2 & Hn3 & Hp3).
  assert (Hext : forall c,
             filter isExtendsEdge (extendsEdgesFor fileData file c)
             = extendsEdgesFor fileData file c /\
             filter isImportsEdge (extendsEdgesFor fileData file c) = []).
  { intros c. unfold extendsEdgesFor. destruct (sym_extends c); [|now split].
    destruct (_ && _); [|now split]. generalize (matchingDeclarations fileData (isClassNamed s)).
    intros l. induction l as [|t l [IH1 IH2]]; [now split|]. simpl. now rewrite IH1, IH2. }
  assert (Himp : forall imp,
             filter isImportsEdge
               (importEdgesFor g0 fileData
                  (resolveSource path_dirname path_join file (imp_source imp)) file imp)
             = importEdgesFor g0 fileData
                 (resolveSource path_dirname path_join file (imp_source imp)) file imp /\
             filter isExtendsEdge
               (importEdgesFor g0 fileData
                  (resolveSource path_dirname path_join file (imp_source imp)) file imp) = []).
  { intros imp. unfold importEdgesFor. destruct (startsWith _ _); [|now split].
    destruct (find _ _) as [p|]; [|now split].
    destruct (JSMap.get fileData p) as [td|]; [|now split].
    match goal with |- context [map _ ?l] => generalize l end.
    intros l. induction l as [|t l [IH1 IH2]]; [now split|]. simpl. now rewrite IH1, IH2. }
  assert (Hflat : forall {A : Type} (p : EdgeDoc -> bool) (h : A -> list EdgeDoc) (l : list A),
             (forall x, filter p (h x) = h x) -> filter p (flat_map h l) = flat_map h l).
  { intros A p h l Hh. induction l as [|x l IH]; [reflexivity|].
    simpl. now rewrite filter_app, Hh, IH. }
  assert (Hnone : forall {A : Type} (p : EdgeDoc -> bool) (h : A -> list EdgeDoc) (l : list A),
             (forall x, filter p (h x) = []) -> filter p (flat_map h l) = []).
  { intros A p h l Hh. induction l as [|x l IH]; [reflexivity|].
    simpl. now rewrite filter_app, Hh, IH. }
  split; [exact Hn3|]. split.
  - rewrite (Permutation_filter _ _ _ Hp3), filter_app.
    rewrite (Hflat _ isExtendsEdge _ _ (fun c => proj1 (Hext c))).
    apply Permutation_app_tail.
    rewrite (grownBy_filter_kept isExtendsEdge g1 g2).
    + rewrite (Permutation_filter _ _ _ Hp1), filter_app.
      rewrite (Hnone _ isExtendsEdge _ _ (fun imp => proj2 (Himp imp))).
      now rewrite app_nil_r.
    + eapply (grownBy_ind (fun e => ed_type e = Calls) g1
                (fun g' => grownBy (fun e => isExtendsEdge e = false) g1 g'));
        [constructor | | exact H2].
      intros g' from to type _ IH HQ. constructor; [exact IH|].
      unfold isExtendsEdge. simpl in *. now rewrite HQ.
  - rewrite (Permutation_filter _ _ _ Hp3), filter_app.
    rewrite (Hnone _ isImportsEdge _ _ (fun c => proj2 (Hext c))), app_nil_r.
    rewrite (grownBy_filter_kept isImportsEdge g1 g2).
    + rewrite (Permutation_filter _ _ _ Hp1), filter_app.
      now rewrite (Hflat _ isImportsEdge _ _ (fun imp => proj1 (Himp imp))).
    + eapply (grownBy_ind (fun e => ed_type e = Calls) g1
                (fun g' => grownBy (fun e => isImportsEdge e = false) g1 g'));
        [constructor | | exact H2].
      intros g' from to type _ IH HQ. constructor; [exact IH|].
      unfold isImportsEdge. simpl in *. now rewrite HQ.
Qed.
End ResolutionFacts.

Lemma importEdgesFor_nodes g g' fileData resolved file imp :
  nodes g = nodes g' ->
  importEdgesFor g fileData resolved file imp = importEdgesFor g' fileData resolved file imp.
Proof. intros H. unfold importEdgesFor. now rewrite H. Qed.

Section BuildResolutionFacts.
Variable path_dirname : string -> string.
Variable path_join : string -> string -> string.

Lemma populate_extends now files :
  Permutation
    (filter isExtendsEdge (allEdges (populate path_dirname path_join now files)))
    (expectedExtendsEdges (fileDataOf files)).
Proof.
  unfold fileDataOf. rewrite (parseAll_fileData files _ (newCodeGraph now)).
  unfold populate.
  pose proof (parseAll_spec files (newCodeGraph now)) as [Hdecl Hedges].
  destruct (parseAll files (newCodeGraph now)) as [fd g]. simpl in *.
  destruct (fold_left_perm (fun a => filter isExtendsEdge (allEdges a))
              (fun a => nodes a = nodes g)
              (relateFile path_dirname path_join fd)
              (fun entry : string * Parsed =>
                 flat_map (extendsEdgesFor fd (fst entry)) (symbols (snd entry)))
              fd g eq_refl) as [_ Hp].
  - intros a [file data] _ Ha.
    destruct (relateFile_edges path_dirname path_join g fd file data a Hdecl Ha)
      as (Hn & He & _).
    now split.
  - rewrite Hp, Hedges. simpl. unfold expectedExtendsEdges.
    apply Permutation_refl'. apply flat_map_ext. now intros [file data].
Qed.

Lemma populate_imports now files :
  Permutation
    (filter isImportsEdge (allEdges (populate path_dirname path_join now files)))
    (expectedImportEdges path_dirname path_join
       (populate path_dirname path_join now files) (fileDataOf files)).
Proof.
  pose proof (populate_nodes path_dirname path_join now files) as Hnodes.
  unfold fileDataOf. rewrite (parseAll_fileData files _ (newCodeGraph now)).
  revert Hnodes. unfold populate.
  pose proof (parseAll_spec files (newCodeGraph now)) as [Hdecl Hedges].
  destruct (parseAll files (newCodeGraph now)) as [fd g]. simpl in *. intros Hnodes.
  destruct (fold_left_perm (fun a => filter isImportsEdge (allEdges a))
              (fun a => nodes a = nodes g)
              (relateFile path_dirname path_join fd)
              (fun entry : string * Parsed =>
                 flat_map
                   (fun imp =>
                      importEdgesFor g fd
                        (resolveSource path_dirname path_join (fst entry) (imp_source imp))
                        (fst entry) imp)
                   (imports (snd entry)))
              fd g eq_refl) as [_ Hp].
  - intros a [file data] _ Ha.
    destruct (relateFile_edges path_dirname path_join g fd file data a Hdecl Ha)
      as (Hn & _ & Hi).
    now split.
  - rewrite Hp, Hedges. simpl. unfold expectedImportEdges.
    apply Permutation_refl'. apply flat_map_ext. intros [file data]. simpl.
    apply flat_map_ext. intros imp. apply importEdgesFor_nodes. now symmetry.
Qed.
End BuildResolutionFacts.

(** X3.  The [extends] edges of a built store are, counted with
    multiplicity: for every class fact with a non-empty superclass name, in
    every parsed file, and for every class declaration of that name, in any
    parsed file, one edge from the node id of the class to the node id of
    that declaration.  A superclass name that no class declares yields no
    edge. *)
Theorem build_extends_edges :
  forall path_dirname path_join md5hex JSON_stringify now0 now1 rootPath files s,
    Permutation
      (filter isExtendsEdge
         (allEdges (builtStore path_dirname path_join md5hex JSON_stringify
                      now0 now1 rootPath files s)))
      (expectedExtendsEdges (fileDataOf files)).
Proof.
  intros. rewrite builtStore_edges. apply populate_extends.
Qed.

(** X4.  The [imports] edges of a built store are, counted with
    multiplicity: for every relative import of every parsed file one of
    whose candidates is a parsed file, and for every symbol fact of the
    first such file that is named like the local name of the import (or any
    symbol fact of it, when the import is a default import and the file has
    a default export) and whose id is a node, one edge from the import-site
    id to the node of that id.  The edges are counted by symbol fact, not by
    node: two symbol facts with the same file, name and line give two edges
    to their one node.  Other imports yield no edge. *)
Theorem build_imports_edges :
  forall path_dirname path_join md5hex JSON_stringify now0 now1 rootPath files s,
    Permutation
      (filter isImportsEdge
         (allEdges (builtStore path_dirname path_join md5hex JSON_stringify
                      now0 now1 rootPath files s)))
      (expectedImportEdges path_dirname path_join
         (builtStore path_dirname path_join md5hex JSON_stringify
            now0 now1 rootPath files s) (fileDataOf files)).
Proof.
  intros. rewrite builtStore_edges.
  rewrite (populate_imports path_dirname path_join now0 files).
  apply Permutation_refl'. unfold expectedImportEdges.
  apply flat_map_ext. intros [file data]. apply flat_map_ext. intros imp.
  apply importEdgesFor_nodes. symmetry. apply builtStore_nodes.
Qed.

(** A default import links every declaration of the resolved file. *)
Example default_import_links_every_declaration :
  allEdges
    (Scenario.build
       [ ("m.js",
          Some (mkParsed
                  [ Scenario.function_ "m.js" "helper" 1; Scenario.class_ "m.js" "Main" 2 None ]
                  [] [mkExport "default" None 3]));
         ("app.js", Some (mkParsed [] [mkImport "./m" "default" "Main" 1] [])) ])
  = [ mkEdgeDoc "app.js:import:1" "m.js:helper:1" Imports;
      mkEdgeDoc "app.js:import:1" "m.js:Main:2" Imports ].
Proof. reflexivity. Qed.

(** Two declarations that share file, name and line are one node, and an
    import of that name gets two edges to it. *)
Example twin_declarations_are_imported_twice :
  filter isImportsEdge
    (allEdges
       (Scenario.build
          (Scenario.filesTwins ++
           [("b.js", Some (mkParsed [] [mkImport "./a" "f" "f" 1] []))])))
  = [ mkEdgeDoc "b.js:import:1" "a.js:f:1" Imports;
      mkEdgeDoc "b.js:import:1" "a.js:f:1" Imports ].
Proof. reflexivity. Qed.

(** ** What a traversal returns *)

Section TraverseRecords.
Variable g : CodeGraph.
Variable direction : Direction.
Variable depth : Z.

Lemma forOf_adds {A : Type} (fuel : nat) (target : A -> string) (record : A -> Connection)
    (currentDepth : nat) :
  (forall n cd w w',
     traverse g direction depth fuel n cd w = Some w' -> exists ex, adds g direction w w' ex) ->
  forall l w w',
    forOf (fun x a => traverse g direction depth fuel (target x) currentDepth
                        (pushResult a (record x))) l w = Some w' ->
    exists ex,
      expanded w' = expanded w ++ ex /\
      Permutation (result w')
        (result w ++ map record l ++ flat_map (recordsAt g direction) ex).
Proof.
  intros IHfuel l. induction l as [|x l IH]; intros w w' Hrun; simpl in Hrun.
  - injection Hrun as <-. exists []. simpl. now rewrite !app_nil_r.
  - destruct (traverse g direction depth fuel (target x) currentDepth _) as [w1|] eqn:Hx;
      [|discriminate].
    destruct (IHfuel _ _ _ _ Hx) as (ex1 & He1 & Hp1).
    destruct (IH _ _ Hrun) as (ex2 & He2 & Hp2).
    exists (ex1 ++ ex2). split.
    + rewrite He2, He1. simpl. now rewrite app_assoc.
    + rewrite Hp2, Hp1. simpl. rewrite flat_map_app, <- !app_assoc.
      apply Permutation_app_head. simpl. apply perm_skip.
      apply Permutation_app_swap_app.
Qed.

Lemma traverse_adds fuel nodeId currentDepth w w' :
  traverse g direction depth fuel nodeId currentDepth w = Some w' ->
  exists ex,
    adds g direction w w' ex /\
    ((depth <? Z.of_nat currentDepth)%Z || JSSet.has (visited w) nodeId = false ->
     exists rest, ex = nodeId :: rest).
Proof.
  revert nodeId currentDepth w w'.
  induction fuel as [|fuel IH]; intros nodeId currentDepth w w' Hrun; [discriminate|].
  simpl in Hrun.
  destruct ((depth <? Z.of_nat currentDepth)%Z || _) eqn:Hguard.
  - injection Hrun as <-. exists []. split; [|discriminate].
    split; simpl; now rewrite app_nil_r.
  - assert (IH' : forall n cd a a',
               traverse g direction depth fuel n cd a = Some a' ->
               exists ex, adds g direction a a' ex).
    { intros n cd a a' Ha. destruct (IH _ _ _ _ Ha) as (ex & Hex & _). now exists ex. }
    set (w0 := markVisited w nodeId) in *.
    assert (Hout : exists w1 ex1,
               (if followsOutgoing direction then
                  forOf (fun edge a =>
                           traverse g direction depth fuel (out_to edge) (currentDepth + 1)
                             (pushResult a (outgoingRecord g nodeId edge)))
                        (getOrEmpty (edges g) nodeId) w0
                else Some w0) = Some w1 /\
               expanded w1 = expanded w0 ++ ex1 /\
               Permutation (result w1)
                 (result w0 ++
                  (if followsOutgoing direction
                   then map (outgoingRecord g nodeId) (getOrEmpty (edges g) nodeId) else []) ++
                  flat_map (recordsAt g direction) ex1)).
    { destruct (followsOutgoing direction).
      - destruct (forOf _ (getOrEmpty (edges g) nodeId) w0) as [w1|] eqn:Hloop;
          [|discriminate].
        destruct (forOf_adds fuel out_to (outgoingRecord g nodeId) (currentDepth + 1)
                    IH' _ _ _ Hloop) as (ex1 & He1 & Hp1).
        now exists w1, ex1.
      - exists w0, []. simpl. now rewrite !app_nil_r. }
    destruct Hout as (w1 & ex1 & Hloop1 & He1 & Hp1). rewrite Hloop1 in Hrun.
    assert (Hin : exists ex2,
               expanded w' = expanded w1 ++ ex2 /\
               Permutation (result w')
                 (result w1 ++
                  (if followsIncoming direction
                   then map (incomingRecord g nodeId) (getOrEmpty (reverseEdges g) nodeId)
                   else []) ++
                  flat_map (recordsAt g direction) ex2)).
    { destruct (followsIncoming direction).
      - apply (forOf_adds fuel in_from (incomingRecord g nodeId) (currentDepth + 1)
                 IH' _ _ _ Hrun).
      - injection Hrun as <-. exists []. simpl. now rewrite !app_nil_r. }
    destruct Hin as (ex2 & He2 & Hp2).
    exists (nodeId :: ex1 ++ ex2). split; [|intros _; now eexists].
    split.
    + rewrite He2, He1. unfold w0. simpl. now rewrite <- !app_assoc.
    + rewrite Hp2, Hp1. unfold w0. simpl. unfold recordsAt at 3.
      rewrite flat_map_app, <- !app_assoc.
      apply Permutation_app_head. apply Permutation_app_head.
      apply Permutation_app_swap_app.
Qed.

(** A run from an empty walk, for a depth that is not negative. *)
Lemma run_adds id w :
  (0 <= depth)%Z ->
  runConnections (Z.to_nat depth + 2) g id direction depth = Some w ->
  exists rest,
    visited w = id :: rest /\ NoDup (id :: rest) /\
    Permutation (result w) (flat_map (recordsAt g direction) (id :: rest)).
Proof.
  intros Hdepth Hrun. unfold runConnections in Hrun.
  destruct (traverse_adds _ _ _ _ _ Hrun) as (ex & [He Hp] & Hfirst).
  destruct (traverse_expands_once g direction depth (Z.to_nat depth + 2) id 0 emptyWalk w
              eq_refl (NoDup_nil _) Hrun) as [Hev Hnd].
  destruct Hfirst as [rest ->].
  { simpl. rewrite orb_false_r. apply Z.ltb_ge. exact Hdepth. }
  simpl in He, Hp. exists rest.
  split; [now rewrite <- Hev|]. split; [now rewrite <- He | exact Hp].
Qed.

(** With a negative depth the first call returns at its guard: nothing is
    visited and nothing is pushed. *)
Lemma run_negative id :
  (depth < 0)%Z ->
  runConnections (Z.to_nat depth + 2) g id direction depth = Some emptyWalk.
Proof.
  intros Hdepth. unfold runConnections.
  destruct depth as [|p|p]; try lia. reflexivity.
Qed.
End TraverseRecords.

Lemma negative_depth_returns_nothing g id direction depth :
  (depth < 0)%Z -> getConnections g id direction depth = [].
Proof.
  intros Hdepth. unfold getConnections. now rewrite run_negative.
Qed.

(** X5.  For every integer depth, negative ones included, [getConnections]
    returns, and what it returns is, up to order, the records of the edges at
    the nodes it visited, no node being visited twice.  For a depth of 0 or
    more the start node is visited first; for a negative depth the first call
    returns at its guard, so that nothing is visited and nothing returned. *)
Theorem connections_are_records_of_visited :
  forall g id direction depth,
    exists w,
      runConnections (Z.to_nat depth + 2) g id direction depth = Some w /\
      NoDup (visited w) /\
      Permutation (getConnections g id direction depth)
                  (flat_map (recordsAt g direction) (visited w)) /\
      ((0 <= depth)%Z -> exists rest, visited w = id :: rest) /\
      ((depth < 0)%Z -> visited w = [] /\ getConnections g id direction depth = []).
Proof.
  intros g id direction depth.
  destruct (Z_lt_le_dec depth 0) as [Hneg|Hpos].
  - exists emptyWalk. unfold getConnections.
    rewrite (run_negative g direction depth id Hneg). simpl.
    repeat split; try constructor. intros Hpos. lia.
  - destruct (traversal_run_exists g id direction depth) as [w Hrun].
    destruct (run_adds g direction depth id w Hpos Hrun) as (rest & Hv & Hnd & Hp).
    exists w. unfold getConnections. rewrite Hrun, Hv.
    repeat split; auto; [now exists rest | lia | lia].
Qed.

(** X6.  The edges at the start node are returned for every depth from 0 on,
    0 included; for a negative depth nothing is returned. *)
Theorem start_edges_returned_from_depth_zero :
  forall g id direction depth,
    ((0 <= depth)%Z ->
     incl (recordsAt g direction id) (getConnections g id direction depth)) /\
    ((depth < 0)%Z -> getConnections g id direction depth = []).
Proof.
  intros g id direction depth. split.
  - intros Hpos c Hc.
    destruct (traversal_run_exists g id direction depth) as [w Hrun].
    destruct (run_adds g direction depth id w Hpos Hrun) as (rest & _ & _ & Hp).
    unfold getConnections. rewrite Hrun.
    apply (Permutation_in _ (Permutation_sym Hp)). simpl. apply in_or_app. now left.
  - apply negative_depth_returns_nothing.
Qed.

(** ** The size of what a traversal returns *)

Section FirstBindings.
Context {V : Type}.

Lemma getOrEmpty_skip (k : string) (es : list V) (m : JSMap.t (list V)) (ns : list string) :
  ~ In k ns ->
  flat_map (getOrEmpty ((k, es) :: m)) ns = flat_map (getOrEmpty m) ns.
Proof.
  induction ns as [|n ns IH]; intros Hk; simpl; [reflexivity|].
  rewrite IH by (intros H; apply Hk; now right).
  f_equal. unfold getOrEmpty. simpl.
  destruct (String.eqb_spec n k) as [->|Hne]; [|reflexivity].
  exfalso. apply Hk. now left.
Qed.

(** The sets found under distinct keys are parts of the map. *)
Lemma getOrEmpty_total (m : JSMap.t (list V)) (ns : list string) :
  NoDup ns ->
  List.length (flat_map (getOrEmpty m) ns) <= List.length (flat_map snd m).
Proof.
  revert ns. induction m as [|[k es] m IH]; intros ns Hnd.
  - assert (H : flat_map (getOrEmpty ([] : JSMap.t (list V))) ns = []).
    { induction ns as [|n ns IHn]; [reflexivity|]. simpl.
      apply IHn. now inversion Hnd. }
    rewrite H. simpl. lia.
  - simpl. rewrite length_app.
    assert (Hstep : List.length (flat_map (getOrEmpty ((k, es) :: m)) ns)
                    <= List.length es + List.length (flat_map (getOrEmpty m) ns)).
    { clear IH. induction ns as [|n ns IHn]; [simpl; lia|].
      inversion Hnd as [|? ? Hn Hnd']; subst. simpl. rewrite !length_app.
      destruct (String.eqb_spec n k) as [->|Hne].
      - rewrite getOrEmpty_skip by exact Hn.
        unfold getOrEmpty at 1. simpl. rewrite String.eqb_refl. lia.
      - specialize (IHn Hnd').
        assert (Hsame : getOrEmpty ((k, es) :: m) n = getOrEmpty m n).
        { unfold getOrEmpty. simpl. now destruct (String.eqb_spec n k). }
        rewrite Hsame. lia. }
    specialize (IH ns Hnd). lia.
Qed.

Lemma length_flatten (h : string -> V -> EdgeDoc) (m : JSMap.t (list V)) :
  List.length (flatten h m) = List.length (flat_map snd m).
Proof.
  unfold flatten. induction m as [|[k es] m IH]; [reflexivity|].
  simpl. now rewrite !length_app, length_map, IH.
Qed.

Lemma In_getOrEmpty_flatten (h : string -> V -> EdgeDoc) (m : JSMap.t (list V)) k x :
  In x (getOrEmpty m k) -> In (h k x) (flatten h m).
Proof.
  unfold getOrEmpty, flatten.
  destruct (JSMap.get m k) as [es|] eqn:Hget; [|contradiction].
  intros Hx. apply in_flat_map. exists (k, es). split.
  - now apply JSMapFacts.get_In.
  - simpl. now apply in_map.
Qed.

Lemma In_entry_getOrEmpty (m : JSMap.t (list V)) k es :
  NoDup (JSMap.keys m) -> In (k, es) m -> getOrEmpty m k = es.
Proof.
  unfold getOrEmpty.
  induction m as [|[k' v'] m IH]; simpl; [contradiction|].
  intros Hnd Hin. inversion Hnd as [|? ? Hnotin Hnd']; subst.
  destruct Hin as [[= -> ->]|Hin].
  - now rewrite String.eqb_refl.
  - destruct (String.eqb_spec k k') as [->|Hne].
    + exfalso. apply Hnotin. change k' with (fst (k', es)). now apply in_map.
    + now apply IH.
Qed.
End FirstBindings.

Lemma length_records g direction (ns : list string) :
  List.length (flat_map (recordsAt g direction) ns)
  <= List.length (flat_map (getOrEmpty (edges g)) ns)
     + List.length (flat_map (getOrEmpty (reverseEdges g)) ns).
Proof.
  induction ns as [|n ns IH]; [simpl; lia|].
  simpl. rewrite !length_app. unfold recordsAt at 1. rewrite length_app.
  destruct (followsOutgoing direction), (followsIncoming direction);
    rewrite ?length_map; simpl; lia.
Qed.

(** X7.  Whatever the depth and the cycles of the store, [getConnections]
    returns no more records than the store has forward and reverse edge
    entries. *)
Theorem connections_are_bounded :
  forall g id direction depth,
    List.length (getConnections g id direction depth)
    <= List.length (allEdges g) + List.length (allReverseEdges g).
Proof.
  intros g id direction depth.
  destruct (Z_lt_le_dec depth 0) as [Hneg|Hpos];
    [rewrite (negative_depth_returns_nothing g id direction depth Hneg); simpl; lia|].
  destruct (traversal_run_exists g id direction depth) as [w Hrun].
  destruct (run_adds g direction depth id w Hpos Hrun) as (rest & _ & Hnd & Hp).
  unfold getConnections. rewrite Hrun.
  rewrite (Permutation_length Hp).
  pose proof (length_records g direction (id :: rest)) as Hlen.
  pose proof (getOrEmpty_total (edges g) (id :: rest) Hnd) as Hout.
  pose proof (getOrEmpty_total (reverseEdges g) (id :: rest) Hnd) as Hin.
  unfold allEdges, allReverseEdges.
  rewrite edgesArray_flatten, !length_flatten. lia.
Qed.

(** The bound is met on the cycle of two classes. *)
Example cycle_meets_the_bound :
  List.length (getConnections Scenario.cycle "p.js:P:1" Both 9%Z) = 4 /\
  List.length (allEdges Scenario.cycle) + List.length (allReverseEdges Scenario.cycle) = 4.
Proof. split; reflexivity. Qed.

(** ** Connections of a built store *)

Section BuiltConnections.
Variable path_dirname : string -> string.
Variable path_join : string -> string -> string.

Lemma populate_record_targets now files direction u c :
  In c (recordsAt (populate path_dirname path_join now files) direction u) ->
  toData c = JSMap.get (nodes (populate path_dirname path_join now files)) (conn_to c) /\
  isNode (populate path_dirname path_join now files) (conn_to c).
Proof.
  set (g := populate path_dirname path_join now files).
  unfold recordsAt. intros Hc. apply in_app_or in Hc. destruct Hc as [Hc|Hc].
  - destruct (followsOutgoing direction); [|contradiction].
    apply in_map_iff in Hc. destruct Hc as (edge & <- & Hedge). simpl.
    split; [reflexivity|].
    apply (In_getOrEmpty_flatten forwardDoc) in Hedge.
    rewrite <- edgesArray_flatten in Hedge.
    apply (populate_builtEdge path_dirname path_join now files) in Hedge.
    apply Hedge.
  - destruct (followsIncoming direction); [|contradiction].
    apply in_map_iff in Hc. destruct Hc as (edge & <- & Hedge). simpl.
    split; [reflexivity|].
    apply (In_getOrEmpty_flatten reverseDoc) in Hedge.
    apply (Permutation_in _ (mirrored_populate path_dirname path_join now files)) in Hedge.
    apply (populate_builtEdge path_dirname path_join now files) in Hedge.
    apply Hedge.
Qed.
End BuiltConnections.

Lemma recordsAt_ext g g' direction u :
  nodes g = nodes g' -> edges g = edges g' -> reverseEdges g = reverseEdges g' ->
  recordsAt g direction u = recordsAt g' direction u.
Proof.
  intros Hn He Hr. unfold recordsAt, outgoingRecord, incomingRecord.
  now rewrite Hn, He, Hr.
Qed.

Lemma In_flatten_forward (m : JSMap.t (list OutEdge)) e :
  NoDup (JSMap.keys m) -> In e (flatten forwardDoc m) ->
  In (mkOut (ed_to e) (ed_type e)) (getOrEmpty m (ed_from e)).
Proof.
  intros Hnd He. unfold flatten in He. apply in_flat_map in He.
  destruct He as ([k es] & Hentry & He). simpl in He.
  apply in_map_iff in He. destruct He as ([to type] & <- & Hedge). simpl.
  now rewrite (In_entry_getOrEmpty m k es Hnd Hentry).
Qed.

Lemma In_flatten_reverse (m : JSMap.t (list InEdge)) e :
  NoDup (JSMap.keys m) -> In e (flatten reverseDoc m) ->
  In (mkIn (ed_from e) (ed_type e)) (getOrEmpty m (ed_to e)).
Proof.
  intros Hnd He. unfold flatten in He. apply in_flat_map in He.
  destruct He as ([k es] & Hentry & He). simpl in He.
  apply in_map_iff in He. destruct He as ([from type] & <- & Hedge). simpl.
  now rewrite (In_entry_getOrEmpty m k es Hnd Hentry).
Qed.

(** In a store whose maps have each key once and whose reverse index mirrors
    the forward edges, an edge is found at both of its ends. *)
Lemma edge_at_both_ends g e :
  wellFormed g -> mirrored g -> In e (allEdges g) ->
  In (recordOf g e) (recordsAt g Outgoing (ed_from e)) /\
  In (recordOf g e) (recordsAt g Incoming (ed_to e)).
Proof.
  intros (_ & Hedges & Hreverse & _) Hmirror He. unfold recordsAt. simpl.
  rewrite !app_nil_r. split.
  - unfold allEdges in He. rewrite edgesArray_flatten in He.
    apply (In_flatten_forward _ _ Hedges) in He.
    apply (in_map (outgoingRecord g (ed_from e))) in He. exact He.
  - apply (Permutation_in _ (Permutation_sym Hmirror)) in He.
    apply (In_flatten_reverse _ _ Hreverse) in He.
    apply (in_map (incomingRecord g (ed_to e))) in He. exact He.
Qed.

Lemma start_records_returned g id direction depth c :
  (0 <= depth)%Z ->
  In c (recordsAt g direction id) -> In c (getConnections g id direction depth).
Proof.
  intros Hpos Hc.
  destruct (traversal_run_exists g id direction depth) as [w Hrun].
  destruct (run_adds g direction depth id w Hpos Hrun) as (rest & _ & _ & Hp).
  unfold getConnections. rewrite Hrun.
  apply (Permutation_in _ (Permutation_sym Hp)). simpl. apply in_or_app. now left.
Qed.

Section BuiltStoreConnections.
Variable path_dirname : string -> string.
Variable path_join : string -> string -> string.
Variable md5hex : string -> string.
Variable JSON_stringify : Document -> string.

Lemma builtStore_recordsAt now0 now1 rootPath files s direction u :
  recordsAt (builtStore path_dirname path_join md5hex JSON_stringify
               now0 now1 rootPath files s) direction u
  = recordsAt (populate path_dirname path_join now0 files) direction u.
Proof.
  destruct (builtStore_contents path_dirname path_join md5hex JSON_stringify
              now0 now1 rootPath files s) as (He & Hr & _).
  apply recordsAt_ext; [apply builtStore_nodes | exact He | exact Hr].
Qed.

Lemma builtStore_wellFormed now0 now1 rootPath files s :
  wellFormed (builtStore path_dirname path_join md5hex JSON_stringify
                now0 now1 rootPath files s).
Proof.
  destruct (builtStore_contents path_dirname path_join md5hex JSON_stringify
              now0 now1 rootPath files s) as (He & Hr & Hf).
  unfold wellFormed. rewrite builtStore_nodes, He, Hr, Hf.
  apply (wellFormed_populate path_dirname path_join now0 files).
Qed.

Lemma builtStore_mirrored now0 now1 rootPath files s :
  mirrored (builtStore path_dirname path_join md5hex JSON_stringify
              now0 now1 rootPath files s).
Proof.
  destruct (builtStore_contents path_dirname path_join md5hex JSON_stringify
              now0 now1 rootPath files s) as (He & Hr & _).
  unfold mirrored, allReverseEdges, allEdges. rewrite He, Hr.
  apply (mirrored_populate path_dirname path_join now0 files).
Qed.
End BuiltStoreConnections.

(** X8.  In a built store every record that [getConnections] returns points
    to a node: its [toData] is the data stored at its target id, never
    [undefined]. *)
Theorem built_connections_have_target_data :
  forall path_dirname path_join md5hex JSON_stringify now0 now1 rootPath files s
         id direction depth,
    Forall
      (fun c =>
         exists data,
           toData c = Some data /\
           JSMap.get (nodes (builtStore path_dirname path_join md5hex JSON_stringify
                               now0 now1 rootPath files s)) (conn_to c) = Some data)
      (getConnections
         (builtStore path_dirname path_join md5hex JSON_stringify now0 now1 rootPath files s)
         id direction depth).
Proof.
  intros.
  set (g := builtStore path_dirname path_join md5hex JSON_stringify
              now0 now1 rootPath files s).
  destruct (traversal_run_exists g id direction depth) as [w Hrun].
  assert (Hwithin : Forall (withinHops g direction id (Z.to_nat depth)) (result w)).
  { apply (traverse_within g direction depth id (Z.to_nat depth + 2) id 0 emptyWalk w);
      [constructor | constructor | exact Hrun]. }
  unfold getConnections. rewrite Hrun.
  eapply Forall_impl; [|exact Hwithin].
  intros c (u & n & _ & _ & Hc). unfold g in Hc. rewrite builtStore_recordsAt in Hc.
  apply populate_record_targets in Hc. destruct Hc as [Hto Hnode].
  unfold g. rewrite builtStore_nodes.
  apply JSMapFacts.has_get in Hnode. destruct Hnode as [data Hdata].
  exists data. split; [now rewrite Hto | exact Hdata].
Qed.

(** X9.  In a built store every edge is reported from both of its ends, by
    the same record: as a dependency of its source and as a dependent of its
    target, for every depth that is not negative (a missing depth counts as
    1).  The handlers pass a negative depth on unchecked, and then report
    nothing. *)
Theorem built_edge_reported_from_both_ends :
  forall path_dirname path_join md5hex JSON_stringify now0 now1 rootPath files s
         e depth depth',
    (0 <= depthOr 1 depth)%Z ->
    (0 <= depthOr 1 depth')%Z ->
    In e (allEdges (builtStore path_dirname path_join md5hex JSON_stringify
                      now0 now1 rootPath files s)) ->
    In (recordOf (builtStore path_dirname path_join md5hex JSON_stringify
                    now0 now1 rootPath files s) e)
       (get_dependencies
          (builtStore path_dirname path_join md5hex JSON_stringify
             now0 now1 rootPath files s) (ed_from e) depth) /\
    In (recordOf (builtStore path_dirname path_join md5hex JSON_stringify
                    now0 now1 rootPath files s) e)
       (get_dependents
          (builtStore path_dirname path_join md5hex JSON_stringify
             now0 now1 rootPath files s) (ed_to e) depth').
Proof.
  intros until depth'. intros Hdepth Hdepth' He.
  destruct (edge_at_both_ends _ e
              (builtStore_wellFormed path_dirname path_join md5hex JSON_stringify
                 now0 now1 rootPath files s)
              (builtStore_mirrored path_dirname path_join md5hex JSON_stringify
                 now0 now1 rootPath files s) He) as [Hout Hin].
  split; [now apply start_records_returned | now apply start_records_returned].
Qed.

Lemma built_edge_reported_from_both_ends_witness :
  In (recordOf (Scenario.build Scenario.filesA) Scenario.callEdgeA)
     (get_dependencies (Scenario.build Scenario.filesA) "b.js:2" None) /\
  In (recordOf (Scenario.build Scenario.filesA) Scenario.callEdgeA)
     (get_dependents (Scenario.build Scenario.filesA) "a.js:foo:1" (Some 0%Z)).
Proof.
  apply (built_edge_reported_from_both_ends Posix.dirname Posix.join Scenario.digest
           Scenario.printer "t1" "t2" "/project" Scenario.filesA Scenario.freshServer
           Scenario.callEdgeA None (Some 0%Z)).
  - simpl. lia.
  - simpl. lia.
  - vm_compute. right. left. reflexivity.
Defined.

(** ** The search handler *)

Lemma In_firstn {A : Type} (n : nat) (l : list A) (x : A) : In x (firstn n l) -> In x l.
Proof.
  intros H. rewrite <- (firstn_skipn n l). apply in_or_app. now left.
Qed.

(** The first [n] of the hits of score 2 followed by the hits of score 1: a
    hit of score 1 is among them only if every hit of score 2 is. *)
Lemma firstn_two_scores (n : nat) (twos ones : list SearchHit) h1 h2 :
  Forall (fun h => score h = 2%Z) twos -> Forall (fun h => score h = 1%Z) ones ->
  In h2 (firstn n (twos ++ ones)) -> score h2 = 1%Z ->
  In h1 (twos ++ ones) -> score h1 = 2%Z ->
  In h1 (firstn n (twos ++ ones)).
Proof.
  intros Htwos Hones H2 Hs2 H1 Hs1.
  rewrite firstn_app in *.
  apply in_app_or in H2. destruct H2 as [H2|H2].
  - apply In_firstn in H2.
    pose proof (proj1 (Forall_forall _ _) Htwos _ H2) as Hbad. simpl in Hbad. lia.
  - apply in_or_app. left.
    destruct (Nat.le_gt_cases n (List.length twos)) as [Hle|Hgt].
    + replace (n - List.length twos) with 0 in H2 by lia. destruct H2.
    + rewrite firstn_all2 by lia.
      apply in_app_or in H1. destruct H1 as [H1|H1]; [exact H1|].
      pose proof (proj1 (Forall_forall _ _) Hones _ H1) as Hbad. simpl in Hbad. lia.
Qed.

Lemma filter_score_Forall (z : Z) (l : list SearchHit) :
  Forall (fun h => score h = z) (filter (fun h => (score h =? z)%Z) l).
Proof.
  apply Forall_forall. intros h Hh. apply filter_In in Hh. now apply Z.eqb_eq.
Qed.

(** X10.  ['find_symbol'] reports the number of all hits and shows the first
    50 of them at most, all of them when there are fewer.  The hits shown are
    the best ones: a hit that matches by its file path only is shown only if
    every hit that matches by its name is shown. *)
Theorem find_symbol_shows_names_first :
  forall toLowerCase g query type,
    fr_count (find_symbol toLowerCase g query type)
    = List.length (searchNodes toLowerCase g query type) /\
    List.length (fr_symbols (find_symbol toLowerCase g query type))
    = Nat.min 50 (List.length (searchNodes toLowerCase g query type)) /\
    incl (fr_symbols (find_symbol toLowerCase g query type))
         (searchNodes toLowerCase g query type) /\
    (forall h1 h2,
       In h2 (fr_symbols (find_symbol toLowerCase g query type)) -> score h2 = 1%Z ->
       In h1 (searchNodes toLowerCase g query type) -> score h1 = 2%Z ->
       In h1 (fr_symbols (find_symbol toLowerCase g query type))).
Proof.
  intros toLowerCase g query type. unfold find_symbol. cbn [fr_symbols fr_count].
  split; [reflexivity|]. split; [apply length_firstn|]. split.
  - intros h Hh. now apply In_firstn in Hh.
  - rewrite searchNodes_sorted. intros h1 h2 H2 Hs2 H1 Hs1.
    apply (firstn_two_scores 50 _ _ h1 h2); auto using filter_score_Forall.
Qed.

Lemma find_symbol_shows_names_first_witness :
  fr_count (find_symbol asciiLowerCase Scenario.searched "util" None) = 3 /\
  List.length (fr_symbols (find_symbol asciiLowerCase Scenario.searched "util" None)) = 3 /\
  In (mkHit "src/app.js:util:2" (Scenario.function_ "src/app.js" "util" 2) 2)
     (fr_symbols (find_symbol asciiLowerCase Scenario.searched "util" None)).
Proof.
  destruct (find_symbol_shows_names_first asciiLowerCase Scenario.searched "util" None)
    as (Hcount & Hshown & _ & Hfirst).
  split; [exact Hcount|]. split; [exact Hshown|].
  apply (Hfirst
           (mkHit "src/app.js:util:2" (Scenario.function_ "src/app.js" "util" 2) 2)
           (mkHit "src/util.js:run:1" (Scenario.function_ "src/util.js" "run" 1) 1)).
  - vm_compute. right. right. left. reflexivity.
  - reflexivity.
  - vm_compute. left. reflexivity.
  - reflexivity.
Defined.

Lemma includes_empty (s : string) : includes s "" = true.
Proof. rewrite includes_unfold. now destruct s. Qed.

(** X11.  The empty query matches every node by its name: without a type
    filter [searchNodes] returns all nodes, each with score 2, in the order
    of the node map. *)
Theorem empty_query_returns_every_node :
  forall toLowerCase g,
    toLowerCase "" = "" ->
    searchNodes toLowerCase g "" None
    = map (fun entry => mkHit (fst entry) (snd entry) 2) (nodes g).
Proof.
  intros toLowerCase g Hlower. rewrite searchNodes_sorted, Hlower.
  assert (Hhits : flat_map (hitOf toLowerCase "" None) (nodes g)
                  = map (fun entry => mkHit (fst entry) (snd entry) 2) (nodes g)).
  { induction (nodes g) as [|[id node] l IH]; [reflexivity|].
    simpl. rewrite IH. unfold hitOf, collectHit, nameMatches. simpl.
    now rewrite includes_empty. }
  rewrite Hhits.
  rewrite (filter_all (fun h => (score h =? 2)%Z)).
  - assert (Hnone : forall l : JSMap.t Symbol,
               filter (fun h => (score h =? 1)%Z)
                 (map (fun entry => mkHit (fst entry) (snd entry) 2) l) = []).
    { intros l. induction l as [|e l IH]; [reflexivity | exact IH]. }
    now rewrite Hnone, app_nil_r.
  - intros h Hh. apply in_map_iff in Hh. now destruct Hh as (e & <- & _).
Qed.

Lemma empty_query_returns_every_node_witness :
  searchNodes asciiLowerCase Scenario.searched "" None
  = map (fun entry => mkHit (fst entry) (snd entry) 2) (nodes Scenario.searched).
Proof.
  apply (empty_query_returns_every_node asciiLowerCase Scenario.searched). reflexivity.
Defined.

(** ** The symbols of a file *)

Section SortFacts.
Context {A : Type} (cmp : A -> A -> Z).

Lemma insertSorted_perm x l : Permutation (insertSorted cmp x l) (x :: l).
Proof.
  induction l as [|y l IH]; simpl; [reflexivity|].
  destruct (cmp x y <=? 0)%Z; [reflexivity|].
  rewrite IH. apply perm_swap.
Qed.

Lemma sortBy_perm l : Permutation (sortBy cmp l) l.
Proof.
  induction l as [|x l IH]; simpl; [reflexivity|].
  rewrite insertSorted_perm. now constructor.
Qed.
End SortFacts.

Lemma insertSorted_byLine x l :
  StronglySorted lineLe l -> StronglySorted lineLe (insertSorted byLine x l).
Proof.
  induction 1 as [|y l Hsorted IH Hy]; simpl; [repeat constructor|].
  unfold byLine at 1. destruct (Z.leb_spec (Z.of_nat (sym_line (snd x))
                                            - Z.of_nat (sym_line (snd y))) 0) as [Hle|Hgt].
  - constructor; [now constructor|]. constructor; [unfold lineLe; lia|].
    eapply Forall_impl; [|exact Hy]. unfold lineLe. intros z Hz. lia.
  - constructor; [exact IH|].
    apply (Permutation_Forall (Permutation_sym (insertSorted_perm byLine x l))).
    constructor; [unfold lineLe; lia | exact Hy].
Qed.

Lemma sortBy_byLine l : StronglySorted lineLe (sortBy byLine l).
Proof.
  induction l as [|x l IH]; simpl; [constructor | now apply insertSorted_byLine].
Qed.

Lemma lookupSymbols_spec g ids id node :
  In (id, node) (lookupSymbols g ids) <->
  In id ids /\ JSMap.get (nodes g) id = Some node.
Proof.
  unfold lookupSymbols.
  assert (H : forall acc,
             In (id, node)
                (fold_left
                   (fun symbols id0 =>
                      match JSMap.get (nodes g) id0 with
                      | Some node0 => symbols ++ [(id0, node0)]
                      | None => symbols
                      end) ids acc) <->
             In (id, node) acc \/ (In id ids /\ JSMap.get (nodes g) id = Some node)).
  { induction ids as [|i ids IH]; intros acc; simpl.
    - split; [auto | intros [H|[[] _]]; exact H].
    - rewrite IH. destruct (JSMap.get (nodes g) i) as [n|] eqn:Hget.
      + rewrite in_app_iff. simpl. split.
        * intros [[H|[[= -> ->]|[]]]|[H1 H2]]; auto.
        * intros [H|[[->|H1] H2]]; auto.
          left. right. left. congruence.
      + split.
        * intros [H|[H1 H2]]; auto.
        * intros [H|[[->|H1] H2]]; auto. congruence. }
  rewrite H. simpl. split; [intros [[]|H']; exact H' | auto].
Qed.

(** X12.  ['get_file_symbols'] lists, in ascending line order, exactly the
    ids of the file index entry of the file that are nodes, each with its
    data; for a file without an entry the list is empty. *)
Theorem file_symbols_sorted_and_exact :
  forall g filepath,
    StronglySorted lineLe (get_file_symbols g filepath) /\
    (forall id node,
       In (id, node) (get_file_symbols g filepath) <->
       In id (getOrEmpty (fileIndex g) filepath) /\ JSMap.get (nodes g) id = Some node) /\
    (JSMap.has (fileIndex g) filepath = false -> get_file_symbols g filepath = []).
Proof.
  intros g filepath. unfold get_file_symbols. split; [apply sortBy_byLine|]. split.
  - intros id node. rewrite <- lookupSymbols_spec.
    split; apply Permutation_in; [|apply Permutation_sym]; apply sortBy_perm.
  - intros Hmissing. apply JSMapFacts.has_false_get in Hmissing.
    unfold getOrEmpty. unfold JSSet.t in *. now rewrite Hmissing.
Qed.

(** Scenario D: three declarations of a file, listed by line. *)
Example scenario_D_file_symbols :
  map fst
    (get_file_symbols
       (Scenario.build
          [ ("d.js",
             Some (mkParsed
                     [ Scenario.function_ "d.js" "last" 30; Scenario.class_ "d.js" "First" 2 None;
                       Scenario.function_ "d.js" "mid" 11; Scenario.call_ "d.js" "mid" 12 ]
                     [] [])) ])
       "d.js")
  = ["d.js:First:2"; "d.js:mid:11"; "d.js:last:30"].
Proof. reflexivity. Qed.

Lemma indexed_addNode g id data : indexed g -> indexed (addNode g id data).
Proof.
  intros Hg id' data' Hget. simpl in *.
  unfold getOrEmpty at 1.
  apply get_set_cases in Hget. destruct Hget as [[-> ->]|Hget].
  - rewrite JSMapFacts.get_set_eq. apply JSSetFacts.In_add. now left.
  - specialize (Hg id' data' Hget).
    destruct (String.eqb_spec (sym_file data) (sym_file data')) as [Heq|Hne].
    + rewrite Heq, JSMapFacts.get_set_eq. apply JSSetFacts.In_add. right.
      exact Hg.
    + rewrite JSMapFacts.get_set_neq by exact Hne. exact Hg.
Qed.

Lemma grownBy_fileIndex Q g g' : grownBy Q g g' -> fileIndex g' = fileIndex g.
Proof. induction 1; simpl; auto. Qed.

Lemma indexed_populate path_dirname path_join now files :
  indexed (populate path_dirname path_join now files).
Proof.
  pose proof (populate_grown path_dirname path_join now files) as Hgrown. simpl in Hgrown.
  unfold indexed.
  rewrite (grownBy_nodes _ _ _ Hgrown), (grownBy_fileIndex _ _ _ Hgrown).
  change (indexed (snd (parseAll files (newCodeGraph now)))).
  unfold parseAll.
  apply (fold_left_inv (fun r : JSMap.t Parsed * CodeGraph => indexed (snd r))).
  - intros id data H. discriminate.
  - intros [fd g] [file [parsed|]] _ Hg; simpl in *; [|exact Hg].
    unfold addSymbols. apply (fold_left_inv indexed); [exact Hg|].
    intros a s _ Ha. destruct (negb _); [|exact Ha]. now apply indexed_addNode.
Qed.

(** X13.  After a build every node is listed by ['get_file_symbols'] under
    the file that its data names. *)
Theorem built_nodes_listed_under_their_file :
  forall path_dirname path_join md5hex JSON_stringify now0 now1 rootPath files s id data,
    JSMap.get (nodes (builtStore path_dirname path_join md5hex JSON_stringify
                        now0 now1 rootPath files s)) id = Some data ->
    In (id, data)
       (get_file_symbols
          (builtStore path_dirname path_join md5hex JSON_stringify
             now0 now1 rootPath files s) (sym_file data)).
Proof.
  intros until data. intros Hget. unfold get_file_symbols.
  apply (Permutation_in _ (Permutation_sym (sortBy_perm byLine _))).
  apply lookupSymbols_spec. split; [|exact Hget].
  destruct (builtStore_contents path_dirname path_join md5hex JSON_stringify
              now0 now1 rootPath files s) as (_ & _ & ->).
  rewrite builtStore_nodes in Hget.
  now apply (indexed_populate path_dirname path_join now0 files).
Qed.

Lemma built_nodes_listed_under_their_file_witness :
  In ("a.js:foo:1", Scenario.function_ "a.js" "foo" 1)
     (get_file_symbols (Scenario.build Scenario.filesA) "a.js").
Proof.
  apply (built_nodes_listed_under_their_file Posix.dirname Posix.join Scenario.digest
           Scenario.printer "t1" "t2" "/project" Scenario.filesA Scenario.freshServer
           "a.js:foo:1" (Scenario.function_ "a.js" "foo" 1)).
  reflexivity.
Defined.

(** ** Statistics *)

Lemma countOf_increment m k' k :
  countOf (increment m k') k = countOf m k + (if String.eqb k' k then 1 else 0).
Proof.
  unfold increment, countOf at 1. destruct (String.eqb_spec k' k) as [->|Hne].
  - now rewrite JSMapFacts.get_set_eq.
  - rewrite JSMapFacts.get_set_neq by exact Hne. fold (countOf m k). lia.
Qed.

Lemma countOf_counted {A : Type} (key : A -> string) (l : list A) m0 k :
  countOf (fold_left (fun m x => increment m (key x)) l m0) k
  = countOf m0 k + List.length (filter (fun x => String.eqb (key x) k) l).
Proof.
  revert m0. induction l as [|x l IH]; intros m0; simpl; [lia|].
  rewrite IH, countOf_increment. destruct (String.eqb (key x) k); simpl; lia.
Qed.

Lemma countSum_increment m k : countSum (increment m k) = countSum m + 1.
Proof.
  unfold increment, countSum, countOf, JSMap.values.
  induction m as [|[k' v] m IH]; simpl; [reflexivity|].
  destruct (String.eqb_spec k k') as [->|Hne]; simpl; [lia|].
  rewrite IH. lia.
Qed.

Lemma countSum_counted {A : Type} (key : A -> string) (l : list A) m0 :
  countSum (fold_left (fun m x => increment m (key x)) l m0) = countSum m0 + List.length l.
Proof.
  revert m0. induction l as [|x l IH]; intros m0; simpl; [lia|].
  rewrite IH, countSum_increment. lia.
Qed.

Lemma fold_nested {A B : Type} (f : A -> B -> A) (ls : list (list B)) (a : A) :
  fold_left (fun a l => fold_left f l a) ls a = fold_left f (List.concat ls) a.
Proof.
  revert a. induction ls as [|l ls IH]; intros a; simpl; [reflexivity|].
  now rewrite fold_left_app, IH.
Qed.

Lemma edgeTotal_length g : edgeTotal g = List.length (allEdges g).
Proof.
  unfold edgeTotal, allEdges. rewrite edgesArray_flatten, length_flatten.
  unfold JSMap.values.
  assert (H : forall (m : JSMap.t (list OutEdge)) n,
             fold_left (fun sum set => sum + List.length set) (map snd m) n
             = n + List.length (flat_map snd m)).
  { induction m as [|[k es] m IH]; intros n; simpl; [lia|].
    rewrite IH, length_app. lia. }
  apply H.
Qed.

Lemma filter_flatten_forward (p : EdgeType -> bool) (m : JSMap.t (list OutEdge)) :
  List.length (filter (fun e => p (ed_type e)) (flatten forwardDoc m))
  = List.length (filter (fun edge => p (out_type edge)) (List.concat (JSMap.values m))).
Proof.
  unfold flatten, JSMap.values. induction m as [|[k es] m IH]; [reflexivity|].
  simpl. rewrite !filter_app, !length_app, IH. f_equal.
  induction es as [|e es IHes]; [reflexivity|]. simpl.
  destruct (p (out_type e)); simpl; now rewrite IHes.
Qed.

(** X14.  The counts of ['get_graph_stats'] are exact: under every type name
    the number of nodes, and of edges, of that type; the counts by type add
    up to the totals, and the edge total is the number of edges of the
    store. *)
Theorem graph_stats_are_exact :
  forall g,
    (forall name,
       countOf (nodeTypes (get_graph_stats g)) name
       = List.length
           (filter (fun entry => String.eqb (typeName (sym_type (snd entry))) name)
                   (nodes g))) /\
    (forall name,
       countOf (edgeTypes (get_graph_stats g)) name
       = List.length
           (filter (fun e => String.eqb (edgeTypeName (ed_type e)) name) (allEdges g))) /\
    countSum (nodeTypes (get_graph_stats g)) = totalNodes (get_graph_stats g) /\
    countSum (edgeTypes (get_graph_stats g)) = totalEdges (get_graph_stats g) /\
    totalEdges (get_graph_stats g) = List.length (allEdges g).
Proof.
  intros g. unfold get_graph_stats. simpl. repeat split.
  - intros name. rewrite (countOf_counted (fun node => typeName (sym_type node))).
    unfold JSMap.values. simpl.
    induction (nodes g) as [|[id node] l IH]; [reflexivity|]. simpl.
    destruct (String.eqb _ name); simpl; now rewrite <- IH.
  - intros name.
    rewrite (fold_nested (fun m edge => increment m (edgeTypeName (out_type edge)))).
    rewrite (countOf_counted (fun edge => edgeTypeName (out_type edge))). simpl.
    unfold allEdges. rewrite edgesArray_flatten.
    now rewrite (filter_flatten_forward (fun t => String.eqb (edgeTypeName t) name)).
  - rewrite (countSum_counted (fun node => typeName (sym_type node))).
    unfold JSMap.values. now rewrite length_map.
  - rewrite (fold_nested (fun m edge => increment m (edgeTypeName (out_type edge)))).
    rewrite (countSum_counted (fun edge => edgeTypeName (out_type edge))). simpl.
    rewrite edgeTotal_length. unfold allEdges.
    rewrite edgesArray_flatten, length_flatten. unfold JSMap.values.
    now rewrite flat_map_concat_map.
  - apply edgeTotal_length.
Qed.

(** The statistics of scenario A. *)
Example scenario_A_stats :
  get_graph_stats (Scenario.build Scenario.filesA)
  = {| totalNodes := 1; totalEdges := 2; gs_fileCount := 1;
       nodeTypes := [("function", 1)];
       edgeTypes := [("imports", 1); ("calls", 1)] |}.
Proof. reflexivity. Qed.

(** ** Saving, loading and deleting in sequence *)

(** What a store that was serialised and read back holds. *)
Lemma fromJSON_toJSON_contents g :
  wellFormed g ->
  exists g',
    fromJSON (toJSON g) = Some g' /\
    nodes g' = nodes g /\
    Permutation (forwardEdges g') (forwardEdges g) /\
    Permutation (allReverseEdges g') (forwardEdges g) /\
    fileIndex g' = fileIndex g /\
    projectHash g' = projectHash g /\
    metadata g' = metadata g.
Proof.
  intros Hwf.
  pose proof (fromJSON_Some (toJSON g) _ _ _ eq_refl eq_refl eq_refl) as Hload.
  cbn [toJSON doc_nodes doc_edges doc_fileIndex] in Hload.
  eexists. split; [exact Hload|].
  destruct (reloaded_contents g (headerOf (toJSON g)) Hwf eq_refl eq_refl eq_refl eq_refl)
    as (Hnodes & Hedges & Hindex).
  split; [exact Hnodes|]. split; [exact Hedges|]. split; [|split; [exact Hindex|]].
  - apply (Permutation_trans (mirrored_fromJSON _ _ Hload)).
    unfold allEdges. rewrite edgesArray_flatten. exact Hedges.
  - apply (fromJSON_inv
             (fun a => projectHash a = projectHash g /\ metadata a = metadata g)
             (toJSON g)); [now split | | | | exact Hload].
    + intros a [id data] H. exact H.
    + intros a e H. exact H.
    + intros a e H. exact H.
Qed.

Lemma remove_set_absent {V : Type} (m : JSMap.t V) k v :
  JSMap.has m k = false -> JSMap.remove (JSMap.set m k v) k = m.
Proof.
  unfold JSMap.has.
  induction m as [|[k' v'] m IH]; simpl.
  - now rewrite String.eqb_refl.
  - destruct (String.eqb_spec k k') as [->|Hne]; [discriminate|].
    intros H. simpl. destruct (String.eqb_spec k k'); [contradiction|]. now rewrite IH.
Qed.

Section SequenceFacts.
Variable path_join : string -> string -> string.
Variable md5hex : string -> string.
Variable JSON_parse : string -> option Document.
Variable JSON_stringify : Document -> string.

(** [saveGraph] returns the path of the cache file; it stamps the store and
    writes the printed document under the name of that file, into a
    directory that it creates when there is none. *)
Lemma saveGraph_spec now projectPath s :
  exists files f,
    cacheDir (ensureDbDirectory s) = Some files /\
    saveGraph path_join md5hex JSON_stringify now projectPath s
    = (Returned (path_join (dbPath s) (cacheFileName md5hex projectPath)),
       {| codeGraph := stamped md5hex now projectPath (codeGraph s);
          dbPath := dbPath s;
          cacheDir := Some (JSMap.set files (cacheFileName md5hex projectPath) f) |}) /\
    content f = JSON_stringify (toJSON (stamped md5hex now projectPath (codeGraph s))) /\
    readable f = negb (unreadableEntry (cacheDir s) (cacheFileName md5hex projectPath)) /\
    (hasCacheEntry (cacheDir s) (cacheFileName md5hex projectPath) = false ->
     removable f = true).
Proof.
  unfold saveGraph, ensureDbDirectory, fs_writeFile, unreadableEntry, hasCacheEntry,
    JSMap.has, withGraph, withDir, stamped.
  destruct (cacheDir s) as [files|] eqn:Hdir; simpl; rewrite ?Hdir; simpl.
  - destruct (JSMap.get files (cacheFileName md5hex projectPath)) as [f|] eqn:Hget.
    + exists files, (mkCacheFile
                      (JSON_stringify (toJSON (stamped md5hex now projectPath (codeGraph s))))
                      (readable f) (removable f)).
      simpl. rewrite negb_involutive. repeat split. discriminate.
    + exists files, (mkCacheFile
                      (JSON_stringify (toJSON (stamped md5hex now projectPath (codeGraph s))))
                      true true).
      simpl. repeat split.
  - exists [], (mkCacheFile
                 (JSON_stringify (toJSON (stamped md5hex now projectPath (codeGraph s))))
                 true true).
    simpl. repeat split.
Qed.

Lemma load_after_save now projectPath s :
  wellFormed (codeGraph s) ->
  unreadableEntry (cacheDir s) (cacheFileName md5hex projectPath) = false ->
  parsesBack JSON_parse JSON_stringify (stamped md5hex now projectPath (codeGraph s)) ->
  exists g',
    loadGraph md5hex JSON_parse projectPath
      (afterSave path_join md5hex JSON_stringify now projectPath s)
    = (true, withGraph (afterSave path_join md5hex JSON_stringify now projectPath s) g') /\
    nodes g' = nodes (codeGraph s) /\
    Permutation (forwardEdges g') (forwardEdges (codeGraph s)) /\
    Permutation (allReverseEdges g') (forwardEdges (codeGraph s)) /\
    fileIndex g' = fileIndex (codeGraph s) /\
    projectHash g' = Some (md5hex projectPath) /\
    metadata g' = metadata (stamped md5hex now projectPath (codeGraph s)).
Proof.
  intros Hwf Hreadable Hparse.
  destruct (fromJSON_toJSON_contents (stamped md5hex now projectPath (codeGraph s)) Hwf)
    as (g' & Hload & Hcontents).
  exists g'. split; [|exact Hcontents].
  unfold afterSave.
  destruct (saveGraph_spec now projectPath s)
    as (files & f & _ & -> & Hcontent & Hread & _).
  rewrite Hreadable in Hread. simpl in Hread.
  unfold loadGraph, ensureDbDirectory, fs_readFile. simpl.
  rewrite JSMapFacts.get_set_eq, Hread, Hcontent, Hparse, Hload. reflexivity.
Qed.
End SequenceFacts.

(** X15.  A store that is saved and then loaded comes back: [saveGraph]
    returns the path of the cache file, [path.join(config.dbPath, filename)];
    [loadGraph] for the same project path returns [true], and the current
    store then has the nodes and the file index of the store that was saved,
    its edges up to order in the forward and in the reverse index (read off
    the maps of the stores), and the hash and project path that [saveGraph]
    stamped. *)
Theorem save_then_load_restores_store :
  forall path_join md5hex JSON_parse JSON_stringify now root s,
    wellFormed (codeGraph s) ->
    unreadableEntry (cacheDir s) (cacheFileName md5hex root) = false ->
    parsesBack JSON_parse JSON_stringify (stamped md5hex now root (codeGraph s)) ->
    fst (saveGraph path_join md5hex JSON_stringify now root s)
    = Returned (path_join (dbPath s) (cacheFileName md5hex root)) /\
    exists s',
      loadGraph md5hex JSON_parse root (afterSave path_join md5hex JSON_stringify now root s)
      = (true, s') /\
      nodes (codeGraph s') = nodes (codeGraph s) /\
      Permutation (forwardEdges (codeGraph s')) (forwardEdges (codeGraph s)) /\
      Permutation (allReverseEdges (codeGraph s')) (forwardEdges (codeGraph s)) /\
      fileIndex (codeGraph s') = fileIndex (codeGraph s) /\
      projectHash (codeGraph s') = Some (md5hex root) /\
      projectPath (metadata (codeGraph s')) = Some root.
Proof.
  intros path_join md5hex JSON_parse JSON_stringify now root s Hwf Hreadable Hparse.
  split.
  - destruct (saveGraph_spec path_join md5hex JSON_stringify now root s)
      as (files & f & _ & -> & _).
    reflexivity.
  - destruct (load_after_save path_join md5hex JSON_parse JSON_stringify now root s
                Hwf Hreadable Hparse)
      as (g' & Hload & Hn & He & Hr & Hf & Hh & Hm).
    eexists. split; [exact Hload|]. simpl. rewrite Hm. simpl. auto 10.
Qed.

Lemma save_then_load_restores_store_witness :
  fst (saveGraph Posix.join Scenario.digest CacheScenario.tagPrinter "t3" "/project"
         CacheScenario.serverA)
  = Returned "db/graph_/project.json" /\
  exists s',
    loadGraph Scenario.digest CacheScenario.tagParser "/project"
      (afterSave Posix.join Scenario.digest CacheScenario.tagPrinter "t3" "/project"
         CacheScenario.serverA)
    = (true, s') /\
    nodes (codeGraph s') = nodes (codeGraph CacheScenario.serverA) /\
    Permutation (forwardEdges (codeGraph s')) [Scenario.importEdgeA; Scenario.callEdgeA] /\
    Permutation (allReverseEdges (codeGraph s'))
      [Scenario.importEdgeA; Scenario.callEdgeA] /\
    fileIndex (codeGraph s') = fileIndex (codeGraph CacheScenario.serverA) /\
    projectHash (codeGraph s') = Some "/project" /\
    projectPath (metadata (codeGraph s')) = Some "/project".
Proof.
  apply (save_then_load_restores_store Posix.join Scenario.digest CacheScenario.tagParser
           CacheScenario.tagPrinter "t3" "/project" CacheScenario.serverA).
  - vm_compute. repeat split; repeat constructor; simpl; intuition discriminate.
  - reflexivity.
  - reflexivity.
Defined.

Section BuildSequenceFacts.
Variable path_dirname : string -> string.
Variable path_join : string -> string -> string.
Variable md5hex : string -> string.
Variable JSON_parse : string -> option Document.
Variable JSON_stringify : Document -> string.



End BuildSequenceFacts.




Lemma missing_is_not_unreadable d name :
  hasCacheEntry d name = false -> unreadableEntry d name = false.
Proof.
  unfold hasCacheEntry, unreadableEntry, JSMap.has. destruct d as [files|]; [|reflexivity].
  now destruct (JSMap.get files name).
Qed.

(** Deleting right after a save that created the entry. *)
Lemma delete_after_save path_join md5hex JSON_stringify now root s :
  hasCacheEntry (cacheDir s) (cacheFileName md5hex root) = false ->
  deleteGraph md5hex root (afterSave path_join md5hex JSON_stringify now root s)
  = (Returned true,
     withGraph (ensureDbDirectory s) (stamped md5hex now root (codeGraph s))).
Proof.
  intros Hmissing. unfold afterSave.
  destruct (saveGraph_spec path_join md5hex JSON_stringify now root s)
    as (files & f & Hdir & -> & _ & _ & Hremovable).
  specialize (Hremovable Hmissing).
  rewrite <- cacheDir_ensure, Hdir in Hmissing. simpl in Hmissing.
  unfold deleteGraph, ensureDbDirectory, fs_unlink, withGraph, withDir. simpl.
  rewrite JSMapFacts.get_set_eq, Hremovable, remove_set_absent by exact Hmissing.
  unfold ensureDbDirectory in Hdir |- *.
  destruct (cacheDir s) as [files0|]; simpl in *; congruence.
Qed.

(** X17.  Deleting the cache entry that [saveGraph] has just created undoes
    the write and nothing else: [deleteGraph] returns [true], the cache
    directory is what it was before the save (created if it was missing),
    the current store stays the one that was saved, and from then on
    [loadGraph] and a second [deleteGraph] for that path return [false]. *)
Theorem delete_after_save_removes_entry :
  forall path_join md5hex JSON_parse JSON_stringify now root s,
    hasCacheEntry (cacheDir s) (cacheFileName md5hex root) = false ->
    deleteGraph md5hex root (afterSave path_join md5hex JSON_stringify now root s)
    = (Returned true,
       withGraph (ensureDbDirectory s) (stamped md5hex now root (codeGraph s))) /\
    loadGraph md5hex JSON_parse root
      (withGraph (ensureDbDirectory s) (stamped md5hex now root (codeGraph s)))
    = (false, withGraph (ensureDbDirectory s) (stamped md5hex now root (codeGraph s))) /\
    deleteGraph md5hex root
      (withGraph (ensureDbDirectory s) (stamped md5hex now root (codeGraph s)))
    = (Returned false,
       withGraph (ensureDbDirectory s) (stamped md5hex now root (codeGraph s))).
Proof.
  intros path_join md5hex JSON_parse JSON_stringify now root s Hmissing.
  assert (Hdir : hasCacheEntry
                   (cacheDir (withGraph (ensureDbDirectory s)
                                (stamped md5hex now root (codeGraph s))))
                   (cacheFileName md5hex root) = false).
  { simpl. now rewrite cacheDir_ensure. }
  assert (Hsame : ensureDbDirectory
                    (withGraph (ensureDbDirectory s) (stamped md5hex now root (codeGraph s)))
                  = withGraph (ensureDbDirectory s) (stamped md5hex now root (codeGraph s))).
  { unfold ensureDbDirectory, withGraph, withDir.
    destruct (cacheDir s) as [files|] eqn:Hd; simpl; now rewrite ?Hd. }
  split; [|split].
  - now apply delete_after_save.
  - unfold loadGraph. rewrite Hsame.
    rewrite readFile_missing; [reflexivity | exact Hdir].
  - rewrite deleteGraph_missing; [now rewrite Hsame | exact Hdir].
Qed.

Lemma delete_after_save_removes_entry_witness :
  deleteGraph Scenario.digest "/project"
    (afterSave Posix.join Scenario.digest Scenario.printer "t3" "/project" Scenario.freshServer)
  = (Returned true,
     withGraph (ensureDbDirectory Scenario.freshServer)
       (stamped Scenario.digest "t3" "/project" (codeGraph Scenario.freshServer))).
Proof.
  apply (delete_after_save_removes_entry Posix.join Scenario.digest Scenario.parser Scenario.printer
           "t3" "/project" Scenario.freshServer).
  reflexivity.
Defined.

(** ** Listing and clearing the cache *)

Lemma fold_left_pushes {A B : Type} (f : A -> list B) (step : list B -> A -> list B) l :
  (forall acc x, step acc x = acc ++ f x) ->
  forall acc, fold_left step l acc = acc ++ flat_map f l.
Proof.
  intros Hstep. induction l as [|x l IH]; intros acc; simpl.
  - now rewrite app_nil_r.
  - now rewrite IH, Hstep, <- app_assoc.
Qed.

Lemma substring_after (a b : string) :
  String.substring (String.length a) (String.length b) (a ++ b)%string = b.
Proof.
  induction a as [|c a IH]; simpl; [|exact IH].
  induction b as [|c b IHb]; simpl; [reflexivity|].
  f_equal. destruct b; [reflexivity | exact IHb].
Qed.

Lemma length_append (a b : string) :
  String.length (a ++ b)%string = String.length a + String.length b.
Proof. induction a as [|c a IH]; simpl; [reflexivity | now rewrite IH]. Qed.

Lemma endsWith_append (a b : string) : endsWith (a ++ b)%string b = true.
Proof.
  unfold endsWith. rewrite length_append.
  replace (String.length a + String.length b - String.length b) with (String.length a) by lia.
  rewrite substring_after, String.eqb_refl.
  apply andb_true_intro. split; [apply Nat.leb_le; lia | reflexivity].
Qed.

Section ListingFacts.
Variable path_join : string -> string -> string.
Variable md5hex : string -> string.
Variable JSON_parse : string -> option Document.
Variable JSON_stringify : Document -> string.

Lemma cacheFileName_shape root :
  startsWith (cacheFileName md5hex root) "graph_" = true /\
  endsWith (cacheFileName md5hex root) ".json" = true.
Proof.
  unfold cacheFileName. split.
  - unfold startsWith. simpl.
    now destruct (generateProjectHash md5hex root ++ ".json")%string.
  - change ("graph_" ++ generateProjectHash md5hex root ++ ".json")%string
      with (String "g" (String "r" (String "a" (String "p" (String "h" (String "_"
              (generateProjectHash md5hex root ++ ".json")%string)))))).
    change (String "g" (String "r" (String "a" (String "p" (String "h" (String "_"
              (generateProjectHash md5hex root ++ ".json")%string))))))
      with (("graph_" ++ generateProjectHash md5hex root) ++ ".json")%string.
    apply endsWith_append.
Qed.

(** The loop of [listCachedGraphs], entry by entry. *)
Lemma listCachedGraphs_entries s :
  listCachedGraphs JSON_parse s
  = (flat_map (listedAs JSON_parse (cacheDir (ensureDbDirectory s)))
       (fs_readdir (cacheDir (ensureDbDirectory s))),
     ensureDbDirectory s).
Proof.
  unfold listCachedGraphs. f_equal.
  rewrite (fold_left_pushes (listedAs JSON_parse (cacheDir (ensureDbDirectory s))));
    [reflexivity|].
  intros acc file. unfold listedAs, summaryOf.
  destruct (startsWith file "graph_" && endsWith file ".json");
    [|now rewrite app_nil_r].
  destruct (fs_readFile _ file) as [data|e]; [|now rewrite app_nil_r].
  destruct (JSON_parse data); [reflexivity | now rewrite app_nil_r].
Qed.

(** The entry of the project that was just saved. *)
Lemma listedAs_saved now root s :
  unreadableEntry (cacheDir s) (cacheFileName md5hex root) = false ->
  parsesBack JSON_parse JSON_stringify (stamped md5hex now root (codeGraph s)) ->
  In (cacheFileName md5hex root)
    (fs_readdir (cacheDir (afterSave path_join md5hex JSON_stringify now root s))) /\
  listedAs JSON_parse (cacheDir (afterSave path_join md5hex JSON_stringify now root s))
    (cacheFileName md5hex root)
  = [summaryOf (cacheFileName md5hex root)
       (toJSON (stamped md5hex now root (codeGraph s)))].
Proof.
  intros Hreadable Hparse. unfold afterSave.
  destruct (saveGraph_spec path_join md5hex JSON_stringify now root s)
    as (files & f & _ & -> & Hcontent & Hread & _).
  rewrite Hreadable in Hread. simpl in Hread. simpl. split.
  - apply JSMapFacts.has_keys. rewrite JSMapFacts.has_set, String.eqb_refl. reflexivity.
  - unfold listedAs.
    destruct (cacheFileName_shape root) as [-> ->]. simpl.
    now rewrite JSMapFacts.get_set_eq, Hread, Hcontent, Hparse.
Qed.
End ListingFacts.

(** X18.  [listCachedGraphs] reports, in directory order, exactly the
    directory entries whose name has the shape [graph_*.json] and whose text
    is read and parsed; the other entries are skipped without an error, and
    nothing changes but that a missing cache directory is created. *)
Theorem listing_reports_parseable_graph_files :
  forall JSON_parse s,
    map cs_file (fst (listCachedGraphs JSON_parse s))
    = filter (listable JSON_parse (cacheDir s)) (fs_readdir (cacheDir s)) /\
    snd (listCachedGraphs JSON_parse s) = ensureDbDirectory s.
Proof.
  intros JSON_parse s. rewrite listCachedGraphs_entries. simpl. split; [|reflexivity].
  assert (Hdir : cacheDir (ensureDbDirectory s) = cacheDir s \/
                 (cacheDir s = None /\ cacheDir (ensureDbDirectory s) = Some JSMap.empty)).
  { unfold ensureDbDirectory. destruct (cacheDir s) eqn:H; simpl; auto. }
  destruct Hdir as [-> | [-> ->]]; [|reflexivity].
  induction (fs_readdir (cacheDir s)) as [|file files IH]; simpl; [reflexivity|].
  rewrite map_app, IH. unfold listedAs at 1, listable at 2.
  destruct (startsWith file "graph_" && endsWith file ".json"); simpl; [|reflexivity].
  destruct (fs_readFile (cacheDir s) file) as [data|e]; [|reflexivity].
  destruct (JSON_parse data); reflexivity.
Qed.



Lemma flat_map_nil {A B : Type} (f : A -> list B) l :
  flat_map f l = [] -> forall x, In x l -> f x = [].
Proof.
  induction l as [|y l IH]; simpl; [contradiction|].
  intros H x [<-|Hx].
  - now destruct (app_eq_nil _ _ H).
  - apply IH; [|exact Hx]. now destruct (app_eq_nil _ _ H).
Qed.

Lemma flat_map_all_nil {A B : Type} (f : A -> list B) l :
  (forall x, In x l -> f x = []) -> flat_map f l = [].
Proof.
  induction l as [|y l IH]; simpl; [reflexivity|].
  intros H. rewrite (H y) by now left. apply IH. intros x Hx. apply H. now right.
Qed.

Section ClearingFacts.
Variable path_join : string -> string -> string.
Variable md5hex : string -> string.
Variable JSON_parse : string -> option Document.
Variable JSON_stringify : Document -> string.

(** Where nothing was listed and the project had no entry, the list after a
    save has the one entry of the project. *)
Lemma listing_after_first_save now root s :
  fst (listCachedGraphs JSON_parse s) = [] ->
  hasCacheEntry (cacheDir s) (cacheFileName md5hex root) = false ->
  parsesBack JSON_parse JSON_stringify (stamped md5hex now root (codeGraph s)) ->
  listCachedGraphs JSON_parse (afterSave path_join md5hex JSON_stringify now root s)
  = ([summaryOf (cacheFileName md5hex root)
        (toJSON (stamped md5hex now root (codeGraph s)))],
     afterSave path_join md5hex JSON_stringify now root s).
Proof.
  intros Hnone Hmissing Hparse.
  destruct (listedAs_saved path_join md5hex JSON_parse JSON_stringify now root s
              (missing_is_not_unreadable _ _ Hmissing) Hparse) as [_ Hentry].
  rewrite listCachedGraphs_entries in Hnone. simpl in Hnone.
  pose proof (flat_map_nil _ _ Hnone) as Hskipped. clear Hnone.
  rewrite listCachedGraphs_entries.
  revert Hentry. unfold afterSave.
  destruct (saveGraph_spec path_join md5hex JSON_stringify now root s)
    as (files & f & Hdir & -> & _). simpl. intros Hentry.
  rewrite <- cacheDir_ensure, Hdir in Hmissing. simpl in Hmissing.
  rewrite Hdir in Hskipped. simpl in Hskipped.
  unfold ensureDbDirectory. simpl. f_equal.
  rewrite (JSMapFacts.keys_set_absent files _ f Hmissing) at 2.
  unfold JSMap.keys. rewrite map_app, flat_map_app. simpl.
  rewrite Hentry, app_nil_r.
  replace (flat_map _ (map fst files)) with (@nil CachedSummary); [reflexivity|].
  symmetry. apply flat_map_all_nil. intros file Hfile.
  assert (Hne : cacheFileName md5hex root <> file).
  { intros <-. apply JSMapFacts.has_keys in Hfile. congruence. }
  rewrite <- (Hskipped file Hfile).
  unfold listedAs, fs_readFile. now rewrite JSMapFacts.get_set_neq.
Qed.
End ClearingFacts.

(** X20.  Clearing all caches finds a graph through the project path stored
    in it.  Where no cached graph was listed and the project had no entry,
    [clear_cache] without a path after [saveGraph] of a project with a
    non-empty path deletes that one entry, replies [Cleared 1 cached graphs],
    and leaves the cache directory as it was before the save and the current
    store as it was saved. *)
Theorem clear_all_deletes_saved_graph :
  forall path_join md5hex JSON_parse JSON_stringify now root s,
    fst (listCachedGraphs JSON_parse s) = [] ->
    hasCacheEntry (cacheDir s) (cacheFileName md5hex root) = false ->
    root <> "" ->
    parsesBack JSON_parse JSON_stringify (stamped md5hex now root (codeGraph s)) ->
    clear_cache md5hex JSON_parse None (afterSave path_join md5hex JSON_stringify now root s)
    = (Reply true "Cleared 1 cached graphs",
       withGraph (ensureDbDirectory s) (stamped md5hex now root (codeGraph s))).
Proof.
  intros path_join md5hex JSON_parse JSON_stringify now root s Hnone Hmissing Hroot Hparse.
  unfold clear_cache, clearAll.
  rewrite (listing_after_first_save path_join md5hex JSON_parse JSON_stringify now root s
             Hnone Hmissing Hparse).
  cbn [clearEach summaryOf cs_projectPath toJSON doc_metadata stamped metadata projectPath
         truthy].
  destruct (String.eqb_spec root "") as [Heq|_]; [contradiction|].
  cbn [negb].
  rewrite (delete_after_save path_join md5hex JSON_stringify now root s Hmissing).
  reflexivity.
Qed.

Lemma clear_all_deletes_saved_graph_witness :
  clear_cache Scenario.digest CacheScenario.tagParser None
    (afterSave Posix.join Scenario.digest CacheScenario.tagPrinter "t3" "/project"
       CacheScenario.serverA)
  = (Reply true "Cleared 1 cached graphs",
     withGraph (ensureDbDirectory CacheScenario.serverA)
       (stamped Scenario.digest "t3" "/project" (codeGraph CacheScenario.serverA))).
Proof.
  apply (clear_all_deletes_saved_graph Posix.join Scenario.digest CacheScenario.tagParser
           CacheScenario.tagPrinter "t3" "/project" CacheScenario.serverA).
  - reflexivity.
  - reflexivity.
  - discriminate.
  - reflexivity.
Defined.

(** ** What a load makes of a cache file *)





(** A cache file that parses to [{ nodes: 5 }] is listed by
    [listCachedGraphs], with no nodes and no edges, but it cannot be loaded:
    the current store stays. *)
Example ill_shaped_cache_is_listed_but_not_loaded :
  load_cached_graph Scenario.digest CacheScenario.numberParser "/odd"
    CacheScenario.numberCache
  = (NoCachedGraph, CacheScenario.numberCache) /\
  fst (listCachedGraphs CacheScenario.numberParser CacheScenario.numberCache)
  = [ {| cs_file := "graph_/odd.json"; cs_projectPath := None; cs_createdAt := None;
         cs_updatedAt := None; cs_nodeCount := 0; cs_edgeCount := 0 |} ].
Proof. split; reflexivity. Qed.

(** ** The call graph of a function *)

Section CallGraphFacts.
Variable g : CodeGraph.
Variable depth : Z.


End CallGraphFacts.



